(** * pstatmodel.stepwise.base: stepwise_selection

    A shallow embedding of [stepwise_selection]
    (src/pstatmodel/stepwise/base.py) and the properties of its control
    loop.

    Modelling choices.
    - Python and numpy floats are IEEE binary64 numbers: Rocq's primitive
      floats, with the same rounding, the same NaN and the same
      comparisons; decimal literals denote the nearest binary64 value on
      both sides.
    - The ordinary-least-squares fitter (statsmodels) is external.  Its
      numbers are taken from an environment: the p-value of every
      coefficient of a design and the coefficient of determination.  The
      shape of its answer (a p-value Series indexed by "const" followed
      by the design columns) is built here, as [sm.add_constant] and
      [OLS(...).fit()] build it on a table in which no design holds a
      constant column (with one, [sm.add_constant] adds no intercept and
      the first p-value is a feature's) and no two columns share a name
      (with two, [model.pvalues[c]] is a Series and not a number).  What
      is stated of the backward step for any model, and what is stated
      under the hypothesis of distinct names, does not rest on this.
      Column names are strings other than "const", so that
      [new_rval[_ix]] reads a position.
    - The reductions of pandas ([min], [max], [argmin], [argmax]) skip
      NaN entries and give the first position of the extremum.
    - The iteration order of a Python set is not part of the language; it
      is taken from the environment as well.
    - [round(x, 3) ** 0.5] (Python's decimal rounding and power) is a
      function of the environment.
    - [print] calls (guarded by [verbose]) are not modelled; they do not
      influence the computation.
    - Every fit is recorded in a log, so that statements about fits that
      are or are not performed can be made.
    - The loops may run forever; they take fuel, and running out of fuel
      is a result of its own, distinct from every Python outcome.
    - Exceptions of Python (KeyError of [X[cols]], IndexError of
      [list.pop], ValueError of [list.index], the unbound [mask]) end a
      computation. *)

From Stdlib Require Import Floats ZArith List String Bool Lia Permutation.
Import ListNotations.
Set Warnings "-inexact-float".

Local Open Scope string_scope.
Local Open Scope list_scope.

(** ** Python floats *)

Module PyFloat.

Local Open Scope float_scope.

(** [x > y] *)
Definition gtb (x y : float) : bool := y <? x.

(** [x != y] *)
Definition neqb (x y : float) : bool := negb (x =? y).

(** [max([a, b])]: the first element stays unless a later one is greater. *)
Definition py_max2 (a b : float) : float := if gtb b a then b else a.

(** [min([a, b])] *)
Definition py_min2 (a b : float) : float := if b <? a then b else a.

(** 2^52: from here on every binary64 number is an integer. *)
Definition two52 : float := 4503599627370496.

(** [np.rint]: round to the nearest integer, ties to even. *)
Definition rint (x : float) : float :=
  if abs x <? two52 then
    if x <? 0 then - ((- x + two52) - two52) else (x + two52) - two52
  else x.

(** [np.round(x, decimals=2)]: numpy multiplies by [10**2], applies
    [rint] and divides again. *)
Definition np_round2 (x : float) : float := rint (x * 100) / 100.

(** [k / 100] for an integer [k]. *)
Definition cent (k : Z) : float := of_uint63 (Uint63.of_Z k) / 100.

End PyFloat.
Export PyFloat.

(** ** pandas Series reductions (NaN entries are skipped) *)

Module Series.

Local Open Scope float_scope.

(** The running extremum: position and value of the best entry so far.
    [better x b] decides whether [x] replaces the current best [b]. *)
Fixpoint arg_from (better : float -> float -> bool) (i : nat)
    (best : option (nat * float)) (l : list float) : option (nat * float) :=
  match l with
  | [] => best
  | x :: r =>
      if is_nan x then arg_from better (S i) best r
      else match best with
           | None => arg_from better (S i) (Some (i, x)) r
           | Some (_, b) =>
               if better x b then arg_from better (S i) (Some (i, x)) r
               else arg_from better (S i) best r
           end
  end.

Definition value_of (r : option (nat * float)) : float :=
  match r with Some (_, v) => v | None => nan end.

(** [s.min()]: NaN when there is no entry that is a number. *)
Definition min (l : list float) : float := value_of (arg_from PrimFloat.ltb 0 None l).

(** [s.argmin()]: the first position of the minimum. *)
Definition argmin (l : list float) : option nat :=
  option_map fst (arg_from PrimFloat.ltb 0 None l).

(** [s.max()] *)
Definition max (l : list float) : float := value_of (arg_from gtb 0 None l).

(** [s.argmax()] *)
Definition argmax (l : list float) : option nat :=
  option_map fst (arg_from gtb 0 None l).

(** [s[label]] on a Series held as label/value pairs. *)
Fixpoint get (s : list (string * float)) (label : string) : option float :=
  match s with
  | [] => None
  | (k, v) :: r => if String.eqb k label then Some v else get r label
  end.

End Series.

(** ** Python lists and numpy masks *)

Module PyList.

(** [x in l] *)
Definition mem (x : string) (l : list string) : bool :=
  existsb (String.eqb x) l.

(** [l.index(x)] *)
Fixpoint index (x : string) (l : list string) : option nat :=
  match l with
  | [] => None
  | h :: t => if String.eqb h x then Some 0%nat else option_map S (index x t)
  end.

(** [l.pop(i)]: the list without position [i]; [None] when out of range. *)
Fixpoint pop {A : Type} (i : nat) (l : list A) : option (list A) :=
  match l, i with
  | [], _ => None
  | _ :: t, O => Some t
  | h :: t, S j => option_map (cons h) (pop j t)
  end.

(** [l.remove(x)]: the list without the first [x]. *)
Fixpoint remove (x : string) (l : list string) : option (list string) :=
  match l with
  | [] => None
  | h :: t => if String.eqb h x then Some t else option_map (cons h) (remove x t)
  end.

(** The elements of [set(a) - set(b)], before Python orders them. *)
Definition set_difference (a b : list string) : list string :=
  filter (fun c => negb (mem c b)) (nodup string_dec a).

(** [np.where(mask == False)[0]]: the positions of the failing entries. *)
Fixpoint where_false_from (i : nat) (mask : list bool) : list nat :=
  match mask with
  | [] => []
  | b :: r => if b then where_false_from (S i) r
              else i :: where_false_from (S i) r
  end.

Definition where_false (mask : list bool) : list nat := where_false_from 0 mask.

(** [mask.sum()] *)
Definition mask_sum (mask : list bool) : Z :=
  Z.of_nat (List.length (filter (fun b => b) mask)).

(** [False in mask] *)
Definition has_false (mask : list bool) : bool := existsb negb mask.

(** Lines 93-96 (and 97-100): the number of passing entries before the
    first failing one, or of all entries when none fails. *)
Definition prefix_size (mask : list bool) : Z :=
  if has_false mask then
    match where_false mask with
    | i :: _ => mask_sum (firstn i mask)
    | [] => mask_sum mask
    end
  else mask_sum mask.

End PyList.
Export PyList.

(** ** Outcomes and the fit log *)

Inductive exn : Type :=
| KeyError | IndexError | ValueError | UnboundLocalError.

Inductive res (A : Type) : Type :=
| Ok (a : A)
| Raise (e : exn)
| OutOfFuel.
Arguments Ok {A} a.
Arguments Raise {A} e.
Arguments OutOfFuel {A}.

(** The designs (column lists) handed to the fitter so far, oldest first. *)
Definition FitLog : Type := list (list string).

(** A computation reads and extends the log and ends in an outcome. *)
Definition M (A : Type) : Type := FitLog -> res A * FitLog.

Definition ret {A : Type} (a : A) : M A := fun log => (Ok a, log).

Definition raise {A : Type} (e : exn) : M A := fun log => (Raise e, log).

Definition out_of_fuel {A : Type} : M A := fun log => (OutOfFuel, log).

Definition bind {A B : Type} (c : M A) (k : A -> M B) : M B :=
  fun log =>
    match c log with
    | (Ok a, log') => k a log'
    | (Raise e, log') => (Raise e, log')
    | (OutOfFuel, log') => (OutOfFuel, log')
    end.

(** An optional value, or the exception raised in its absence. *)
Definition expect {A : Type} (o : option A) (e : exn) : M A :=
  match o with Some a => ret a | None => raise e end.

Declare Scope py_scope.
Delimit Scope py_scope with py.
Notation "x <- c ;; k" := (bind c (fun x => k))
  (at level 61, c at next level, right associativity) : py_scope.
Notation "' p <- c ;; k" := (bind c (fun x => match x with p => k end))
  (at level 61, p pattern, c at next level, right associativity) : py_scope.

(** ** The data and the external fitter *)

(** What [sm.OLS(...).fit()] returns, as far as the selector reads it. *)
Record OLSResults : Type := {
  pvalues : list (string * float);
  rsquared : float
}.

Record Env : Type := {
  (** [X.columns] *)
  columns : list string;
  (** the target *)
  y : list float;
  (** the p-value of the coefficient of a column (or of "const") in the
      fit of [y] on the given design columns and an intercept *)
  coef_pvalue : list string -> string -> float;
  (** the coefficient of determination of that fit *)
  rsquared_of : list string -> float;
  (** the order in which Python iterates over a set with these elements *)
  set_iter : list string -> list string;
  (** [round(r2, 3) ** 0.5] *)
  rvalue : float -> float
}.

(** The second and third components of what the function returns are a
    fitted model and a float, or [np.nan] twice. *)
Inductive PyModel : Type :=
| Fitted (m : OLSResults)
| NotAModel (f : float).

Definition Result : Type := (list string * PyModel * float)%type.

(** The local variables of [stepwise_selection] that live across passes.
    [_threshold_in] holds the caller's [threshold_in] (line 32). *)
Record State : Type := {
  included : list string;
  included_pvals : list float;
  included_rvals : list float;
  _threshold_in : float;
  threshold_in : float;
  lower : bool;
  rcond : bool;
  dropped : bool;
  onetime : bool
}.

(** [included], [included_pvals] and [included_rvals] assigned together. *)
Definition set_lists (s : State) (i : list string) (p r : list float) : State :=
  {| included := i; included_pvals := p; included_rvals := r;
     _threshold_in := _threshold_in s; threshold_in := threshold_in s;
     lower := lower s; rcond := rcond s; dropped := dropped s;
     onetime := onetime s |}.

Definition set_threshold_in (s : State) (t : float) : State :=
  {| included := included s; included_pvals := included_pvals s;
     included_rvals := included_rvals s;
     _threshold_in := _threshold_in s; threshold_in := t;
     lower := lower s; rcond := rcond s; dropped := dropped s;
     onetime := onetime s |}.

Definition set_lower (s : State) (b : bool) : State :=
  {| included := included s; included_pvals := included_pvals s;
     included_rvals := included_rvals s;
     _threshold_in := _threshold_in s; threshold_in := threshold_in s;
     lower := b; rcond := rcond s; dropped := dropped s;
     onetime := onetime s |}.

Definition set_rcond (s : State) (b : bool) : State :=
  {| included := included s; included_pvals := included_pvals s;
     included_rvals := included_rvals s;
     _threshold_in := _threshold_in s; threshold_in := threshold_in s;
     lower := lower s; rcond := b; dropped := dropped s;
     onetime := onetime s |}.

Definition set_dropped (s : State) (b : bool) : State :=
  {| included := included s; included_pvals := included_pvals s;
     included_rvals := included_rvals s;
     _threshold_in := _threshold_in s; threshold_in := threshold_in s;
     lower := lower s; rcond := rcond s; dropped := b;
     onetime := onetime s |}.

Definition set_onetime (s : State) (b : bool) : State :=
  {| included := included s; included_pvals := included_pvals s;
     included_rvals := included_rvals s;
     _threshold_in := _threshold_in s; threshold_in := threshold_in s;
     lower := lower s; rcond := rcond s; dropped := dropped s;
     onetime := b |}.

(** What one pass of the outer loop ends in: the next pass, or the
    [return] after a [break]. *)
Inductive Step : Type :=
| Continue (s : State)
| Return (r : Result).

(** The state of the tightening loop of lines 84-131.  [w_mask] is unbound
    until the body has run once; [w_history] lists the values assigned to
    [threshold_in] inside the loop, oldest first. *)
Record Tighten : Type := {
  w_psize : Z;
  w_idem : bool;
  w_threshold_in : float;
  w_mask : option (list bool);
  w_rcond : bool;
  w_history : list float
}.

(** ** The selector *)

Section Selector.

Variable E : Env.
Variables threshold_out : float.
Variables max_vars min_vars : Z.

Local Open Scope py_scope.
Local Open Scope float_scope.

(** The fit of the target on the design [cols] and an intercept: the
    p-value Series is indexed by "const" and the design columns.  (On a
    design that holds a constant column [sm.add_constant] adds no
    intercept; such designs are not described by this definition.) *)
Definition fitted (cols : list string) : OLSResults :=
  {| pvalues := ("const", coef_pvalue E cols "const")
                  :: map (fun c => (c, coef_pvalue E cols c)) cols;
     rsquared := rsquared_of E cols |}.

(** [sm.OLS(y, sm.add_constant(X[cols])).fit()].  [X[cols]] raises
    KeyError for a name that is not a column. *)
Definition OLS (cols : list string) : M OLSResults :=
  fun log =>
    if forallb (fun c => mem c (columns E)) cols then
      (Ok (fitted cols), (log ++ [cols])%list)
    else (Raise KeyError, log).

(** Lines 48-51: one fit per excluded column; the two new Series.
    [model.pvalues[new_column]] is one number, as it is when no other
    column of the table has that name. *)
Fixpoint forward_fits (incl excluded : list string)
    : M (list float * list float) :=
  match excluded with
  | [] => ret ([], [])
  | new_column :: rest =>
      model <- OLS (incl ++ [new_column]) ;;
      p <- expect (Series.get (pvalues model) new_column) KeyError ;;
      ' (ps, rs) <- forward_fits incl rest ;;
      ret (p :: ps, rvalue E (rsquared model) :: rs)
  end.

(** Lines 45-59: the forward step.  Returns the state and [changed]. *)
Definition forward (s : State) : M (State * bool) :=
  let excluded := set_iter E (set_difference (columns E) (included s)) in
  ' (new_pval, new_rval) <- forward_fits (included s) excluded ;;
  let best_pval := Series.min new_pval in
  if best_pval <? threshold_in s then
    _ix <- expect (Series.argmin new_pval) ValueError ;;
    best_feature <- expect (nth_error excluded _ix) IndexError ;;
    r <- expect (nth_error new_rval _ix) IndexError ;;
    ret (set_lists s (included s ++ [best_feature])
           (included_pvals s ++ [best_pval]) (included_rvals s ++ [r]),
         true)
  else ret (s, false).

(** Lines 63-74: the backward step.  Returns the model, the state and
    [changed]. *)
Definition backward (s : State) (changed : bool)
    : M (OLSResults * State * bool) :=
  model <- OLS (included s) ;;
  let pvalues := tl (pvalues model) in
  let worst_pval := Series.max (map snd pvalues) in
  if gtb worst_pval threshold_out then
    i <- expect (Series.argmax (map snd pvalues)) ValueError ;;
    worst_feature <- expect (nth_error (map fst pvalues) i) IndexError ;;
    _idx <- expect (index worst_feature (included s)) ValueError ;;
    ps <- expect (pop _idx (included_pvals s)) IndexError ;;
    rs <- expect (pop _idx (included_rvals s)) IndexError ;;
    incl <- expect (remove worst_feature (included s)) ValueError ;;
    ret (model, set_lists (set_dropped s true) incl ps rs, true)
  else ret (model, s, changed).

(** [len(included)] *)
Definition size (s : State) : Z := Z.of_nat (List.length (included s)).

(** Lines 85-131: the body of the tightening loop.  [inl] is [continue],
    [inr] is [break]. *)
Definition tighten_body (pvals rvals : list float) (w : Tighten)
    : Tighten + Tighten :=
  let threshold_in := np_round2 (py_max2 0.01 (w_threshold_in w - 0.01)) in
  let threshold_in_next := np_round2 (py_max2 0.01 (threshold_in - 0.01)) in
  let mask := map (fun p => p <? threshold_in) pvals in
  let mask_next := map (fun p => p <? threshold_in_next) pvals in
  let psize := prefix_size mask in
  let psize_next := prefix_size mask_next in
  let history := (w_history w ++ [threshold_in])%list in
  if (psize =? psize_next)%Z && neqb threshold_in 0.01
     && negb (psize =? 0)%Z && (psize >=? min_vars)%Z
  then
    inl {| w_psize := psize; w_idem := true; w_threshold_in := threshold_in;
           w_mask := Some mask; w_rcond := w_rcond w; w_history := history |}
  else if (psize >=? min_vars)%Z && (psize <=? max_vars)%Z then
    inr {| w_psize := psize; w_idem := false; w_threshold_in := threshold_in;
           w_mask := Some mask; w_rcond := w_rcond w; w_history := history |}
  else if (psize <? min_vars)%Z
          || ((threshold_in =? 0.1) || (threshold_in =? 0.01)) then
    let mask := map (fun r => r <? 0.9) rvals in
    if negb (psize =? 13)%Z then
      let threshold_in := np_round2 (py_min2 0.1 (threshold_in + 0.01)) in
      inr {| w_psize := psize; w_idem := false;
             w_threshold_in := threshold_in; w_mask := Some mask;
             w_rcond := true;
             w_history := (history ++ [threshold_in])%list |}
    else
      inr {| w_psize := psize; w_idem := false;
             w_threshold_in := threshold_in; w_mask := Some mask;
             w_rcond := true; w_history := history |}
  else
    inl {| w_psize := psize; w_idem := false; w_threshold_in := threshold_in;
           w_mask := Some mask; w_rcond := w_rcond w; w_history := history |}.

(** Line 84: [while psize > max_vars or idem]. *)
Fixpoint tighten (fuel : nat) (pvals rvals : list float) (w : Tighten)
    : res Tighten :=
  if (w_psize w >? max_vars)%Z || w_idem w then
    match fuel with
    | O => OutOfFuel
    | S fuel' =>
        match tighten_body pvals rvals w with
        | inl w' => tighten fuel' pvals rvals w'
        | inr w' => Ok w'
        end
    end
  else Ok w.

(** Lines 81-138: over-capacity handling.  Returns the final state and
    the model to return. *)
Definition over_capacity (fuel : nat) (s : State) (model : OLSResults)
    : M (State * OLSResults) :=
  w <- (fun log =>
          (tighten fuel (included_pvals s) (included_rvals s)
             {| w_psize := 999; w_idem := false;
                w_threshold_in := threshold_in s; w_mask := None;
                w_rcond := rcond s; w_history := [] |}, log)) ;;
  mask <- expect (w_mask w) UnboundLocalError ;;
  let s := set_rcond (set_threshold_in s (w_threshold_in w)) (w_rcond w) in
  let mfalse := where_false mask in
  let mfalse := if rcond s then filter (fun i => (3 <? i)%nat) mfalse
                else mfalse in
  match mfalse with
  | [] => ret (s, model)
  | k :: _ =>
      let incl := firstn k (included s) in
      model <- OLS incl ;;
      ret (set_lists s incl (included_pvals s) (included_rvals s), model)
  end.

(** Lines 140-163: the branches taken when [dropped] holds.  Returns the
    state and [changed]. *)
Definition on_dropped (s : State) (changed : bool) (model : OLSResults)
    : State * bool :=
  if (threshold_in s =? 0.1) && onetime s then
    (set_onetime
       (set_lists (set_threshold_in s (_threshold_in s)) [] [] []) false,
     true)
  else if (size s >? max_vars)%Z && neqb (threshold_in s) 0.01
          && negb (lower s) then
    (set_lists
       (set_threshold_in s
          (np_round2 (py_max2 0.01 (threshold_in s - 0.01)))) [] [] [],
     true)
  else if (size s >=? min_vars)%Z && lower s then
    if gtb (rvalue E (rsquared model)) 0.9 then (s, false) else (s, changed)
  else (s, changed).

(** Lines 165-175: the end of a pass. *)
Definition stall (s : State) (changed : bool) (model : OLSResults) : Step :=
  if negb changed then
    if (size s <? min_vars)%Z && neqb (threshold_in s) 0.1 then
      Continue
        (set_lower
           (set_lists
              (set_threshold_in s
                 (np_round2 (py_min2 0.1 (threshold_in s + 0.01)))) [] [] [])
           true)
    else Return (included s, Fitted model, threshold_in s)
  else Continue s.

(** Lines 78-175: what follows the two steps of a pass. *)
Definition dispatch (fuel : nat) (s : State) (changed : bool)
    (model : OLSResults) : M Step :=
  if (size s >=? min_vars)%Z && (size s <=? max_vars)%Z && negb changed then
    ret (Return (included s, Fitted model, threshold_in s))
  else if (size s >? max_vars)%Z && negb (dropped s) then
    ' (s', model') <- over_capacity fuel s model ;;
    ret (Return (included s', Fitted model', threshold_in s'))
  else if dropped s then
    let '(s', changed') := on_dropped s changed model in
    ret (stall s' changed' model)
  else ret (stall s changed model).

(** Lines 43-74: the forward and the backward step of a pass. *)
Definition steps (s : State) : M (OLSResults * State * bool) :=
  ' (s1, changed) <- forward s ;;
  backward s1 changed.

(** Lines 43-175: one pass of [while True]. *)
Definition pass (fuel : nat) (s : State) : M Step :=
  ' (model, s2, changed) <- steps s ;;
  dispatch fuel s2 changed model.

(** Line 42: [while True], for at most [passes] passes. *)
Fixpoint loop (fuel passes : nat) (s : State) : M Result :=
  match passes with
  | O => out_of_fuel
  | S k =>
      step <- pass fuel s ;;
      match step with
      | Continue s' => loop fuel k s'
      | Return r => ret r
      end
  end.

(** Lines 29-37: the variables before the loop. *)
Definition init (initial_list : list string) (threshold_in : float) : State :=
  {| included := initial_list; included_pvals := []; included_rvals := [];
     _threshold_in := threshold_in; threshold_in := 0.1;
     lower := false; rcond := false; dropped := false; onetime := true |}.

End Selector.

(** [stepwise_selection(X, y, initial_list, threshold_in, threshold_out,
    verbose, max_vars, min_vars)]; [fuel] bounds the passes of both
    loops. *)
Definition stepwise_selection (E : Env) (fuel : nat)
    (initial_list : list string) (threshold_in threshold_out : float)
    (max_vars min_vars : Z) : M Result :=
  if existsb is_nan (y E) then ret ([], NotAModel nan, nan)
  else loop E threshold_out max_vars min_vars fuel fuel
         (init initial_list threshold_in).

(** ** Example data *)

Module Examples.

Local Open Scope float_scope.

(** Equality of two designs. *)
Fixpoint design_eqb (a b : list string) : bool :=
  match a, b with
  | [], [] => true
  | x :: a', y :: b' => String.eqb x y && design_eqb a' b'
  | _, _ => false
  end.

Fixpoint find_fit {A : Type} (d : list string)
    (t : list (list string * A)) : option A :=
  match t with
  | [] => None
  | (k, v) :: r => if design_eqb k d then Some v else find_fit d r
  end.

(** A fitter given by a table: for each design, the p-values of its
    coefficients and its coefficient of determination.  What the table
    does not list is NaN.  In the tables below the coefficient of
    determination is 0.25 or 1, where [round(r2, 3) ** 0.5] is the square
    root. *)
Definition table_env (cols : list string) (target : list float)
    (fits : list (list string * (list (string * float) * float)))
    (order : list string -> list string) : Env :=
  {| columns := cols;
     y := target;
     coef_pvalue := fun d c =>
       match find_fit d fits with
       | Some (ps, _) =>
           match Series.get ps c with Some p => p | None => nan end
       | None => nan
       end;
     rsquared_of := fun d =>
       match find_fit d fits with Some (_, r2) => r2 | None => nan end;
     set_iter := order;
     rvalue := PrimFloat.sqrt |}.

(** A fitter in which the p-value of a column does not depend on the
    other columns of the design, and the coefficient of determination
    depends on the number of columns only. *)
Definition flat_env (cols : list string) (target : list float)
    (ps : list (string * float)) (r2 : nat -> float)
    (order : list string -> list string) : Env :=
  {| columns := cols;
     y := target;
     coef_pvalue := fun _ c =>
       match Series.get ps c with Some p => p | None => nan end;
     rsquared_of := fun d => r2 (List.length d);
     set_iter := order;
     rvalue := PrimFloat.sqrt |}.

(** Three candidates; [a] is significant alone and loses its
    significance next to [b]; [c] is significant at 0.1 only. *)
Definition fits_abc : list (list string * (list (string * float) * float)) :=
  [ (["a"], ([("a", 0.01)], 0.25));
    (["b"], ([("b", 0.02)], 0.25));
    (["c"], ([("c", 0.07)], 0.25));
    (["a"; "b"], ([("a", 0.3); ("b", 0.02)], 0.25));
    (["a"; "c"], ([("a", 0.01); ("c", 0.07)], 0.25));
    (["b"; "a"], ([("b", 0.02); ("a", 0.3)], 0.25));
    (["b"; "c"], ([("b", 0.02); ("c", 0.07)], 0.25));
    (["b"; "c"; "a"], ([("b", 0.02); ("c", 0.07); ("a", 0.5)], 0.25)) ].

Definition env_abc : Env :=
  table_env ["a"; "b"; "c"] [1; 2; 3] fits_abc (fun l => l).

(** Five candidates that are all significant at 0.1, one of them at 0.09;
    the fit on all five is perfect. *)
Definition env_five : Env :=
  flat_env ["f1"; "f2"; "f3"; "f4"; "f5"] [1; 2; 3]
    [("f1", 0.001); ("f2", 0.095); ("f3", 0.096); ("f4", 0.097);
     ("f5", 0.098)]
    (fun n => if (n <? 5)%nat then 0.25 else 1)
    (fun l => l).

(** Two highly significant candidates and poor fits. *)
Definition env_two : Env :=
  flat_env ["f1"; "f2"] [1; 2; 3] [("f1", 0.001); ("f2", 0.002)]
    (fun _ => 0.25) (fun l => l).

(** One candidate that is not significant. *)
Definition env_one : Env :=
  flat_env ["a"] [1; 2; 3] [("a", 0.5)] (fun _ => 0.25) (fun l => l).

(** Two candidates with the same p-value, under two iteration orders. *)
Definition env_tie (order : list string -> list string) : Env :=
  flat_env ["a"; "b"] [1; 2; 3] [("a", 0.03); ("b", 0.03)]
    (fun _ => 0.25) order.

(** A target with a missing value. *)
Definition env_nan : Env :=
  flat_env ["a"] [1; nan; 3] [("a", 0.5)] (fun _ => 0.25) (fun l => l).

(** The state of [env_abc] after [a] and [b] have been added. *)
Definition state_ab : State :=
  {| included := ["a"; "b"]; included_pvals := [0.01; 0.02];
     included_rvals := [0.5; 0.5]; _threshold_in := 0.05;
     threshold_in := 0.1; lower := false; rcond := false;
     dropped := false; onetime := true |}.

(** [env_five] at the head of the fifth pass, with bounds of four
    features, and after the two steps of that pass. *)
Definition head_five : State :=
  {| included := ["f1"; "f2"; "f3"; "f4"];
     included_pvals := [0.001; 0.095; 0.096; 0.097];
     included_rvals := [0.5; 0.5; 0.5; 0.5]; _threshold_in := 0.05;
     threshold_in := 0.1; lower := false; rcond := false;
     dropped := false; onetime := true |}.

Definition log_five : FitLog :=
  [ ["f1"]; ["f2"]; ["f3"]; ["f4"]; ["f5"]; ["f1"];
    ["f1"; "f2"]; ["f1"; "f3"]; ["f1"; "f4"]; ["f1"; "f5"]; ["f1"; "f2"];
    ["f1"; "f2"; "f3"]; ["f1"; "f2"; "f4"]; ["f1"; "f2"; "f5"];
    ["f1"; "f2"; "f3"];
    ["f1"; "f2"; "f3"; "f4"]; ["f1"; "f2"; "f3"; "f5"];
    ["f1"; "f2"; "f3"; "f4"] ].

Definition state_five : State :=
  {| included := ["f1"; "f2"; "f3"; "f4"; "f5"];
     included_pvals := [0.001; 0.095; 0.096; 0.097; 0.098];
     included_rvals := [0.5; 0.5; 0.5; 0.5; 1]; _threshold_in := 0.05;
     threshold_in := 0.1; lower := false; rcond := false;
     dropped := false; onetime := true |}.

(** [env_two] at the head of the second pass, with at most one feature
    wanted, and after the two steps of that pass. *)
Definition head_two : State :=
  {| included := ["f1"]; included_pvals := [0.001];
     included_rvals := [0.5]; _threshold_in := 0.05;
     threshold_in := 0.1; lower := false; rcond := false;
     dropped := false; onetime := true |}.

Definition state_two : State :=
  {| included := ["f1"; "f2"]; included_pvals := [0.001; 0.002];
     included_rvals := [0.5; 0.5]; _threshold_in := 0.05;
     threshold_in := 0.1; lower := false; rcond := false;
     dropped := false; onetime := true |}.

(** How the tightening loop leaves [state_two]. *)
Definition tightened_two : Tighten :=
  {| w_psize := 2; w_idem := false; w_threshold_in := 0.02;
     w_mask := Some [true; true]; w_rcond := true;
     w_history := [0.09; 0.08; 0.07; 0.06; 0.05; 0.04; 0.03; 0.02; 0.01;
                   0.02] |}.

(** [env_abc] at the head of the second pass, and after the two steps of
    that pass, which add [b] and drop [a]. *)
Definition head_abc : State :=
  {| included := ["a"]; included_pvals := [0.01];
     included_rvals := [0.5]; _threshold_in := 0.05;
     threshold_in := 0.1; lower := false; rcond := false;
     dropped := false; onetime := true |}.

Definition log_abc : FitLog := [["a"]; ["b"]; ["c"]; ["a"]].

Definition dropped_abc : State :=
  {| included := ["b"]; included_pvals := [0.02];
     included_rvals := [0.5]; _threshold_in := 0.05;
     threshold_in := 0.1; lower := false; rcond := false;
     dropped := true; onetime := true |}.

(** [env_abc] called with the threshold 0.5, at the head of the third
    pass. *)
Definition head_abc_half : State :=
  {| included := []; included_pvals := []; included_rvals := [];
     _threshold_in := 0.5; threshold_in := 0.5; lower := false;
     rcond := false; dropped := true; onetime := false |}.

(** The same five candidates with poor fits throughout. *)
Definition env_five_poor : Env :=
  flat_env ["f1"; "f2"; "f3"; "f4"; "f5"] [1; 2; 3]
    [("f1", 0.001); ("f2", 0.095); ("f3", 0.096); ("f4", 0.097);
     ("f5", 0.098)]
    (fun _ => 0.25)
    (fun l => l).

Definition state_five_poor : State :=
  {| included := ["f1"; "f2"; "f3"; "f4"; "f5"];
     included_pvals := [0.001; 0.095; 0.096; 0.097; 0.098];
     included_rvals := [0.5; 0.5; 0.5; 0.5; 0.5]; _threshold_in := 0.05;
     threshold_in := 0.1; lower := false; rcond := false;
     dropped := false; onetime := true |}.

(** [env_abc] started from [initial_list = ["b"]], at the head of its
    second pass. *)
Definition head_bc : State :=
  {| included := ["b"; "c"]; included_pvals := [0.07];
     included_rvals := [0.5]; _threshold_in := 0.05;
     threshold_in := 0.1; lower := false; rcond := false;
     dropped := false; onetime := true |}.

Definition log_bc : FitLog := [["b"; "a"]; ["b"; "c"]; ["b"; "c"]].

End Examples.


(** ** Notions used in the statements *)

(** The p-values of the coefficients other than the intercept, in the
    order of the design. *)
Definition coef_pvalues (E : Env) (cols : list string) : list float :=
  map (coef_pvalue E cols) cols.

(** The tracks are as long as Included. *)
Definition aligned (s : State) : Prop :=
  List.length (included_pvals s) = List.length (included s)
  /\ List.length (included_rvals s) = List.length (included s).

(** The Included features are columns of the table. *)
Definition known (E : Env) (cols : list string) : bool :=
  forallb (fun c => mem c (columns E)) cols.

(** The inclusion thresholds 0.01, 0.02, ..., 0.10. *)
Definition grid : list float :=
  map (fun k => cent (Z.of_nat k)) (seq 1 10).

Definition on_grid (t : float) : Prop := In t grid.

(** [threshold_in] lowered (lines 85, 86-88 and 151) and raised (lines
    123-125 and 167). *)
Definition lowered (t : float) : float :=
  np_round2 (py_max2 0.01 (t - 0.01))%float.

Definition raised (t : float) : float :=
  np_round2 (py_min2 0.1 (t + 0.01))%float.

(** [n] successive lowerings of [t]. *)
Fixpoint lowerings (n : nat) (t : float) : list float :=
  match n with
  | O => []
  | S n' => lowered t :: lowerings n' (lowered t)
  end.

(** Every value is at most the one before it. *)
Fixpoint non_increasing (l : list float) : bool :=
  match l with
  | a :: ((b :: _) as r) => (b <=? a)%float && non_increasing r
  | _ => true
  end.

(** The test of the tightening loop (line 84). *)
Definition tighten_test (max_vars : Z) (w : Tighten) : bool :=
  (w_psize w >? max_vars)%Z || w_idem w.

(** The runs of the tightening loop, from its test to its end. *)
Inductive tightens (max_vars min_vars : Z) (pvals rvals : list float)
    : Tighten -> Tighten -> Prop :=
| tightens_test_fails w :
    tighten_test max_vars w = false ->
    tightens max_vars min_vars pvals rvals w w
| tightens_break w w' :
    tighten_test max_vars w = true ->
    tighten_body max_vars min_vars pvals rvals w = inr w' ->
    tightens max_vars min_vars pvals rvals w w'
| tightens_continue w w1 w' :
    tighten_test max_vars w = true ->
    tighten_body max_vars min_vars pvals rvals w = inl w1 ->
    tightens max_vars min_vars pvals rvals w1 w' ->
    tightens max_vars min_vars pvals rvals w w'.

(** The variables of the tightening loop before its first test (lines 81
    and 83). *)
Definition tighten_entry (s : State) : Tighten :=
  {| w_psize := 999; w_idem := false; w_threshold_in := threshold_in s;
     w_mask := None; w_rcond := rcond s; w_history := [] |}.

(** The passes of the outer loop: [reaches fuel s log n s' log'] when [n]
    passes from [s] with fit log [log], none of which returns, lead to
    the head of the loop in [s'] with fit log [log']. *)
Inductive reaches (E : Env) (threshold_out : float) (max_vars min_vars : Z)
    (fuel : nat) : State -> FitLog -> nat -> State -> FitLog -> Prop :=
| reaches_head s log :
    reaches E threshold_out max_vars min_vars fuel s log 0 s log
| reaches_pass s log n s1 log1 s2 log2 :
    reaches E threshold_out max_vars min_vars fuel s log n s1 log1 ->
    pass E threshold_out max_vars min_vars fuel s1 log1
    = (Ok (Continue s2), log2) ->
    reaches E threshold_out max_vars min_vars fuel s log (S n) s2 log2.

(** The number of passing entries of a mask before the first failing
    one. *)
Fixpoint passing_prefix (mask : list bool) : nat :=
  match mask with
  | true :: r => S (passing_prefix r)
  | _ => 0
  end.

(** The mask of the p-value track at a threshold (line 90), the mask of
    the r-value track (line 121) and the prefix count at a threshold. *)
Definition pmask (pvals : list float) (t : float) : list bool :=
  map (fun p => p <? t)%float pvals.

Definition rmask (rvals : list float) : list bool :=
  map (fun r => r <? 0.9)%float rvals.

Definition psize_at (pvals : list float) (t : float) : Z :=
  prefix_size (pmask pvals t).

(** How a run of the tightening loop that passes the test once ends:
    after [n] lowerings, by the break with the prefix count within the
    bounds, or by the break that sets [rcond], which raises the threshold
    unless the prefix count is 13. *)
Definition ends_after (max_vars min_vars : Z) (pvals rvals : list float)
    (w w' : Tighten) (n : nat) : Prop :=
  let t0 := w_threshold_in w in
  let t := last (lowerings n t0) t0 in
  (1 <= n)%nat
  /\ (((min_vars <= psize_at pvals t <= max_vars)%Z
       /\ w_rcond w' = w_rcond w
       /\ w_threshold_in w' = t
       /\ w_mask w' = Some (pmask pvals t)
       /\ w_history w' = (w_history w ++ lowerings n t0)%list)
      \/ (~ (min_vars <= psize_at pvals t <= max_vars)%Z
          /\ ((psize_at pvals t < min_vars)%Z
              \/ (t =? 0.1)%float = true \/ (t =? 0.01)%float = true)
          /\ w_rcond w' = true
          /\ w_mask w' = Some (rmask rvals)
          /\ ((psize_at pvals t <> 13%Z
               /\ w_threshold_in w' = raised t
               /\ w_history w'
                  = (w_history w ++ lowerings n t0 ++ [raised t])%list)
              \/ (psize_at pvals t = 13%Z
                  /\ w_threshold_in w' = t
                  /\ w_history w'
                     = (w_history w ++ lowerings n t0)%list)))).

(** The head of the loop after [n] passes, computed; [None] when one of
    the passes does not lead to a next pass. *)
Fixpoint iterate (E : Env) (threshold_out : float) (max_vars min_vars : Z)
    (fuel n : nat) (s : State) (log : FitLog) : option (State * FitLog) :=
  match n with
  | O => Some (s, log)
  | S k =>
      match pass E threshold_out max_vars min_vars fuel s log with
      | (Ok (Continue s'), log') =>
          iterate E threshold_out max_vars min_vars fuel k s' log'
      | _ => None
      end
  end.

(** The positions at which lines 132-134 may cut Included. *)
Definition cut_positions (w : Tighten) (mask : list bool) : list nat :=
  if w_rcond w then filter (fun i => (3 <? i)%nat) (where_false mask)
  else where_false mask.

(** The state in which the tightening loop leaves the selector. *)
Definition after_tighten (s : State) (w : Tighten) : State :=
  set_rcond (set_threshold_in s (w_threshold_in w)) (w_rcond w).

(** The three restarts of the outer loop: the reset to the caller's
    threshold (lines 141-148), the lowering (lines 151-157) and the
    raising (lines 167-173). *)
Definition reset_state (s : State) : State :=
  set_onetime (set_lists (set_threshold_in s (_threshold_in s)) [] [] [])
    false.

Definition lowered_state (s : State) : State :=
  set_lists (set_threshold_in s (lowered (threshold_in s))) [] [] [].

Definition raised_state (s : State) : State :=
  set_lower
    (set_lists (set_threshold_in s (raised (threshold_in s))) [] [] []) true.

(** The test of the reset (line 140, under line 139). *)
Definition reset_test (s : State) : bool :=
  dropped s && ((threshold_in s =? 0.1)%float && onetime s).

(** What holds at the head of every pass of an invocation called with
    the threshold [ti]: the caller's threshold is kept, [rcond] is not
    set, and until the first drop the threshold is 0.1 and [onetime]
    holds, after which [onetime] is cleared. *)
Definition head_inv (ti : float) (s : State) : Prop :=
  _threshold_in s = ti
  /\ rcond s = false
  /\ (dropped s = false ->
      threshold_in s = 0.1%float /\ onetime s = true /\ lower s = false)
  /\ (dropped s = true -> onetime s = false).

(** The two steps of a pass leave the scalar variables alone, except
    that [dropped] may be set. *)
Definition same_scalars (s s' : State) : Prop :=
  _threshold_in s' = _threshold_in s
  /\ threshold_in s' = threshold_in s
  /\ lower s' = lower s
  /\ rcond s' = rcond s
  /\ onetime s' = onetime s
  /\ (dropped s' = dropped s \/ dropped s' = true).

(** The same data and fitter under another iteration order of sets. *)
Definition with_set_iter (E : Env) (order : list string -> list string)
    : Env :=
  {| columns := columns E; y := y E; coef_pvalue := coef_pvalue E;
     rsquared_of := rsquared_of E; set_iter := order;
     rvalue := rvalue E |}.

(** What the forward step records for a candidate (lines 49-51): the
    p-value of its coefficient and the r-value of the fit of Included and
    the candidate. *)
Definition forward_pvalue (E : Env) (incl : list string) (c : string)
    : float :=
  coef_pvalue E (incl ++ [c]) c.

Definition forward_rvalue (E : Env) (incl : list string) (c : string)
    : float :=
  rvalue E (rsquared_of E (incl ++ [c])).

(** ** The earlier selector (src/pstatmodel/stepwise/base_old.py)

    The earlier [stepwise_selection] keeps no tracks and has neither the
    one-time reset nor over-capacity handling; it starts from the
    caller's threshold.  [x ** 0.5] (line 74, on the unrounded
    coefficient of determination) is a parameter. *)

Module Old.

(** The local variables that live across passes. *)
Record State : Type := {
  included : list string;
  threshold_in : float;
  lower : bool
}.

Inductive Step : Type :=
| Continue (s : State)
| Return (r : Result).

Section Selector.

Variable E : Env.
Variable root : float -> float.
Variable threshold_out : float.
Variables max_vars min_vars : Z.

Local Open Scope py_scope.
Local Open Scope float_scope.

(** Lines 41-45: one fit per excluded column.
    [model.pvalues[new_column]] is one number, as it is when no other
    column of the table has that name. *)
Fixpoint forward_fits (incl excluded : list string) : M (list float) :=
  match excluded with
  | [] => ret []
  | new_column :: rest =>
      model <- OLS E (incl ++ [new_column]) ;;
      p <- expect (Series.get (pvalues model) new_column) KeyError ;;
      ps <- forward_fits incl rest ;;
      ret (p :: ps)
  end.

(** Lines 39-50: the forward step. *)
Definition forward (s : State) : M (State * bool) :=
  let excluded := set_iter E (set_difference (columns E) (included s)) in
  new_pval <- forward_fits (included s) excluded ;;
  let best_pval := Series.min new_pval in
  if best_pval <? threshold_in s then
    _ix <- expect (Series.argmin new_pval) ValueError ;;
    best_feature <- expect (nth_error excluded _ix) IndexError ;;
    ret ({| included := included s ++ [best_feature];
            threshold_in := threshold_in s; lower := lower s |}, true)
  else ret (s, false).

(** Lines 54-62: the backward step. *)
Definition backward (s : State) (changed : bool)
    : M (OLSResults * State * bool) :=
  model <- OLS E (included s) ;;
  let pvalues := tl (pvalues model) in
  let worst_pval := Series.max (map snd pvalues) in
  if gtb worst_pval threshold_out then
    i <- expect (Series.argmax (map snd pvalues)) ValueError ;;
    worst_feature <- expect (nth_error (map fst pvalues) i) IndexError ;;
    incl <- expect (remove worst_feature (included s)) ValueError ;;
    ret (model, {| included := incl; threshold_in := threshold_in s;
                   lower := lower s |}, true)
  else ret (model, s, changed).

Definition size (s : State) : Z := Z.of_nat (List.length (included s)).

(** Lines 66-71: the lowering restart. *)
Definition lowering (s : State) (changed : bool) : State * bool :=
  if (size s >? max_vars)%Z && neqb (threshold_in s) 0.01
     && negb (lower s) then
    ({| included := [];
        threshold_in := np_round2 (py_max2 0.01 (threshold_in s - 0.01));
        lower := lower s |}, true)
  else (s, changed).

(** Lines 73-77: the quality test. *)
Definition quality (s : State) (changed : bool) (model : OLSResults) : bool :=
  if (size s >=? min_vars)%Z && lower s then
    if gtb (root (rsquared model)) 0.9 then false else changed
  else changed.

(** Lines 79-88: the end of a pass. *)
Definition stall (s : State) (changed : bool) (model : OLSResults) : Step :=
  if negb changed then
    if (size s <? min_vars)%Z && neqb (threshold_in s) 0.1 then
      Continue {| included := [];
                  threshold_in :=
                    np_round2 (py_min2 0.1 (threshold_in s + 0.01));
                  lower := true |}
    else Return (included s, Fitted model, threshold_in s)
  else Continue s.

(** Lines 66-88: what follows the two steps of a pass. *)
Definition finish (s : State) (changed : bool) (model : OLSResults) : Step :=
  let '(s1, changed1) := lowering s changed in
  stall s1 (quality s1 changed1 model) model.

(** Lines 37-62: the two steps of a pass. *)
Definition steps (s : State) : M (OLSResults * State * bool) :=
  ' (s1, changed) <- forward s ;;
  backward s1 changed.

(** Lines 37-88: one pass of [while True]. *)
Definition pass (s : State) : M Step :=
  ' (model, s2, changed) <- steps s ;;
  ret (finish s2 changed model).

(** Line 36: [while True], for at most [passes] passes. *)
Fixpoint loop (passes : nat) (s : State) : M Result :=
  match passes with
  | O => out_of_fuel
  | S k =>
      step <- pass s ;;
      match step with
      | Continue s' => loop k s'
      | Return r => ret r
      end
  end.

(** Lines 29-30: the variables before the loop. *)
Definition init (initial_list : list string) (threshold_in : float) : State :=
  {| included := initial_list; threshold_in := threshold_in;
     lower := false |}.

End Selector.

(** The earlier [stepwise_selection(X, y, initial_list, threshold_in,
    threshold_out, verbose, max_vars, min_vars)]. *)
Definition stepwise_selection (E : Env) (root : float -> float) (fuel : nat)
    (initial_list : list string) (threshold_in threshold_out : float)
    (max_vars min_vars : Z) : M Result :=
  if existsb is_nan (y E) then ret ([], NotAModel nan, nan)
  else loop E root threshold_out max_vars min_vars fuel
         (init initial_list threshold_in).

End Old.

(** What the earlier selector keeps of a state of the later one. *)
Definition forget (s : State) : Old.State :=
  {| Old.included := included s; Old.threshold_in := threshold_in s;
     Old.lower := lower s |}.

(** The set of excluded columns is iterated over its own elements. *)
Definition iterates_elements (E : Env) : Prop :=
  forall l c, In c (set_iter E l) -> In c l.

(** A state whose Included has 1000 features. *)
Definition thousand (s : State) : State :=
  set_lists s (repeat "a"%string 1000) (included_pvals s) (included_rvals s).

(** Included names columns of the table, each at most once. *)
Definition distinct_columns (E : Env) (l : list string) : Prop :=
  NoDup l /\ forall c, In c l -> In c (columns E).

(** The state of an invocation whose caller passed the threshold [t]
    instead. *)
Definition called_with (t : float) (s : State) : State :=
  {| included := included s; included_pvals := included_pvals s;
     included_rvals := included_rvals s;
     _threshold_in := t; threshold_in := threshold_in s;
     lower := lower s; rcond := rcond s; dropped := dropped s;
     onetime := onetime s |}.

Definition step_called_with (t : float) (st : Step) : Step :=
  match st with
  | Continue s => Continue (called_with t s)
  | Return r => Return r
  end.

(** An outcome with its value mapped; exceptions and the log are kept. *)
Definition outcome_map {A B : Type} (f : A -> B) (x : res A * FitLog)
    : res B * FitLog :=
  match x with
  | (Ok a, log) => (Ok (f a), log)
  | (Raise e, log) => (Raise e, log)
  | (OutOfFuel, log) => (OutOfFuel, log)
  end.

(** [env_one] with at least one feature wanted, at a head after a
    raising restart. *)
Definition head_one_raised : State :=
  {| included := []; included_pvals := []; included_rvals := [];
     _threshold_in := 0.05; threshold_in := 0.05; lower := true;
     rcond := false; dropped := true; onetime := false |}.

(** The candidates of a pass that starts from an empty Included, in the
    order of the forward loop, and the least p-value among their
    single-feature fits. *)
Definition first_candidates (E : Env) : list string :=
  set_iter E (set_difference (columns E) []).

Definition best_single_pvalue (E : Env) : float :=
  Series.min (map (forward_pvalue E []) (first_candidates E)).

(** The head after the reset, with Included empty again. *)
Definition emptied (ti : float) : State :=
  {| included := []; included_pvals := []; included_rvals := [];
     _threshold_in := ti; threshold_in := ti; lower := false;
     rcond := false; dropped := true; onetime := false |}.

(** One candidate, significant at 0.05 and not at 0.02. *)
Definition env_weak : Env :=
  Examples.flat_env ["a"] [1; 2; 3]%float [("a", 0.03%float)]
    (fun _ => 0.25%float) (fun l => l).

(** A fit that is perfect on two features and poor on one, with one
    feature significant at 0.05 and not at 0.03; a head after a raising
    restart. *)
Definition env_pair : Env :=
  Examples.flat_env ["a"; "b"] [1; 2; 3]%float
    [("a", 0.001%float); ("b", 0.04%float)]
    (fun n => if (n <? 2)%nat then 0.25%float else 1%float) (fun l => l).

Definition head_pair : State :=
  {| included := ["a"]; included_pvals := [0.001%float];
     included_rvals := [0.5%float]; _threshold_in := 0.05%float;
     threshold_in := 0.05%float; lower := true; rcond := false;
     dropped := true; onetime := false |}.

(** A state of the later selector over a state of the earlier one, with
    tracks of zeros as long as Included. *)
Definition padded (s : Old.State) : State :=
  {| included := Old.included s;
     included_pvals := map (fun _ => 0%float) (Old.included s);
     included_rvals := map (fun _ => 0%float) (Old.included s);
     _threshold_in := Old.threshold_in s;
     threshold_in := Old.threshold_in s; lower := Old.lower s;
     rcond := false; dropped := false; onetime := true |}.

(** Lines 65-76: the backward step after its fit, on the model of line
    63, whatever p-value Series that model has. *)
Definition backward_on (threshold_out : float) (model : OLSResults)
    (s : State) (changed : bool) : M (State * bool) :=
  (let pvalues := tl (pvalues model) in
   let worst_pval := Series.max (map snd pvalues) in
   if gtb worst_pval threshold_out then
     i <- expect (Series.argmax (map snd pvalues)) ValueError ;;
     worst_feature <- expect (nth_error (map fst pvalues) i) IndexError ;;
     _idx <- expect (index worst_feature (included s)) ValueError ;;
     ps <- expect (pop _idx (included_pvals s)) IndexError ;;
     rs <- expect (pop _idx (included_rvals s)) IndexError ;;
     incl <- expect (remove worst_feature (included s)) ValueError ;;
     ret (set_lists (set_dropped s true) incl ps rs, true)
   else ret (s, changed))%py.

(** Five candidates that are all significant at 0.01; the fit on all five
    is perfect.  The head of the fifth pass with bounds of four features,
    and the state after the two steps of that pass. *)
Definition env_five_low : Env :=
  Examples.flat_env ["f1"; "f2"; "f3"; "f4"; "f5"] [1; 2; 3]%float
    [("f1", 0.001%float); ("f2", 0.002%float); ("f3", 0.003%float);
     ("f4", 0.004%float); ("f5", 0.005%float)]
    (fun n => if (n <? 5)%nat then 0.25%float else 1%float)
    (fun l => l).

Definition head_five_low : State :=
  {| included := ["f1"; "f2"; "f3"; "f4"];
     included_pvals := [0.001; 0.002; 0.003; 0.004]%float;
     included_rvals := [0.5; 0.5; 0.5; 0.5]%float;
     _threshold_in := 0.05%float; threshold_in := 0.1%float;
     lower := false; rcond := false; dropped := false; onetime := true |}.

Definition state_five_low : State :=
  {| included := ["f1"; "f2"; "f3"; "f4"; "f5"];
     included_pvals := [0.001; 0.002; 0.003; 0.004; 0.005]%float;
     included_rvals := [0.5; 0.5; 0.5; 0.5; 1]%float;
     _threshold_in := 0.05%float; threshold_in := 0.1%float;
     lower := false; rcond := false; dropped := false; onetime := true |}.

(** Three candidates: [b] is added first and dropped when [a] joins it;
    [c] is significant next to [a] at 0.1 only, and the fit on [a] and
    [c] is perfect; [b] is significant again next to [a] and [c]. *)
Definition fits_q : list (list string * (list (string * float) * float)) :=
  [ (["a"], ([("a", 0.095)], 0.25));
    (["b"], ([("b", 0.02)], 0.25));
    (["c"], ([("c", 0.5)], 0.25));
    (["b"; "a"], ([("b", 0.3); ("a", 0.01)], 0.25));
    (["b"; "c"], ([("b", 0.02); ("c", 0.5)], 0.25));
    (["a"; "b"], ([("a", 0.095); ("b", 0.5)], 0.25));
    (["a"; "c"], ([("a", 0.01); ("c", 0.095)], 1));
    (["a"; "c"; "b"], ([("a", 0.01); ("c", 0.05); ("b", 0.01)], 0.25)) ]%float.

Definition env_q : Env :=
  Examples.table_env ["a"; "b"; "c"] [1; 2; 3]%float fits_q (fun l => l).

(** * Properties *)

Import Examples.
Local Open Scope float_scope.
Local Open Scope py_scope.

(** ** Floats *)

Module FloatFacts.

(** No number is below NaN, and NaN is below no number. *)
Lemma ltb_nan_r (x : float) : (x <? nan) = false.
Proof.
  rewrite FloatAxioms.ltb_spec. unfold SFltb.
  change (Prim2SF nan) with S754_nan.
  destruct (Prim2SF x) as [ | | |]; reflexivity.
Qed.

Lemma ltb_nan_l (x : float) : (nan <? x) = false.
Proof.
  rewrite FloatAxioms.ltb_spec. unfold SFltb.
  change (Prim2SF nan) with S754_nan. reflexivity.
Qed.

Lemma SFcompare_Lt_swap (a b : spec_float) :
  SFcompare a b = Some Lt -> SFcompare b a = Some Gt.
Proof.
  destruct a as [sa|sa| |sa ma ea], b as [sb|sb| |sb mb eb];
    try destruct sa; try destruct sb; cbn; try congruence.
  - destruct (Z.compare_spec ea eb), (Z.compare_spec eb ea);
      try lia; try congruence.
    subst. rewrite !Pos.compare_cont_spec, (Pos.compare_antisym mb ma).
    cbn. destruct (Pos.compare mb ma); cbn; congruence.
  - destruct (Z.compare_spec ea eb), (Z.compare_spec eb ea);
      try lia; try congruence.
    subst. rewrite !Pos.compare_cont_spec, (Pos.compare_antisym mb ma).
    cbn. destruct (Pos.compare mb ma); cbn; congruence.
Qed.

(** [<] is asymmetric. *)
Lemma ltb_asym (x y : float) : (x <? y) = true -> (y <? x) = false.
Proof.
  rewrite !FloatAxioms.ltb_spec. unfold SFltb.
  destruct (SFcompare (Prim2SF x) (Prim2SF y)) as [[ | | ]|] eqn:H;
    try discriminate.
  intros _. rewrite (SFcompare_Lt_swap _ _ H). reflexivity.
Qed.

Lemma SFcompare_Lt_trans (a b c : spec_float) :
  SFcompare a b = Some Lt -> SFcompare b c = Some Lt ->
  SFcompare a c = Some Lt.
Proof.
  destruct a as [sa|sa| |sa ma ea], b as [sb|sb| |sb mb eb],
    c as [sc|sc| |sc mc ec];
    try destruct sa; try destruct sb; try destruct sc; cbn;
    try congruence;
    rewrite ?Pos.compare_cont_spec; cbn;
    destruct (Z.compare_spec ea eb), (Z.compare_spec eb ec),
      (Z.compare_spec ea ec); try lia; try congruence; subst;
    destruct (Pos.compare_spec ma mb), (Pos.compare_spec mb mc),
      (Pos.compare_spec ma mc); cbn; try lia; try congruence.
Qed.

Lemma SFcompare_Lt_cotrans (a b c : spec_float) :
  SFcompare a c = Some Lt -> b <> S754_nan ->
  SFcompare a b = Some Lt \/ SFcompare b c = Some Lt.
Proof.
  destruct a as [sa|sa| |sa ma ea], b as [sb|sb| |sb mb eb],
    c as [sc|sc| |sc mc ec];
    try destruct sa; try destruct sb; try destruct sc; cbn;
    try congruence; auto;
    rewrite ?Pos.compare_cont_spec; cbn;
    destruct (Z.compare_spec ea eb), (Z.compare_spec eb ec),
      (Z.compare_spec ea ec); try lia; try congruence; auto; subst;
    destruct (Pos.compare_spec ma mb), (Pos.compare_spec mb mc),
      (Pos.compare_spec ma mc); cbn; try lia; try congruence; auto.
Qed.

Lemma SFltb_Lt (a b : spec_float) :
  SFltb a b = true <-> SFcompare a b = Some Lt.
Proof.
  unfold SFltb. destruct (SFcompare a b) as [[ | | ]|];
    split; congruence.
Qed.

Lemma SFcompare_refl (a : spec_float) :
  a <> S754_nan -> SFcompare a a = Some Eq.
Proof.
  destruct a as [sa|sa| |sa ma ea]; cbn; try congruence.
  - destruct sa; reflexivity.
  - intros _. rewrite Z.compare_refl, Pos.compare_cont_refl.
    destruct sa; reflexivity.
Qed.

Lemma is_nan_true_SF (x : float) :
  is_nan x = true -> Prim2SF x = S754_nan.
Proof.
  unfold is_nan. rewrite FloatAxioms.eqb_spec. unfold SFeqb. intros H.
  destruct (Prim2SF x) as [sa|sa| |sa ma ea] eqn:E; try reflexivity;
    rewrite SFcompare_refl in H by discriminate; discriminate.
Qed.

(** No number is below a NaN. *)
Lemma ltb_is_nan_r (x y : float) : is_nan y = true -> (x <? y) = false.
Proof.
  intros H. rewrite FloatAxioms.ltb_spec, (is_nan_true_SF _ H).
  unfold SFltb. destruct (Prim2SF x); reflexivity.
Qed.

(** A NaN is below no number. *)
Lemma ltb_is_nan_l (x y : float) : is_nan x = true -> (x <? y) = false.
Proof.
  intros H. rewrite FloatAxioms.ltb_spec, (is_nan_true_SF _ H).
  reflexivity.
Qed.

Lemma is_nan_false_SF (x : float) :
  is_nan x = false -> Prim2SF x <> S754_nan.
Proof.
  unfold is_nan. rewrite FloatAxioms.eqb_spec. unfold SFeqb. intros H E.
  rewrite E in H. discriminate.
Qed.

(** [<] is transitive. *)
Lemma ltb_trans (x y z : float) :
  (x <? y) = true -> (y <? z) = true -> (x <? z) = true.
Proof.
  rewrite !FloatAxioms.ltb_spec, !SFltb_Lt. apply SFcompare_Lt_trans.
Qed.

(** A number lies above the smaller or below the greater of two numbers
    in order. *)
Lemma ltb_cotrans (x y z : float) :
  (x <? z) = true -> is_nan y = false ->
  (x <? y) = true \/ (y <? z) = true.
Proof.
  rewrite !FloatAxioms.ltb_spec, !SFltb_Lt. intros H Hy.
  apply SFcompare_Lt_cotrans; [exact H | apply is_nan_false_SF, Hy].
Qed.

End FloatFacts.

(** ** Computations *)

Lemma bind_Ok {A B : Type} (c : M A) (k : A -> M B) log b log' :
  bind c k log = (Ok b, log') ->
  exists a log1, c log = (Ok a, log1) /\ k a log1 = (Ok b, log').
Proof.
  unfold bind. destruct (c log) as [[a|e|] log1]; try discriminate.
  intros H. exists a, log1. split; [reflexivity | exact H].
Qed.

Lemma bind_run {A B : Type} (c : M A) (k : A -> M B) log a log1 :
  c log = (Ok a, log1) -> bind c k log = k a log1.
Proof. unfold bind. intros ->. reflexivity. Qed.

Lemma ret_Ok {A : Type} (a b : A) log log' :
  ret a log = (Ok b, log') -> a = b /\ log' = log.
Proof. unfold ret. intros H. inversion H. split; reflexivity. Qed.

Lemma expect_Ok {A : Type} (o : option A) e log a log' :
  expect o e log = (Ok a, log') -> o = Some a /\ log' = log.
Proof.
  destruct o as [x|]; cbn; intros H; inversion H. split; reflexivity.
Qed.

Lemma OLS_Ok E cols log m log' :
  OLS E cols log = (Ok m, log') ->
  forallb (fun c => mem c (columns E)) cols = true
  /\ m = fitted E cols /\ log' = (log ++ [cols])%list.
Proof.
  unfold OLS. destruct (forallb _ cols); intros H; inversion H.
  repeat split.
Qed.

Lemma OLS_run E cols log :
  forallb (fun c => mem c (columns E)) cols = true ->
  OLS E cols log = (Ok (fitted E cols), (log ++ [cols])%list).
Proof. unfold OLS. intros ->. reflexivity. Qed.

(** Takes a successful run apart, one bind at a time. *)
Ltac run_inv H :=
  repeat match type of H with
  | bind _ _ _ = (Ok _, _) =>
      let a := fresh "a" in let l := fresh "log" in
      let H1 := fresh "Hrun" in
      apply bind_Ok in H; destruct H as (a & l & H1 & H)
  | ret _ _ = (Ok _, _) =>
      apply ret_Ok in H; destruct H as [? ?]; subst
  end.

(** ** C2: a target with a missing value *)

(** C2. When the target holds a missing value, [stepwise_selection]
    returns the empty list with [np.nan] for the model and for the
    threshold, and the fit log is left as it was: no fit is performed. *)
Theorem nan_target_returns_sentinels
    (E : Env) (fuel : nat) (initial_list : list string)
    (threshold_in threshold_out : float) (max_vars min_vars : Z)
    (log : FitLog) :
  existsb is_nan (y E) = true ->
  stepwise_selection E fuel initial_list threshold_in threshold_out
    max_vars min_vars log
  = (Ok ([], NotAModel nan, nan), log).
Proof.
  intros Hnan. unfold stepwise_selection. rewrite Hnan. reflexivity.
Qed.

Lemma nan_target_returns_sentinels_witness :
  existsb is_nan (y env_nan) = true
  /\ stepwise_selection env_nan 5 ["a"] 0.05 0.1 12 4 []
     = (Ok ([], NotAModel nan, nan), []).
Proof.
  split; [reflexivity|].
  apply (nan_target_returns_sentinels env_nan 5 ["a"] 0.05 0.1 12 4 []).
  reflexivity.
Defined.

(** ** Series reductions *)

Section ArgFrom.

(** The order that decides a replacement: [<] for the minimum, [>] for
    the maximum. *)
Variable better : float -> float -> bool.
Hypothesis better_asym :
  forall x y, better x y = true -> better y x = false.
Hypothesis better_trans :
  forall x y z, better x y = true -> better y z = true -> better x z = true.
Hypothesis better_cotrans :
  forall x y z, better x z = true -> is_nan y = false ->
    better x y = true \/ better y z = true.

(** The result is the initial best or an entry of the list that is a
    number. *)
Lemma arg_from_found l : forall i best j v,
  Series.arg_from better i best l = Some (j, v) ->
  best = Some (j, v)
  \/ ((i <= j)%nat /\ nth_error l (j - i) = Some v /\ is_nan v = false).
Proof.
  induction l as [|x r IH]; intros i best j v H; cbn in H.
  - left. exact H.
  - assert (Hhere : forall b, Series.arg_from better (S i) (Some (i, x)) r
                               = Some (j, v) ->
                     is_nan x = false ->
                     b = Some (j, v)
                     \/ ((i <= j)%nat /\ nth_error (x :: r) (j - i) = Some v
                         /\ is_nan v = false)).
    { intros b Hr Hx. right. apply IH in Hr.
      destruct Hr as [Hr | (Hle & Hn & Hv)].
      - inversion Hr; subst. rewrite Nat.sub_diag. cbn. auto.
      - split; [lia|]. split; [|exact Hv].
        replace (j - i)%nat with (S (j - S i)) by lia. exact Hn. }
    assert (Hskip : forall b, Series.arg_from better (S i) b r = Some (j, v) ->
                     b = Some (j, v)
                     \/ ((i <= j)%nat /\ nth_error (x :: r) (j - i) = Some v
                         /\ is_nan v = false)).
    { intros b Hr. apply IH in Hr.
      destruct Hr as [Hr | (Hle & Hn & Hv)]; [left; exact Hr|].
      right. split; [lia|]. split; [|exact Hv].
      replace (j - i)%nat with (S (j - S i)) by lia. exact Hn. }
    destruct (is_nan x) eqn:Hx.
    + apply Hskip, H.
    + destruct best as [[jb b]|].
      * destruct (better x b); [apply Hhere | apply Hskip]; auto.
      * apply Hhere; auto.
Qed.

(** Without an initial best, the result is absent only when no entry is
    a number. *)
Lemma arg_from_Some_stays l : forall i jb b,
  Series.arg_from better i (Some (jb, b)) l <> None.
Proof.
  induction l as [|x r IH]; intros i jb b; cbn; [discriminate|].
  destruct (is_nan x); [apply IH|]. destruct (better x b); apply IH.
Qed.

Lemma arg_from_None l : forall i,
  Series.arg_from better i None l = None ->
  forall y, In y l -> is_nan y = true.
Proof.
  induction l as [|x r IH]; intros i H y Hy; [destruct Hy|].
  cbn in H. destruct (is_nan x) eqn:Hx.
  - destruct Hy as [<- | Hy]; [exact Hx | eapply IH; eauto].
  - exfalso. eapply arg_from_Some_stays, H.
Qed.

(** No entry is better than the result, and the result is the initial
    best or better than it. *)
Lemma arg_from_extremal l : forall i best j v,
  Series.arg_from better i best l = Some (j, v) ->
  (forall y, In y l -> is_nan y = false -> better y v = false)
  /\ (forall jb b, best = Some (jb, b) -> v = b \/ better v b = true).
Proof.
  induction l as [|x r IH]; intros i best j v H; cbn in H.
  - split; [intros y []|]. intros jb b Hb. rewrite Hb in H.
    inversion H. left; reflexivity.
  - assert (Hirr : forall z, better z z = false).
    { intros z. destruct (better z z) eqn:Hz; [|reflexivity].
      rewrite (better_asym _ _ Hz) in Hz. discriminate. }
    assert (Hx_v : forall b, v = b \/ better v b = true ->
                   (b = x \/ better x b = false) -> better x v = false).
    { intros b [-> | Hvb] [-> | Hxb]; auto.
      destruct (better x v) eqn:Hxv; [|reflexivity].
      rewrite (better_trans _ _ _ Hxv Hvb) in Hxb. discriminate. }
    destruct (is_nan x) eqn:Hx.
    + destruct (IH _ _ _ _ H) as [Hall Hbest]. split; [|exact Hbest].
      intros y [<- | Hy] Hn; [congruence | auto].
    + destruct best as [[jb b]|].
      * destruct (better x b) eqn:Hxb;
          destruct (IH _ _ _ _ H) as [Hall Hbest].
        -- specialize (Hbest _ _ eq_refl). split.
           ++ intros y [<- | Hy] Hn; [|auto].
              apply (Hx_v x); auto.
           ++ intros jb' b' Hb. inversion Hb; subst. right.
              destruct Hbest as [-> | Hvx]; [exact Hxb|].
              eapply better_trans; eauto.
        -- split; [|exact Hbest].
           intros y [<- | Hy] Hn; [|auto].
           apply (Hx_v b); [apply (Hbest jb b eq_refl) | right; exact Hxb].
      * destruct (IH _ _ _ _ H) as [Hall Hbest].
        specialize (Hbest _ _ eq_refl). split; [|intros ? ? [=]].
        intros y [<- | Hy] Hn; [|auto]. apply (Hx_v x); auto.
Qed.

(** The result is better than every number before its position. *)
Lemma arg_from_first l : forall i best j v,
  (forall jb b, best = Some (jb, b) -> (jb < i)%nat) ->
  Series.arg_from better i best l = Some (j, v) ->
  (forall jb b, best = Some (jb, b) ->
     (j, v) = (jb, b) \/ ((i <= j)%nat /\ better v b = true))
  /\ (forall k y, (i + k < j)%nat -> nth_error l k = Some y ->
        is_nan y = false -> better v y = true).
Proof.
  induction l as [|x r IH]; intros i best j v Hlt H; cbn in H.
  - split.
    + intros jb b Hb. left. congruence.
    + intros k y _ Hk. destruct k; discriminate.
  - assert (Htail :
              (forall k y, (S i + k < j)%nat -> nth_error r k = Some y ->
                 is_nan y = false -> better v y = true) ->
              ((i < j)%nat -> is_nan x = false -> better v x = true) ->
              forall k y, (i + k < j)%nat -> nth_error (x :: r) k = Some y ->
                is_nan y = false -> better v y = true).
    { intros Hr Hx0 k y Hk Hn Hy. destruct k as [|k]; cbn in Hn.
      - inversion Hn; subst. apply Hx0; [lia | exact Hy].
      - apply (Hr k y); [lia | exact Hn | exact Hy]. }
    destruct (is_nan x) eqn:Hx.
    + assert (Hlt' : forall jb b, best = Some (jb, b) -> (jb < S i)%nat)
        by (intros jb0 b0 Hb0; specialize (Hlt _ _ Hb0); lia).
      destruct (IH (S i) best j v Hlt' H) as [Hb Hr].
      split.
      * intros jb b Hbest. destruct (Hb _ _ Hbest) as [He | [Hle Hv]];
          [left; exact He | right; split; [lia | exact Hv]].
      * apply (Htail Hr). intros _ Hc. discriminate.
    + destruct best as [[jb b]|].
      * destruct (better x b) eqn:Hxb.
        -- assert (Hlt' : forall jb0 b0, Some (i, x) = Some (jb0, b0) ->
                              (jb0 < S i)%nat)
             by (intros jb0 b0 [=]; lia).
           destruct (IH (S i) (Some (i, x)) j v Hlt' H) as [Hb Hr].
           specialize (Hb _ _ eq_refl). split.
           ++ intros jb' b' Hbest. inversion Hbest; subst. right.
              destruct Hb as [He | [Hle Hv]].
              ** inversion He; subst. split; [lia | exact Hxb].
              ** split; [lia | eapply better_trans; eauto].
           ++ apply (Htail Hr). intros Hij _.
              destruct Hb as [He | [Hle Hv]]; [inversion He; lia | exact Hv].
        -- assert (Hlt' : forall jb0 b0, Some (jb, b) = Some (jb0, b0) ->
                              (jb0 < S i)%nat)
             by (intros jb0 b0 [=]; subst; specialize (Hlt _ _ eq_refl); lia).
           destruct (IH (S i) (Some (jb, b)) j v Hlt' H) as [Hb Hr].
           specialize (Hb _ _ eq_refl). split.
           ++ intros jb' b' Hbest. inversion Hbest; subst.
              destruct Hb as [He | [Hle Hv]];
                [left; exact He | right; split; [lia | exact Hv]].
           ++ apply (Htail Hr). intros Hij _.
              destruct Hb as [He | [Hle Hv]].
              ** inversion He; subst. specialize (Hlt _ _ eq_refl). lia.
              ** destruct (better_cotrans _ x _ Hv Hx) as [Hvx | Hxb'];
                   [exact Hvx | congruence].
      * assert (Hlt' : forall jb0 b0, Some (i, x) = Some (jb0, b0) ->
                            (jb0 < S i)%nat)
          by (intros jb0 b0 [=]; lia).
        destruct (IH (S i) (Some (i, x)) j v Hlt' H) as [Hb Hr].
        specialize (Hb _ _ eq_refl). split; [intros ? ? [=]|].
        apply (Htail Hr). intros Hij _.
        destruct Hb as [He | [Hle Hv]]; [inversion He; lia | exact Hv].
Qed.

End ArgFrom.

Lemma gtb_asym x y : gtb x y = true -> gtb y x = false.
Proof. unfold gtb. apply FloatFacts.ltb_asym. Qed.

Lemma gtb_trans x y z : gtb x y = true -> gtb y z = true -> gtb x z = true.
Proof. unfold gtb. intros H1 H2. eapply FloatFacts.ltb_trans; eauto. Qed.

Lemma gtb_cotrans x y z :
  gtb x z = true -> is_nan y = false -> gtb x y = true \/ gtb y z = true.
Proof.
  unfold gtb. intros H Hy.
  destruct (FloatFacts.ltb_cotrans _ y _ H Hy); auto.
Qed.

Lemma ltb_cotrans' x y z :
  (x <? z) = true -> is_nan y = false -> (x <? y) = true \/ (y <? z) = true.
Proof. apply FloatFacts.ltb_cotrans. Qed.

(** [s.min()] and [s.argmin()] when the minimum is below a bound: the
    minimum is the entry at the position [argmin] gives, no entry is
    below it, and it is below every number before that position. *)
Lemma series_min_below (l : list float) (t : float) :
  (Series.min l <? t) = true ->
  exists i,
    Series.argmin l = Some i
    /\ nth_error l i = Some (Series.min l)
    /\ is_nan (Series.min l) = false
    /\ (forall y, In y l -> is_nan y = false -> (y <? Series.min l) = false)
    /\ (forall k y, (k < i)%nat -> nth_error l k = Some y ->
          is_nan y = false -> (Series.min l <? y) = true).
Proof.
  unfold Series.min, Series.argmin.
  destruct (Series.arg_from PrimFloat.ltb 0 None l) as [[i v]|] eqn:H; cbn.
  - intros _. exists i. split; [reflexivity|].
    destruct (arg_from_found _ _ _ _ _ _ H) as [Hb | (_ & Hn & Hv)];
      [discriminate|].
    rewrite Nat.sub_0_r in Hn. split; [exact Hn|]. split; [exact Hv|].
    split.
    + apply (arg_from_extremal _ FloatFacts.ltb_asym FloatFacts.ltb_trans
               _ _ _ _ _ H).
    + assert (Hnone : forall jb b, @None (nat * float) = Some (jb, b) ->
                        (jb < 0)%nat) by (intros ? ? Hc; discriminate Hc).
      apply (arg_from_first _ FloatFacts.ltb_trans ltb_cotrans'
               _ _ _ _ _ Hnone H).
  - rewrite FloatFacts.ltb_nan_l. discriminate.
Qed.

(** [s.max()] and [s.argmax()] when the maximum is above a bound. *)
Lemma series_max_above (l : list float) (t : float) :
  gtb (Series.max l) t = true ->
  exists i,
    Series.argmax l = Some i
    /\ nth_error l i = Some (Series.max l)
    /\ is_nan (Series.max l) = false
    /\ (forall y, In y l -> is_nan y = false -> gtb y (Series.max l) = false)
    /\ (forall k y, (k < i)%nat -> nth_error l k = Some y ->
          is_nan y = false -> gtb (Series.max l) y = true).
Proof.
  unfold Series.max, Series.argmax.
  destruct (Series.arg_from gtb 0 None l) as [[i v]|] eqn:H; cbn.
  - intros _. exists i. split; [reflexivity|].
    destruct (arg_from_found _ _ _ _ _ _ H) as [Hb | (_ & Hn & Hv)];
      [discriminate|].
    rewrite Nat.sub_0_r in Hn. split; [exact Hn|]. split; [exact Hv|].
    split.
    + apply (arg_from_extremal _ gtb_asym gtb_trans _ _ _ _ _ H).
    + assert (Hnone : forall jb b, @None (nat * float) = Some (jb, b) ->
                        (jb < 0)%nat) by (intros ? ? Hc; discriminate Hc).
      apply (arg_from_first _ gtb_trans gtb_cotrans _ _ _ _ _ Hnone H).
  - unfold gtb. rewrite FloatFacts.ltb_nan_r. discriminate.
Qed.

(** ** Python lists *)

Lemma index_nth (x : string) (l : list string) : forall i,
  index x l = Some i -> nth_error l i = Some x.
Proof.
  induction l as [|h t IH]; intros i H; cbn in H; [discriminate|].
  destruct (String.eqb_spec h x) as [-> | Hne].
  - inversion H. reflexivity.
  - destruct (index x t) as [j|]; [|discriminate]. inversion H.
    cbn. apply IH. reflexivity.
Qed.

Lemma index_In (x : string) (l : list string) :
  In x l -> exists i, index x l = Some i.
Proof.
  induction l as [|h t IH]; intros H; [destruct H|]. cbn.
  destruct (String.eqb_spec h x) as [-> | Hne]; [eauto|].
  destruct H as [H | H]; [congruence|].
  destruct (IH H) as [i ->]. cbn. eauto.
Qed.

(** [l.remove(x)] removes the position [l.index(x)] gives. *)
Lemma remove_is_pop (x : string) (l : list string) : forall i,
  index x l = Some i -> remove x l = pop i l.
Proof.
  induction l as [|h t IH]; intros i H; cbn in H; [discriminate|]. cbn.
  destruct (String.eqb h x); [inversion H; reflexivity|].
  destruct (index x t) as [j|]; [|discriminate]. inversion H. cbn.
  rewrite (IH j eq_refl). reflexivity.
Qed.

Lemma pop_in_range {A : Type} (l : list A) : forall i,
  (i < List.length l)%nat ->
  exists l', pop i l = Some l' /\ List.length l = S (List.length l').
Proof.
  induction l as [|h t IH]; intros i H; cbn in H; [lia|].
  destruct i as [|i]; cbn.
  - eauto.
  - destruct (IH i) as (l' & -> & Hl); [lia|]. cbn. eauto.
Qed.

Lemma pop_length {A : Type} (l : list A) : forall i l',
  pop i l = Some l' -> List.length l = S (List.length l').
Proof.
  induction l as [|h t IH]; intros i l' H; [destruct i; discriminate|].
  destruct i as [|i]; cbn in H.
  - inversion H. reflexivity.
  - destruct (pop i t) as [t'|] eqn:Ht; [|discriminate]. inversion H.
    cbn. f_equal. eapply IH; eauto.
Qed.

(** ** The fitter *)

Lemma fitted_labels E cols : map fst (tl (pvalues (fitted E cols))) = cols.
Proof. cbn. rewrite map_map. cbn. apply map_id. Qed.

Lemma fitted_values E cols :
  map snd (tl (pvalues (fitted E cols))) = coef_pvalues E cols.
Proof. cbn. rewrite map_map. reflexivity. Qed.

(** ** C8: the backward step *)

(** C8 fails on a call with a non-empty [initial_list]: lines 30-31
    start both tracks empty whatever [initial_list] is.  On [env_one]
    called with [initial_list = ["a"]] the first backward step fits the
    model on [a], finds the p-value 0.5 above [threshold_out] and ends in
    the IndexError of [included_pvals.pop] (line 72), after that one fit:
    nothing is removed from Included or from the tracks. *)
Lemma backward_step_pops_empty_track :
  gtb (coef_pvalue env_one ["a"] "a") 0.1 = true
  /\ backward env_one 0.1 (init ["a"] 0.05) false []
     = (Raise IndexError, [["a"]])
  /\ stepwise_selection env_one 5 ["a"] 0.05 0.1 5 0 []
     = (Raise IndexError, [["a"]]).
Proof. repeat split; vm_compute; reflexivity. Qed.

(** Where the tracks are as long as Included, as in every invocation from
    an empty [initial_list], and the Included features are columns of the
    table, the backward step does what it is meant to: one model is
    fitted on the Included set and an intercept.  When the maximum
    p-value of the coefficients other than the intercept is not above
    [threshold_out], nothing else changes.  When it is above, the feature
    that attains it (no coefficient has a greater p-value) is removed:
    the position [included.index] gives for it is removed from Included
    and from both tracks, and [changed] and [dropped] are set. *)
Theorem backward_step_drops_worst
    (E : Env) (threshold_out : float) (s : State) (changed : bool)
    (log : FitLog) :
  known E (included s) = true ->
  aligned s ->
  exists s' changed',
    backward E threshold_out s changed log
    = (Ok (fitted E (included s), s', changed'),
       (log ++ [included s])%list)
    /\ (gtb (Series.max (coef_pvalues E (included s))) threshold_out = false
        -> s' = s /\ changed' = changed)
    /\ (gtb (Series.max (coef_pvalues E (included s))) threshold_out = true
        -> exists worst_feature _idx,
             In worst_feature (included s)
             /\ coef_pvalue E (included s) worst_feature
                = Series.max (coef_pvalues E (included s))
             /\ (forall c, In c (included s) ->
                   gtb (coef_pvalue E (included s) c)
                     (coef_pvalue E (included s) worst_feature) = false)
             /\ index worst_feature (included s) = Some _idx
             /\ pop _idx (included s) = Some (included s')
             /\ pop _idx (included_pvals s) = Some (included_pvals s')
             /\ pop _idx (included_rvals s) = Some (included_rvals s')
             /\ changed' = true
             /\ dropped s' = true
             /\ threshold_in s' = threshold_in s).
Proof.
  intros Hcols [Hp Hr]. unfold backward.
  rewrite (bind_run _ _ _ _ _ (OLS_run E _ log Hcols)).
  rewrite fitted_values, fitted_labels.
  destruct (gtb (Series.max (coef_pvalues E (included s))) threshold_out)
    eqn:Hgt.
  - destruct (series_max_above _ _ Hgt) as (i & Harg & Hnth & Hnan & Hmax & _).
    assert (Hi : (i < List.length (included s))%nat).
    { apply nth_error_Some. unfold coef_pvalues in Hnth.
      intros Hnone. rewrite nth_error_map, Hnone in Hnth. discriminate. }
    destruct (nth_error (included s) i) as [f|] eqn:Hf;
      [|apply nth_error_None in Hf; lia].
    assert (Hpf : coef_pvalue E (included s) f
                  = Series.max (coef_pvalues E (included s))).
    { unfold coef_pvalues in Hnth. rewrite nth_error_map, Hf in Hnth.
      cbn [option_map] in Hnth. injection Hnth as Heq. exact Heq. }
    destruct (index_In f (included s) (nth_error_In _ _ Hf)) as [k Hk].
    assert (Hklt : (k < List.length (included s))%nat).
    { apply nth_error_Some. rewrite (index_nth _ _ _ Hk). discriminate. }
    destruct (pop_in_range (included s) k Hklt) as (incl & Hincl & _).
    destruct (pop_in_range (included_pvals s) k ltac:(lia)) as (pv & Hpv & _).
    destruct (pop_in_range (included_rvals s) k ltac:(lia)) as (rv & Hrv & _).
    exists (set_lists (set_dropped s true) incl pv rv), true.
    split.
    + rewrite Harg. cbn. unfold bind at 1. cbn. rewrite Hf. cbn.
      unfold bind at 1. cbn. rewrite Hk. cbn. unfold bind at 1. cbn.
      rewrite Hpv. cbn. unfold bind at 1. cbn. rewrite Hrv. cbn.
      unfold bind at 1. cbn. rewrite (remove_is_pop _ _ _ Hk), Hincl.
      reflexivity.
    + split; [discriminate|]. intros _. exists f, k.
      repeat split; auto.
      * eapply nth_error_In; eauto.
      * intros c Hc. rewrite Hpf.
        destruct (is_nan (coef_pvalue E (included s) c)) eqn:Hcn.
        -- unfold gtb. apply FloatFacts.ltb_is_nan_r, Hcn.
        -- apply Hmax; [|exact Hcn]. unfold coef_pvalues.
           apply in_map, Hc.
  - exists s, changed. split; [reflexivity|].
    split; [auto | discriminate].
Qed.

Lemma backward_step_drops_worst_witness :
  known env_abc (included state_ab) = true
  /\ aligned state_ab
  /\ exists s',
       backward env_abc 0.1 state_ab true []
       = (Ok (fitted env_abc ["a"; "b"], s', true), [["a"; "b"]])
       /\ dropped s' = true.
Proof.
  assert (Hk : known env_abc (included state_ab) = true) by reflexivity.
  assert (Ha : aligned state_ab) by (split; reflexivity).
  split; [exact Hk|]. split; [exact Ha|].
  destruct (backward_step_drops_worst env_abc 0.1 state_ab true [] Hk Ha)
    as (s' & changed' & Hrun & _ & Hdrop).
  destruct (Hdrop eq_refl)
    as (f & k & _ & _ & _ & _ & _ & _ & _ & Hch & Hd & _).
  exists s'. subst changed'. split; [exact Hrun | exact Hd].
Defined.

(** The step on the example: [a], with p-value 0.3, leaves Included and
    both tracks. *)
Example backward_step_example :
  backward env_abc 0.1 state_ab true []
  = (Ok (fitted env_abc ["a"; "b"],
         set_lists (set_dropped state_ab true) ["b"] [0.02] [0.5], true),
     [["a"; "b"]]).
Proof. reflexivity. Qed.

(** ** Masks *)

(** The first position a selection of the failing positions keeps: it
    fails, and every selected position before it passes. *)
Lemma where_false_first (P : nat -> bool) (mask : list bool) :
  forall i0 k rest,
  filter P (where_false_from i0 mask) = k :: rest ->
  (i0 <= k)%nat /\ P k = true /\ nth_error mask (k - i0) = Some false
  /\ (forall j, (i0 <= j < k)%nat -> P j = true ->
        nth_error mask (j - i0) = Some true).
Proof.
  induction mask as [|b r IH]; intros i0 k rest H; cbn in H;
    [discriminate|].
  assert (Hrec : filter P (where_false_from (S i0) r) = k :: rest ->
                 (b = true \/ P i0 = false) ->
                 (i0 <= k)%nat /\ P k = true
                 /\ nth_error (b :: r) (k - i0) = Some false
                 /\ (forall j, (i0 <= j < k)%nat -> P j = true ->
                       nth_error (b :: r) (j - i0) = Some true)).
  { intros Hr Hb. destruct (IH _ _ _ Hr) as (Hle & HP & Hk & Hbefore).
    split; [lia|]. split; [exact HP|]. split.
    - replace (k - i0)%nat with (S (k - S i0)) by lia. exact Hk.
    - intros j Hj HPj. destruct (Nat.eq_dec j i0) as [-> | Hne].
      + rewrite Nat.sub_diag. cbn.
        destruct Hb as [-> | Hb]; [reflexivity | congruence].
      + replace (j - i0)%nat with (S (j - S i0)) by lia.
        apply Hbefore; [lia | exact HPj]. }
  destruct b.
  - apply Hrec; auto.
  - cbn in H. destruct (P i0) eqn:HP0.
    + inversion H; subst. rewrite Nat.sub_diag. cbn.
      repeat split; auto. intros j Hj. lia.
    + apply Hrec; auto.
Qed.

(** When the selection is empty, every selected position passes. *)
Lemma where_false_none (P : nat -> bool) (mask : list bool) :
  forall i0, filter P (where_false_from i0 mask) = [] ->
  forall j b, nth_error mask j = Some b -> P (i0 + j)%nat = true -> b = true.
Proof.
  induction mask as [|b r IH]; intros i0 H j c Hj HP.
  - destruct j; discriminate.
  - cbn in H. destruct j as [|j]; cbn in Hj.
    + inversion Hj; subst. destruct c; [reflexivity|].
      cbn in H. rewrite Nat.add_0_r in HP. rewrite HP in H. discriminate.
    + apply (IH (S i0)) with (j := j); auto.
      * destruct b; [exact H|]. cbn in H.
        destruct (P i0); [discriminate | exact H].
      * replace (S i0 + j)%nat with (i0 + S j)%nat by lia. exact HP.
Qed.

Lemma filter_all {A : Type} (l : list A) : filter (fun _ => true) l = l.
Proof. induction l as [|a l IH]; cbn; [|rewrite IH]; reflexivity. Qed.

Lemma mask_sum_cons (b : bool) (r : list bool) :
  mask_sum (b :: r) = ((if b then 1 else 0) + mask_sum r)%Z.
Proof. unfold mask_sum. destruct b; cbn [filter List.length]; lia. Qed.

Lemma where_false_from_head (mask : list bool) : forall i0 k rest,
  where_false_from i0 mask = k :: rest ->
  k = (i0 + passing_prefix mask)%nat
  /\ mask_sum (firstn (k - i0) mask) = Z.of_nat (passing_prefix mask)
  /\ has_false mask = true.
Proof.
  induction mask as [|b r IH]; intros i0 k rest H; cbn in H;
    [discriminate|].
  destruct b.
  - destruct (IH _ _ _ H) as (Hk & Hsum & Hf). cbn [passing_prefix].
    split; [lia|]. split; [|exact Hf].
    replace (k - i0)%nat with (S (k - S i0)) by lia.
    cbn [firstn]. rewrite mask_sum_cons, Hsum. lia.
  - inversion H; subst. cbn [passing_prefix]. rewrite Nat.sub_diag.
    split; [lia|]. split; reflexivity.
Qed.

Lemma where_false_from_nil (mask : list bool) : forall i0,
  where_false_from i0 mask = [] ->
  passing_prefix mask = List.length mask
  /\ mask_sum mask = Z.of_nat (List.length mask)
  /\ has_false mask = false.
Proof.
  induction mask as [|b r IH]; intros i0 H; cbn in H.
  - repeat split.
  - destruct b; [|discriminate]. destruct (IH _ H) as (Hp & Hs & Hf).
    cbn [passing_prefix List.length]. rewrite mask_sum_cons, Hs.
    split; [lia|]. split; [lia | exact Hf].
Qed.

(** Lines 93-96 count the passing entries before the first failing
    one. *)
Lemma prefix_size_spec (mask : list bool) :
  prefix_size mask = Z.of_nat (passing_prefix mask).
Proof.
  unfold prefix_size, where_false.
  destruct (where_false_from 0 mask) as [|k rest] eqn:H.
  - destruct (where_false_from_nil _ _ H) as (Hp & Hs & Hf).
    rewrite Hf, Hs, Hp. reflexivity.
  - destruct (where_false_from_head _ _ _ _ H) as (Hk & Hs & Hf).
    rewrite Hf. rewrite Nat.sub_0_r in Hs. exact Hs.
Qed.

Lemma passing_prefix_le (mask : list bool) :
  (passing_prefix mask <= List.length mask)%nat.
Proof.
  induction mask as [|[|] r IH]; cbn; lia.
Qed.

(** The entries counted pass, and the next one, if any, fails. *)
Lemma passing_prefix_spec (mask : list bool) :
  (forall j, (j < passing_prefix mask)%nat -> nth_error mask j = Some true)
  /\ ((passing_prefix mask < List.length mask)%nat ->
      nth_error mask (passing_prefix mask) = Some false).
Proof.
  induction mask as [|[|] r [IH1 IH2]]; cbn.
  - split; intros; lia.
  - split.
    + intros [|j] Hj; cbn; [reflexivity | apply IH1; lia].
    + intros H. apply IH2. lia.
  - split; [intros; lia | reflexivity].
Qed.

(** ** The inclusion thresholds *)

Lemma grid_literals :
  grid = [0.01; 0.02; 0.03; 0.04; 0.05; 0.06; 0.07; 0.08; 0.09; 0.1].
Proof. reflexivity. Qed.

Lemma on_grid_cent (t : float) :
  on_grid t <-> exists k, (1 <= k <= 10)%nat /\ t = cent (Z.of_nat k).
Proof.
  unfold on_grid, grid. rewrite in_map_iff. split.
  - intros (k & <- & Hk). apply in_seq in Hk. exists k. split; [lia|auto].
  - intros (k & Hk & ->). exists k. split; [reflexivity|].
    apply in_seq. lia.
Qed.

(** Case analysis on an index between 1 and 10. *)
Ltac grid_cases :=
  let k := fresh "k" in
  let H := fresh "H" in
  intros k H;
  do 11 (destruct k as [|k];
         [try lia; try reflexivity; repeat split|]); try lia.

Lemma lowered_cent (k : nat) :
  (1 <= k <= 10)%nat ->
  lowered (cent (Z.of_nat k)) = cent (Z.of_nat (Nat.max 1 (k - 1))).
Proof. revert k. grid_cases. Qed.

Lemma raised_cent (k : nat) :
  (1 <= k <= 10)%nat ->
  raised (cent (Z.of_nat k)) = cent (Z.of_nat (Nat.min 10 (k + 1))).
Proof. revert k. grid_cases. Qed.

Lemma cent_is_floor (k : nat) :
  (1 <= k <= 10)%nat -> (cent (Z.of_nat k) =? 0.01) = (k =? 1)%nat.
Proof. revert k. grid_cases. Qed.

Lemma cent_is_ceiling (k : nat) :
  (1 <= k <= 10)%nat -> (cent (Z.of_nat k) =? 0.1) = (k =? 10)%nat.
Proof. revert k. grid_cases. Qed.

Lemma cent_lowered_le (k : nat) :
  (1 <= k <= 10)%nat ->
  (cent (Z.of_nat (Nat.max 1 (k - 1))) <=? cent (Z.of_nat k)) = true.
Proof. revert k. grid_cases. Qed.

Lemma cent_bounds (k : nat) :
  (1 <= k <= 10)%nat ->
  (0.01 <=? cent (Z.of_nat k)) = true /\ (cent (Z.of_nat k) <=? 0.1) = true
  /\ np_round2 (cent (Z.of_nat k)) = cent (Z.of_nat k).
Proof. revert k. grid_cases. Qed.

Lemma lowered_on_grid (t : float) : on_grid t -> on_grid (lowered t).
Proof.
  rewrite !on_grid_cent. intros (k & Hk & ->).
  exists (Nat.max 1 (k - 1)). split; [lia | apply lowered_cent, Hk].
Qed.

Lemma raised_on_grid (t : float) : on_grid t -> on_grid (raised t).
Proof.
  rewrite !on_grid_cent. intros (k & Hk & ->).
  exists (Nat.min 10 (k + 1)). split; [lia | apply raised_cent, Hk].
Qed.

Lemma lowered_le (t : float) : on_grid t -> (lowered t <=? t) = true.
Proof.
  rewrite on_grid_cent. intros (k & Hk & ->).
  rewrite lowered_cent by exact Hk. apply cent_lowered_le, Hk.
Qed.

Lemma lowerings_on_grid (n : nat) : forall t,
  on_grid t -> Forall on_grid (lowerings n t).
Proof.
  induction n as [|n IH]; intros t Ht; cbn; constructor.
  - apply lowered_on_grid, Ht.
  - apply IH, lowered_on_grid, Ht.
Qed.

(** From a threshold of the grid, the lowered values never increase. *)
Lemma lowerings_non_increasing (n : nat) : forall t,
  on_grid t -> non_increasing (t :: lowerings n t) = true.
Proof.
  induction n as [|n IH]; intros t Ht; [reflexivity|].
  cbn [lowerings]. change (non_increasing (t :: lowered t :: ?r))
    with ((lowered t <=? t) && non_increasing (lowered t :: r)).
  rewrite (lowered_le _ Ht). cbn [andb]. apply IH, lowered_on_grid, Ht.
Qed.

(** ** The tightening loop *)

Section Tightening.

Variables max_vars min_vars : Z.
Variables pvals rvals : list float.

Local Abbreviation body := (tighten_body max_vars min_vars pvals rvals).
Local Abbreviation runs := (tightens max_vars min_vars pvals rvals).
Local Abbreviation pmask := (pmask pvals).
Local Abbreviation rmask := (rmask rvals).
Local Abbreviation psize_at := (psize_at pvals).
Local Abbreviation ends_after :=
  (ends_after max_vars min_vars pvals rvals).

(** What a [continue] leaves behind. *)
Lemma body_continue (w w1 : Tighten) :
  body w = inl w1 ->
  w_threshold_in w1 = lowered (w_threshold_in w)
  /\ (w_threshold_in w1 =? 0.01) = false
  /\ w_rcond w1 = w_rcond w
  /\ w_history w1 = (w_history w ++ [lowered (w_threshold_in w)])%list
  /\ w_mask w1 = Some (pmask (w_threshold_in w1))
  /\ tighten_test max_vars w1 = true.
Proof.
  unfold tighten_body.
  change (np_round2 (py_max2 0.01 (w_threshold_in w - 0.01)))
    with (lowered (w_threshold_in w)).
  set (t1 := lowered (w_threshold_in w)).
  change (map (fun p => p <? t1) pvals) with (pmask t1).
  set (psize := prefix_size (pmask t1)).
  set (psize_next := prefix_size _).
  destruct ((psize =? psize_next)%Z && neqb t1 0.01 && negb (psize =? 0)%Z
            && (psize >=? min_vars)%Z) eqn:Hidem.
  - intros [= <-]. cbn. unfold tighten_test. cbn.
    apply andb_prop in Hidem. destruct Hidem as [Hidem _].
    apply andb_prop in Hidem. destruct Hidem as [Hidem _].
    apply andb_prop in Hidem. destruct Hidem as [_ Hne].
    unfold neqb in Hne. apply negb_true_iff in Hne.
    rewrite orb_true_r. repeat split; auto.
  - destruct ((psize >=? min_vars)%Z && (psize <=? max_vars)%Z) eqn:Hin;
      [discriminate|].
    destruct ((psize <? min_vars)%Z || ((t1 =? 0.1) || (t1 =? 0.01)))
      eqn:Hq.
    + destruct (negb (psize =? 13)%Z); discriminate.
    + intros [= <-]. cbn. unfold tighten_test. cbn.
      apply orb_false_elim in Hq. destruct Hq as [Hlt Hq].
      apply orb_false_elim in Hq. destruct Hq as [_ Hne].
      assert (Hgt : (psize >? max_vars)%Z = true).
      { apply Z.gtb_lt. apply Z.ltb_ge in Hlt.
        apply andb_false_iff in Hin. destruct Hin as [Hin | Hin].
        - rewrite Z.geb_leb in Hin. apply Z.leb_gt in Hin. lia.
        - apply Z.leb_gt in Hin. lia. }
      rewrite Hgt. repeat split; auto.
Qed.

(** What a [break] leaves behind: either the prefix count is within the
    bounds, or the exit is the one that sets [rcond]. *)
Lemma body_break (w w' : Tighten) :
  body w = inr w' ->
  let t1 := lowered (w_threshold_in w) in
  ((min_vars <= psize_at t1 <= max_vars)%Z
   /\ w_rcond w' = w_rcond w
   /\ w_threshold_in w' = t1
   /\ w_mask w' = Some (pmask t1)
   /\ w_history w' = (w_history w ++ [t1])%list)
  \/ (~ (min_vars <= psize_at t1 <= max_vars)%Z
      /\ ((psize_at t1 < min_vars)%Z
          \/ (t1 =? 0.1) = true \/ (t1 =? 0.01) = true)
      /\ w_rcond w' = true
      /\ w_mask w' = Some rmask
      /\ ((psize_at t1 <> 13%Z
           /\ w_threshold_in w' = raised t1
           /\ w_history w' = (w_history w ++ [t1; raised t1])%list)
          \/ (psize_at t1 = 13%Z
              /\ w_threshold_in w' = t1
              /\ w_history w' = (w_history w ++ [t1])%list))).
Proof.
  unfold tighten_body, psize_at.
  change (np_round2 (py_max2 0.01 (w_threshold_in w - 0.01)))
    with (lowered (w_threshold_in w)).
  set (t1 := lowered (w_threshold_in w)).
  change (map (fun p => p <? t1) pvals) with (pmask t1).
  change (map (fun r => r <? 0.9) rvals) with rmask.
  change (np_round2 (py_min2 0.1 (t1 + 0.01))) with (raised t1).
  set (psize := prefix_size (pmask t1)).
  set (psize_next := prefix_size _).
  destruct ((psize =? psize_next)%Z && neqb t1 0.01 && negb (psize =? 0)%Z
            && (psize >=? min_vars)%Z); [discriminate|].
  destruct ((psize >=? min_vars)%Z && (psize <=? max_vars)%Z) eqn:Hin.
  - intros [= <-]. cbn. left.
    apply andb_prop in Hin. destruct Hin as [Hge Hle].
    rewrite Z.geb_leb in Hge. apply Z.leb_le in Hge. apply Z.leb_le in Hle. repeat split; auto.
  - assert (Hout : ~ (min_vars <= psize <= max_vars)%Z).
    { apply andb_false_iff in Hin. destruct Hin as [Hin | Hin].
      - rewrite Z.geb_leb in Hin. apply Z.leb_gt in Hin. lia.
      - apply Z.leb_gt in Hin. lia. }
    destruct ((psize <? min_vars)%Z || ((t1 =? 0.1) || (t1 =? 0.01)))
      eqn:Hq; [|discriminate].
    assert (Hwhy : (psize < min_vars)%Z
                   \/ (t1 =? 0.1) = true \/ (t1 =? 0.01) = true).
    { apply orb_prop in Hq. destruct Hq as [Hq | Hq].
      - left. apply Z.ltb_lt, Hq.
      - right. apply orb_prop, Hq. }
    destruct (Z.eqb_spec psize 13) as [H13 | H13]; cbn [negb].
    + intros [= <-]. cbn. right. repeat split; auto.
    + intros [= <-]. cbn. right. repeat split; auto.
      left. repeat split; auto. rewrite <- app_assoc. reflexivity.
Qed.

Lemma tighten_unfold (fuel : nat) (w : Tighten) :
  tighten max_vars min_vars fuel pvals rvals w
  = if tighten_test max_vars w then
      match fuel with
      | O => OutOfFuel
      | S fuel' =>
          match body w with
          | inl w' => tighten max_vars min_vars fuel' pvals rvals w'
          | inr w' => Ok w'
          end
      end
    else Ok w.
Proof. destruct fuel; reflexivity. Qed.

(** The function computes the runs of the loop. *)
Lemma tighten_runs (fuel : nat) : forall w w',
  tighten max_vars min_vars fuel pvals rvals w = Ok w' -> runs w w'.
Proof.
  induction fuel as [|fuel IH]; intros w w' H; cbn in H;
    fold (tighten_test max_vars w) in H;
    destruct (tighten_test max_vars w) eqn:Ht.
  - discriminate.
  - inversion H; subst. apply tightens_test_fails, Ht.
  - destruct (body w) as [w1|w1] eqn:Hb.
    + eapply tightens_continue; eauto.
    + inversion H; subst. eapply tightens_break; eauto.
  - inversion H; subst. apply tightens_test_fails, Ht.
Qed.

(** The position of a threshold of the grid bounds the iterations. *)
Lemma tighten_terminates (fuel : nat) : forall k w,
  (1 <= k <= 10)%nat -> (k <= fuel)%nat ->
  w_threshold_in w = cent (Z.of_nat k) ->
  exists w', tighten max_vars min_vars fuel pvals rvals w = Ok w'.
Proof.
  induction fuel as [|fuel IH]; intros k w Hk Hfuel Ht; [lia|].
  cbn. destruct ((w_psize w >? max_vars)%Z || w_idem w); [|eauto].
  destruct (body w) as [w1|w1] eqn:Hb; [|eauto].
  destruct (body_continue _ _ Hb) as (Ht1 & Hfloor & _).
  rewrite Ht, lowered_cent in Ht1 by exact Hk.
  rewrite Ht1, cent_is_floor in Hfloor by lia.
  apply Nat.eqb_neq in Hfloor.
  apply (IH (Nat.max 1 (k - 1))); [lia | lia | exact Ht1].
Qed.

Lemma last_cons (l : list float) : forall a d, last (a :: l) d = last l a.
Proof.
  induction l as [|x l IH]; intros a d; [reflexivity|].
  change (last (x :: l) d = last (x :: l) a). rewrite !IH. reflexivity.
Qed.

Lemma last_lowerings_S (n : nat) (t d : float) :
  last (lowerings (S n) t) d = last (lowerings n (lowered t)) (lowered t).
Proof. cbn [lowerings]. apply last_cons. Qed.

Lemma runs_end (w w' : Tighten) :
  runs w w' -> tighten_test max_vars w = true ->
  exists n, ends_after w w' n.
Proof.
  induction 1 as [w Hf | w w' Ht Hb | w w1 w' Ht Hb Hrun IH]; intros Htest.
  - congruence.
  - exists 1%nat. unfold ends_after. cbn [lowerings last].
    split; [lia|]. destruct (body_break _ _ Hb) as [H | H].
    + left. exact H.
    + right. destruct H as (H1 & H2 & H3 & H4 & H5).
      repeat split; auto.
  - destruct (body_continue _ _ Hb) as (Ht1 & _ & Hrc & Hh & _ & Htest1).
    destruct (IH Htest1) as (n & Hn & Hend).
    exists (S n). unfold ends_after. split; [lia|].
    rewrite last_lowerings_S. cbn [lowerings].
    rewrite Ht1, Hrc, Hh in Hend. rewrite <- !app_assoc in Hend.
    exact Hend.
Qed.

End Tightening.

(** ** Passes *)

Section Passes.

Variable E : Env.
Variable threshold_out : float.
Variables max_vars min_vars : Z.
Variable fuel : nat.

Local Abbreviation reaches' := (reaches E threshold_out max_vars min_vars fuel).
Local Abbreviation pass' := (pass E threshold_out max_vars min_vars fuel).

Lemma reaches_front s log s1 log1 n s2 log2 :
  pass' s log = (Ok (Continue s1), log1) ->
  reaches' s1 log1 n s2 log2 ->
  reaches' s log (S n) s2 log2.
Proof.
  intros Hp Hr. induction Hr as [s1 log1 | s1 log1 n sa loga sb logb Hr IH Hq].
  - eapply reaches_pass; [apply reaches_head | exact Hp].
  - eapply reaches_pass; [apply IH, Hp | exact Hq].
Qed.

Lemma iterate_reaches n : forall s log s' log',
  iterate E threshold_out max_vars min_vars fuel n s log = Some (s', log') ->
  reaches' s log n s' log'.
Proof.
  induction n as [|n IH]; intros s log s' log' H; cbn in H.
  - inversion H. apply reaches_head.
  - destruct (pass' s log) as [[[s1|r]|e|] log1] eqn:Hp; try discriminate.
    eapply reaches_front; [exact Hp | apply IH, H].
Qed.

(** The passes are a function of the state and the log. *)
Lemma reaches_functional s log n s1 log1 :
  reaches' s log n s1 log1 ->
  forall s2 log2, reaches' s log n s2 log2 -> s1 = s2 /\ log1 = log2.
Proof.
  induction 1 as [s log | s log n sa loga sb logb Hr IH Hq];
    intros s2 log2 H2.
  - inversion H2; subst. split; reflexivity.
  - inversion H2 as [| ? ? ? sc logc ? ? Hr2 Hq2]; subst.
    destruct (IH _ _ Hr2) as [<- <-]. rewrite Hq in Hq2.
    inversion Hq2. split; reflexivity.
Qed.

End Passes.

(** The examples arise in invocations. *)
Example head_five_reached :
  reaches env_five 0.1 4 4 20 (init [] 0.05) [] 4 head_five log_five
  /\ steps env_five 0.1 head_five log_five
     = (Ok (fitted env_five (included state_five), state_five, true),
        (log_five ++ [["f1"; "f2"; "f3"; "f4"; "f5"];
                      ["f1"; "f2"; "f3"; "f4"; "f5"]])%list).
Proof.
  split; [apply iterate_reaches|]; vm_compute; reflexivity.
Qed.

Example head_two_reached :
  reaches env_two 0.1 1 0 20 (init [] 0.05) [] 1 head_two
    [["f1"]; ["f2"]; ["f1"]]
  /\ steps env_two 0.1 head_two [["f1"]; ["f2"]; ["f1"]]
     = (Ok (fitted env_two ["f1"; "f2"], state_two, true),
        [["f1"]; ["f2"]; ["f1"]; ["f1"; "f2"]; ["f1"; "f2"]]).
Proof.
  split; [apply iterate_reaches|]; vm_compute; reflexivity.
Qed.

(** ** C6: the values of [threshold_in] in the tightening loop *)

(** C6, as stated, fails.  In the invocation on [env_five] with bounds of
    four features the loop is entered with [threshold_in] at 0.1, lowers
    it to 0.09 and, leaving through the break that sets [rcond], raises
    it to 0.1 again: the values taken are 0.1, 0.09, 0.1. *)
Lemma tightening_raises_threshold :
  reaches env_five 0.1 4 4 20 (init [] 0.05) [] 4 head_five log_five
  /\ steps env_five 0.1 head_five log_five
     = (Ok (fitted env_five (included state_five), state_five, true),
        (log_five ++ [["f1"; "f2"; "f3"; "f4"; "f5"];
                      ["f1"; "f2"; "f3"; "f4"; "f5"]])%list)
  /\ exists w,
       tighten 4 4 20 (included_pvals state_five)
         (included_rvals state_five) (tighten_entry state_five) = Ok w
       /\ w_history w = [0.09; 0.1]
       /\ w_threshold_in w = 0.1
       /\ non_increasing (threshold_in state_five :: w_history w) = false.
Proof.
  destruct head_five_reached as [Hr Hs].
  split; [exact Hr|]. split; [exact Hs|].
  eexists. split; [vm_compute; reflexivity|]. repeat split.
Qed.

(** C6, amended.  Entered with [threshold_in] on the grid 0.01, ...,
    0.10 (it is 0.1 whenever the loop is reached) and with fuel for ten
    iterations, the tightening loop ends.  The values it assigns at the
    head of its iterations are successive lowerings by 0.01, not below
    0.01, and never increase.  The only other assignment is made by the
    break that sets [rcond]: it raises the last value once by 0.01, not
    above 0.10, and the loop ends there. *)
Theorem tightening_lowers_then_may_raise
    (max_vars min_vars : Z) (s : State) (fuel : nat) :
  on_grid (threshold_in s) ->
  (10 <= fuel)%nat ->
  exists w n,
    tighten max_vars min_vars fuel (included_pvals s) (included_rvals s)
      (tighten_entry s) = Ok w
    /\ non_increasing (threshold_in s :: lowerings n (threshold_in s)) = true
    /\ ((w_history w = lowerings n (threshold_in s)
         /\ w_threshold_in w
            = last (lowerings n (threshold_in s)) (threshold_in s))
        \/ (w_rcond w = true
            /\ w_history w
               = (lowerings n (threshold_in s)
                  ++ [raised (last (lowerings n (threshold_in s))
                                (threshold_in s))])%list
            /\ w_threshold_in w
               = raised (last (lowerings n (threshold_in s))
                           (threshold_in s)))).
Proof.
  intros Hgrid Hfuel.
  destruct (proj1 (on_grid_cent _) Hgrid) as (k & Hk & Ht).
  destruct (tighten_terminates max_vars min_vars (included_pvals s)
              (included_rvals s) fuel k (tighten_entry s) Hk ltac:(lia) Ht)
    as [w Hw].
  exists w.
  destruct (tighten_test max_vars (tighten_entry s)) eqn:Htest.
  - destruct (runs_end _ _ _ _ _ _ (tighten_runs _ _ _ _ _ _ _ Hw) Htest)
      as (n & _ & Hend).
    exists n. split; [exact Hw|].
    split; [apply lowerings_non_increasing, Hgrid|].
    cbn [tighten_entry w_threshold_in w_history w_rcond app] in Hend.
    destruct Hend as [(_ & _ & Ht' & _ & Hh)
                     | (_ & _ & Hrc & _ & [(_ & Ht' & Hh) | (_ & Ht' & Hh)])];
      auto.
  - exists 0%nat. split; [exact Hw|]. split; [reflexivity|]. left.
    rewrite tighten_unfold, Htest in Hw. inversion Hw.
    split; reflexivity.
Qed.

Lemma tightening_lowers_then_may_raise_witness :
  on_grid (threshold_in state_five)
  /\ exists w n,
       tighten 4 4 20 (included_pvals state_five)
         (included_rvals state_five) (tighten_entry state_five) = Ok w
       /\ non_increasing
            (threshold_in state_five
               :: lowerings n (threshold_in state_five)) = true.
Proof.
  assert (Hg : on_grid (threshold_in state_five)).
  { apply on_grid_cent. exists 10%nat. split; [lia | reflexivity]. }
  split; [exact Hg|].
  destruct (tightening_lowers_then_may_raise 4 4 state_five 20 Hg
              ltac:(lia)) as (w & n & Hw & Hn & _).
  exists w, n. split; [exact Hw | exact Hn].
Defined.

(** ** Over-capacity handling *)

Section OverCapacity.

Variable E : Env.
Variable threshold_out : float.
Variables max_vars min_vars : Z.

Lemma over_capacity_unfold fuel s model log w mask :
  tighten max_vars min_vars fuel (included_pvals s) (included_rvals s)
    (tighten_entry s) = Ok w ->
  w_mask w = Some mask ->
  over_capacity E max_vars min_vars fuel s model log
  = match cut_positions w mask with
    | [] => (Ok (after_tighten s w, model), log)
    | k :: _ =>
        bind (OLS E (firstn k (included s)))
          (fun model' =>
             ret (set_lists (after_tighten s w) (firstn k (included s))
                    (included_pvals s) (included_rvals s), model')) log
    end.
Proof.
  intros Hw Hm. unfold over_capacity, bind at 1.
  change {| w_psize := 999; w_idem := false;
            w_threshold_in := threshold_in s; w_mask := None;
            w_rcond := rcond s; w_history := [] |} with (tighten_entry s).
  rewrite Hw. unfold bind at 1. rewrite Hm. cbn [expect ret].
  unfold cut_positions, after_tighten. cbn [rcond set_rcond].
  destruct (if w_rcond w then _ else _); reflexivity.
Qed.

Lemma dispatch_over_capacity fuel s changed model log :
  (size s > max_vars)%Z -> dropped s = false ->
  dispatch E max_vars min_vars fuel s changed model log
  = bind (over_capacity E max_vars min_vars fuel s model)
      (fun r => ret (Return (included (fst r), Fitted (snd r),
                             threshold_in (fst r)))) log.
Proof.
  intros Hsize Hd. unfold dispatch.
  replace (size s <=? max_vars)%Z with false
    by (symmetry; apply Z.leb_gt; lia).
  rewrite andb_false_r. cbn [andb].
  replace (size s >? max_vars)%Z with true
    by (symmetry; apply Z.gtb_lt; lia).
  rewrite Hd. cbn [andb negb]. unfold bind.
  destruct (over_capacity E max_vars min_vars fuel s model log)
    as [[[s' m']|e|] log']; reflexivity.
Qed.

End OverCapacity.

(** ** The two steps of a pass *)

Section Steps.

Variable E : Env.
Variable threshold_out : float.

(** The forward step adds nothing, or appends one excluded column to
    Included and one entry to each track. *)
Lemma forward_inv s log s1 changed log1 :
  forward E s log = (Ok (s1, changed), log1) ->
  (s1 = s /\ changed = false)
  \/ (exists f p r,
        s1 = set_lists s (included s ++ [f])%list
               (included_pvals s ++ [p])%list (included_rvals s ++ [r])%list
        /\ changed = true
        /\ (p <? threshold_in s) = true
        /\ In f (set_iter E (set_difference (columns E) (included s)))).
Proof.
  unfold forward. intros H.
  apply bind_Ok in H. destruct H as ([ps rs] & log' & _ & H).
  destruct (Series.min ps <? threshold_in s) eqn:Hlt.
  - run_inv H. apply expect_Ok in Hrun. destruct Hrun as [_ ->].
    apply expect_Ok in Hrun0. destruct Hrun0 as [Hf ->].
    apply expect_Ok in Hrun1. destruct Hrun1 as [_ ->].
    inversion H; subst.
    right. exists a0, (Series.min ps), a1. repeat split; auto.
    eapply nth_error_In; eauto.
  - run_inv H. inversion H; subst. left. split; reflexivity.
Qed.

(** The backward step fits Included and drops nothing, or removes one
    position from Included and from both tracks and sets [dropped]. *)
Lemma backward_inv s changed log model s2 changed2 log2 :
  backward E threshold_out s changed log = (Ok (model, s2, changed2), log2) ->
  known E (included s) = true
  /\ model = fitted E (included s)
  /\ log2 = (log ++ [included s])%list
  /\ ((s2 = s /\ changed2 = changed)
      \/ (exists k incl ps rs,
            pop k (included s) = Some incl
            /\ pop k (included_pvals s) = Some ps
            /\ pop k (included_rvals s) = Some rs
            /\ s2 = set_lists (set_dropped s true) incl ps rs
            /\ changed2 = true)).
Proof.
  unfold backward. intros H.
  apply bind_Ok in H. destruct H as (m & log' & Hols & H).
  apply OLS_Ok in Hols. destruct Hols as (Hk & -> & ->).
  split; [exact Hk|].
  destruct (gtb _ threshold_out).
  - run_inv H.
    apply expect_Ok in Hrun. destruct Hrun as [_ ->].
    apply expect_Ok in Hrun0. destruct Hrun0 as [_ ->].
    apply expect_Ok in Hrun1. destruct Hrun1 as [Hidx ->].
    apply expect_Ok in Hrun2. destruct Hrun2 as [Hps ->].
    apply expect_Ok in Hrun3. destruct Hrun3 as [Hrs ->].
    apply expect_Ok in Hrun4. destruct Hrun4 as [Hrem ->].
    rewrite (remove_is_pop _ _ _ Hidx) in Hrem.
    inversion H; subst.
    repeat split. right. exists a1, a4, a2, a3. repeat split; auto.
  - run_inv H. inversion H; subst. repeat split. left. split; reflexivity.
Qed.

(** The two steps of a pass: what they leave of a state. *)
Lemma steps_inv s log model s2 changed log2 :
  steps E threshold_out s log = (Ok (model, s2, changed), log2) ->
  exists s1 changed1 log1,
    forward E s log = (Ok (s1, changed1), log1)
    /\ backward E threshold_out s1 changed1 log1
       = (Ok (model, s2, changed), log2).
Proof.
  unfold steps. intros H. apply bind_Ok in H.
  destruct H as ([s1 ch1] & log1 & Hf & Hb). eauto.
Qed.

End Steps.

(** ** C10: over-capacity handling without a cut *)

(** Lines 132-135 find no position to cut exactly when every entry of the
    final mask passes, the positions up to 3 aside when [rcond] is set. *)
Lemma cut_positions_none (w : Tighten) (mask : list bool) :
  cut_positions w mask = [] ->
  forall j, nth_error mask j = Some false ->
  w_rcond w = true /\ (j <= 3)%nat.
Proof.
  unfold cut_positions, where_false. intros H j Hj.
  destruct (w_rcond w).
  - split; [reflexivity|].
    destruct (Nat.ltb_spec 3 j) as [Hlt | Hle]; [|exact Hle].
    exfalso. assert (Hc : false = true); [|discriminate Hc].
    apply (where_false_none _ _ _ H j false Hj).
    cbv beta. apply Nat.ltb_lt. lia.
  - rewrite <- (filter_all (where_false_from 0 mask)) in H.
    discriminate (where_false_none _ _ _ H j false Hj eq_refl).
Qed.

(** C10, as stated, fails when its mask is read as the mask over the
    p-value track.  On [env_five_low] with bounds of four features the
    five p-values are below every threshold the tightening loop tries,
    from 0.09 down to 0.01, and below the threshold 0.02 it ends on: the
    mask over the p-value track never has a failing entry.  The loop
    leaves through the break that sets [rcond], the mask becomes the one
    over the r-value track, whose entry at position 4 fails, and Included
    is cut to four features, on which a model is fitted. *)
Lemma pvalue_mask_passes_yet_cut :
  reaches env_five_low 0.1 4 4 20 (init [] 0.05) [] 4 head_five_low log_five
  /\ steps env_five_low 0.1 head_five_low log_five
     = (Ok (fitted env_five_low (included state_five_low),
            state_five_low, true),
        (log_five ++ [["f1"; "f2"; "f3"; "f4"; "f5"];
                      ["f1"; "f2"; "f3"; "f4"; "f5"]])%list)
  /\ map (fun t => has_false (pmask (included_pvals state_five_low) t))
       [0.09; 0.08; 0.07; 0.06; 0.05; 0.04; 0.03; 0.02; 0.01; 0.02]%float
     = [false; false; false; false; false; false; false; false; false;
        false]
  /\ tighten 4 4 20 (included_pvals state_five_low)
       (included_rvals state_five_low) (tighten_entry state_five_low)
     = Ok {| w_psize := 5; w_idem := false; w_threshold_in := 0.02%float;
             w_mask := Some [true; true; true; true; false];
             w_rcond := true;
             w_history := [0.09; 0.08; 0.07; 0.06; 0.05; 0.04; 0.03; 0.02;
                           0.01; 0.02]%float |}
  /\ rmask (included_rvals state_five_low)
     = [true; true; true; true; false]
  /\ pass env_five_low 0.1 4 4 20 head_five_low log_five
     = (Ok (Return (["f1"; "f2"; "f3"; "f4"],
                    Fitted (fitted env_five_low ["f1"; "f2"; "f3"; "f4"]),
                    0.02%float)),
        (log_five ++ [["f1"; "f2"; "f3"; "f4"; "f5"];
                      ["f1"; "f2"; "f3"; "f4"; "f5"];
                      ["f1"; "f2"; "f3"; "f4"]])%list).
Proof.
  split; [apply iterate_reaches; vm_compute; reflexivity|].
  repeat split; vm_compute; reflexivity.
Qed.

(** A mask with no failing entry passes everywhere: its prefix count is
    its length. *)
Lemma prefix_size_all_pass (mask : list bool) :
  where_false mask = [] ->
  prefix_size mask = Z.of_nat (List.length mask).
Proof.
  intros Hnone. rewrite prefix_size_spec. f_equal.
  pose proof (passing_prefix_le mask) as Hle.
  destruct (passing_prefix_spec mask) as [_ Hat].
  destruct (Nat.eq_dec (passing_prefix mask) (List.length mask)) as [He | Hne];
    [exact He|].
  exfalso. assert (Hlt : (passing_prefix mask < List.length mask)%nat) by lia.
  specialize (Hat Hlt).
  assert (Hf : filter (fun _ : nat => true) (where_false_from 0 mask) = []).
  { rewrite filter_all. exact Hnone. }
  pose proof (where_false_none (fun _ => true) mask 0 Hf _ _ Hat eq_refl).
  discriminate.
Qed.

(** C10, amended.  Let the two steps of a pass leave more than [max_vars]
    features without any drop so far, so that over-capacity handling
    runs, and let the final mask of the tightening loop have no failing
    entry (the positions up to 3 aside when [rcond] is set).  Then the
    pass returns the Included set as the two steps left it, with the
    threshold the tightening loop ended on; the fit log is the one the
    backward step left, so no fit is performed in this branch; and the
    model returned is the model the backward step of this pass fitted, on
    that Included set.  With the tracks as long as Included and [rcond]
    not set before, as in an invocation from an empty list, that final
    mask is the one over the r-value track, left by the break that sets
    [rcond]: a mask over the p-value track that ends the loop has a
    failing entry. *)
Theorem no_failing_entry_keeps_included
    (E : Env) (threshold_out : float) (max_vars min_vars : Z) (fuel : nat)
    (s0 : State) (log0 : FitLog) (model : OLSResults) (s : State)
    (changed : bool) (log : FitLog) (w : Tighten) (mask : list bool) :
  steps E threshold_out s0 log0 = (Ok (model, s, changed), log) ->
  (size s > max_vars)%Z ->
  dropped s = false ->
  tighten max_vars min_vars fuel (included_pvals s) (included_rvals s)
    (tighten_entry s) = Ok w ->
  w_mask w = Some mask ->
  cut_positions w mask = [] ->
  pass E threshold_out max_vars min_vars fuel s0 log0
  = (Ok (Return (included s, Fitted model, w_threshold_in w)), log)
  /\ model = fitted E (included s)
  /\ (exists log1,
        backward E threshold_out s changed log1
        = (Ok (model, s, changed), log)
        /\ log = (log1 ++ [included s])%list)
  /\ (aligned s -> rcond s = false ->
      w_rcond w = true /\ mask = rmask (included_rvals s)).
Proof.
  intros Hsteps Hsize Hd Hw Hm Hcut. split; [|split; [|split]].
  - unfold pass. rewrite (bind_run _ _ _ _ _ Hsteps).
    rewrite (dispatch_over_capacity _ _ _ _ _ _ _ _ Hsize Hd).
    unfold bind. rewrite (over_capacity_unfold _ _ _ _ _ _ _ _ _ Hw Hm).
    rewrite Hcut. reflexivity.
  - destruct (steps_inv _ _ _ _ _ _ _ _ Hsteps)
      as (s1 & ch1 & log1 & _ & Hb).
    destruct (backward_inv _ _ _ _ _ _ _ _ _ Hb)
      as (_ & Hmodel & _ & [[-> _] | (k & incl & ps & rs & _ & _ & _ & -> & _)]);
      [exact Hmodel | discriminate Hd].
  - destruct (steps_inv _ _ _ _ _ _ _ _ Hsteps)
      as (s1 & ch1 & log1 & _ & Hb).
    destruct (backward_inv _ _ _ _ _ _ _ _ _ Hb)
      as (_ & _ & Hlog & [[-> ->] | (k & incl & ps & rs & _ & _ & _ & -> & _)]).
    + exists log1. split; [exact Hb | exact Hlog].
    + discriminate Hd.
  - intros [Hp _] Hrc.
    assert (Htest : tighten_test max_vars (tighten_entry s) = true).
    { destruct (tighten_test max_vars (tighten_entry s)) eqn:Ht;
        [reflexivity|].
      rewrite tighten_unfold, Ht in Hw. inversion Hw; subst w.
      discriminate Hm. }
    destruct (runs_end _ _ _ _ _ _ (tighten_runs _ _ _ _ _ _ _ Hw) Htest)
      as (n & _ & [(Hin & Hrcw & _ & Hmask & _)
                  | (_ & _ & Hrcw & Hmask & _)]).
    + exfalso. rewrite Hm in Hmask. inversion Hmask; subst mask.
      unfold cut_positions in Hcut. rewrite Hrcw in Hcut.
      cbn [w_rcond tighten_entry] in Hcut. rewrite Hrc in Hcut.
      apply prefix_size_all_pass in Hcut.
      cbn [w_threshold_in tighten_entry] in Hin.
      unfold psize_at in Hin. rewrite Hcut in Hin.
      unfold pmask in Hin. rewrite length_map, Hp in Hin.
      unfold size in Hsize. lia.
    + split; [exact Hrcw|]. rewrite Hm in Hmask. inversion Hmask.
      reflexivity.
Qed.

Lemma no_failing_entry_keeps_included_witness :
  pass env_two 0.1 1 0 20 head_two [["f1"]; ["f2"]; ["f1"]]
  = (Ok (Return (["f1"; "f2"], Fitted (fitted env_two ["f1"; "f2"]), 0.02)),
     [["f1"]; ["f2"]; ["f1"]; ["f1"; "f2"]; ["f1"; "f2"]]).
Proof.
  apply (no_failing_entry_keeps_included env_two 0.1 1 0 20 head_two
           [["f1"]; ["f2"]; ["f1"]] (fitted env_two ["f1"; "f2"]) state_two
           true [["f1"]; ["f2"]; ["f1"]; ["f1"; "f2"]; ["f1"; "f2"]]
           tightened_two [true; true]).
  - vm_compute. reflexivity.
  - reflexivity.
  - reflexivity.
  - vm_compute. reflexivity.
  - reflexivity.
  - reflexivity.
Defined.

(** ** The end of a pass *)

Section Dispatch.

Variable E : Env.
Variable threshold_out : float.
Variables max_vars min_vars : Z.
Variable fuel : nat.

Lemma on_dropped_inv s changed model s' changed' :
  on_dropped E max_vars min_vars s changed model = (s', changed') ->
  ((threshold_in s =? 0.1) && onetime s = true
   /\ s' = reset_state s /\ changed' = true)
  \/ ((threshold_in s =? 0.1) && onetime s = false
      /\ (size s > max_vars)%Z /\ neqb (threshold_in s) 0.01 = true
      /\ lower s = false
      /\ s' = lowered_state s /\ changed' = true)
  \/ ((threshold_in s =? 0.1) && onetime s = false /\ s' = s).
Proof.
  unfold on_dropped.
  destruct ((threshold_in s =? 0.1) && onetime s) eqn:Ha.
  - intros [= <- <-]. left. repeat split.
  - destruct ((size s >? max_vars)%Z && neqb (threshold_in s) 0.01
              && negb (lower s)) eqn:Hb.
    + intros [= <- <-]. right. left.
      apply andb_prop in Hb. destruct Hb as [Hb Hl].
      apply andb_prop in Hb. destruct Hb as [Hs Hn].
      apply Z.gtb_lt in Hs. apply negb_true_iff in Hl.
      repeat split; auto. lia.
    + destruct ((size s >=? min_vars)%Z && lower s).
      * destruct (gtb _ 0.9); intros [= <- <-]; right; right; auto.
      * intros [= <- <-]. right. right. auto.
Qed.

Lemma stall_inv s changed model s' :
  stall min_vars s changed model = Continue s' ->
  (changed = true /\ s' = s)
  \/ (changed = false /\ (size s < min_vars)%Z
      /\ neqb (threshold_in s) 0.1 = true /\ s' = raised_state s).
Proof.
  unfold stall. destruct changed; cbn [negb].
  - intros [= <-]. left. auto.
  - destruct ((size s <? min_vars)%Z && neqb (threshold_in s) 0.1) eqn:H;
      [|discriminate].
    intros [= <-]. right. apply andb_prop in H. destruct H as [Hs Hn].
    apply Z.ltb_lt in Hs. repeat split; auto.
Qed.

(** A pass that leads to a next pass ends in one of four ways: the
    one-time reset, the lowering restart, no restart, the raising
    restart.  It performs no fit after its two steps. *)
Lemma dispatch_continue_inv s changed model log s' log' :
  dispatch E max_vars min_vars fuel s changed model log
  = (Ok (Continue s'), log') ->
  log' = log
  /\ ((reset_test s = true /\ s' = reset_state s)
      \/ (reset_test s = false /\ dropped s = true
          /\ (size s > max_vars)%Z /\ neqb (threshold_in s) 0.01 = true
          /\ lower s = false /\ s' = lowered_state s)
      \/ (reset_test s = false /\ s' = s)
      \/ (reset_test s = false /\ (size s < min_vars)%Z
          /\ neqb (threshold_in s) 0.1 = true /\ s' = raised_state s)).
Proof.
  unfold dispatch, reset_test.
  destruct ((size s >=? min_vars)%Z && (size s <=? max_vars)%Z
            && negb changed); [discriminate|].
  destruct ((size s >? max_vars)%Z && negb (dropped s)).
  - unfold bind.
    destruct (over_capacity E max_vars min_vars fuel s model log)
      as [[[s1 m1]|e|] log1]; discriminate.
  - destruct (dropped s) eqn:Hd; cbn [andb].
    + destruct (on_dropped E max_vars min_vars s changed model)
        as [s1 ch1] eqn:Hon.
      intros H. apply ret_Ok in H. destruct H as [Hst ->].
      split; [reflexivity|].
      destruct (on_dropped_inv _ _ _ _ _ Hon)
        as [(Ha & -> & ->) | [(Ha & Hs & Hn & Hl & -> & ->) | (Ha & ->)]].
      * apply stall_inv in Hst.
        destruct Hst as [[_ ->] | [Hc _]]; [|discriminate].
        left. auto.
      * apply stall_inv in Hst.
        destruct Hst as [[_ ->] | [Hc _]]; [|discriminate].
        right. left. repeat split; auto.
      * apply stall_inv in Hst.
        destruct Hst as [[_ ->] | (_ & Hs & Hn & ->)].
        -- right. right. left. auto.
        -- right. right. right. auto.
    + intros H. apply ret_Ok in H. destruct H as [Hst ->].
      split; [reflexivity|]. apply stall_inv in Hst.
      destruct Hst as [[_ ->] | (_ & Hs & Hn & ->)].
      * right. right. left. auto.
      * right. right. right. auto.
Qed.

(** The two steps of a pass and the scalar variables. *)
Lemma steps_scalars s log model s2 changed log2 :
  steps E threshold_out s log = (Ok (model, s2, changed), log2) ->
  same_scalars s s2.
Proof.
  intros H. destruct (steps_inv _ _ _ _ _ _ _ _ H)
    as (s1 & ch1 & log1 & Hf & Hb).
  destruct (forward_inv _ _ _ _ _ _ Hf)
    as [[-> _] | (f & p & r & -> & _)];
    destruct (backward_inv _ _ _ _ _ _ _ _ _ Hb)
      as (_ & _ & _ & [[-> _] | (k & incl & ps & rs & _ & _ & _ & -> & _)]);
    unfold same_scalars; cbn; repeat split; auto.
Qed.

End Dispatch.

(** ** What holds at the head of every pass *)

Section Heads.

Variable E : Env.
Variable threshold_out : float.
Variables max_vars min_vars : Z.
Variable fuel : nat.

Local Abbreviation reaches' :=
  (reaches E threshold_out max_vars min_vars fuel).
Local Abbreviation pass' := (pass E threshold_out max_vars min_vars fuel).

(** A pass that leads to a next pass: its two steps and its end. *)
Lemma pass_continue_inv s log s' log' :
  pass' s log = (Ok (Continue s'), log') ->
  exists model s2 changed,
    steps E threshold_out s log = (Ok (model, s2, changed), log')
    /\ dispatch E max_vars min_vars fuel s2 changed model log'
       = (Ok (Continue s'), log')
    /\ same_scalars s s2.
Proof.
  unfold pass. intros H. apply bind_Ok in H.
  destruct H as ([[model s2] changed] & log2 & Hsteps & Hd).
  destruct (dispatch_continue_inv _ _ _ _ _ _ _ _ _ _ Hd) as [-> _].
  exists model, s2, changed. split; [exact Hsteps|]. split; [exact Hd|].
  eapply steps_scalars; eauto.
Qed.

Lemma head_inv_init initial_list ti : head_inv ti (init initial_list ti).
Proof.
  unfold head_inv, init. cbn. repeat split; auto; discriminate.
Qed.

(** After the two steps of a pass that starts from a head, the reset
    test holds exactly when the first drop has just occurred. *)
Lemma reset_test_first_drop ti s s2 :
  head_inv ti s -> same_scalars s s2 ->
  reset_test s2 = true <-> (dropped s = false /\ dropped s2 = true).
Proof.
  intros (_ & _ & Hfresh & Hused) (_ & Ht & _ & _ & Ho & Hd).
  unfold reset_test. rewrite Ht, Ho. split.
  - intros H. apply andb_prop in H. destruct H as [Hd2 H].
    apply andb_prop in H. destruct H as [_ Hone].
    split; [|exact Hd2].
    destruct (dropped s); [|reflexivity].
    rewrite (Hused eq_refl) in Hone. discriminate.
  - intros [Hd1 Hd2]. destruct (Hfresh Hd1) as (-> & -> & _).
    rewrite Hd2. reflexivity.
Qed.

Lemma head_inv_pass ti s log s' log' :
  head_inv ti s ->
  pass' s log = (Ok (Continue s'), log') ->
  head_inv ti s'.
Proof.
  intros Hinv Hp.
  destruct (pass_continue_inv _ _ _ _ Hp)
    as (model & s2 & changed & _ & Hd & Hsc).
  assert (Hreset := reset_test_first_drop _ _ _ Hinv Hsc).
  destruct Hinv as (Hti & Hrc & Hfresh & Hused).
  destruct Hsc as (Hti2 & Ht2 & Hl2 & Hrc2 & Ho2 & Hd2).
  assert (Hused2 : reset_test s2 = false -> dropped s2 = true ->
                   onetime s2 = false).
  { intros Hno Hdr. rewrite Ho2.
    destruct (dropped s) eqn:Hds; [auto|].
    rewrite (proj2 Hreset (conj eq_refl Hdr)) in Hno. discriminate. }
  assert (Hfresh2 : dropped s2 = false ->
                    threshold_in s2 = 0.1 /\ onetime s2 = true
                    /\ lower s2 = false).
  { intros Hdr. rewrite Ht2, Ho2, Hl2. apply Hfresh.
    destruct Hd2 as [<- | Hd2]; congruence. }
  destruct (dispatch_continue_inv _ _ _ _ _ _ _ _ _ _ Hd)
    as (_ & [(Hyes & ->) | [(Hno & Hdr & _ & _ & _ & ->)
                           | [(Hno & ->) | (Hno & _ & Hn & ->)]]]);
    unfold head_inv, reset_state, lowered_state, raised_state; cbn.
  - apply Hreset in Hyes. destruct Hyes as [_ Hdr]. rewrite Hdr.
    repeat split; try congruence.
  - rewrite Hdr. repeat split; try congruence; auto.
  - split; [congruence|]. split; [congruence|].
    split; [exact Hfresh2 | exact (Hused2 Hno)].
  - split; [congruence|]. split; [congruence|].
    split; [|exact (Hused2 Hno)].
    intros Hdr. destruct (Hfresh2 Hdr) as (Ht & _).
    rewrite Ht in Hn. vm_compute in Hn. discriminate Hn.
Qed.

Lemma head_inv_reaches ti s log n s' log' :
  head_inv ti s -> reaches' s log n s' log' -> head_inv ti s'.
Proof.
  intros Hinv Hr. induction Hr as [s log | s log n sa loga sb logb Hr IH Hq].
  - exact Hinv.
  - eapply head_inv_pass; [apply IH, Hinv | exact Hq].
Qed.

(** A pass either keeps [onetime] or performs the reset: then the first
    drop has occurred in this very pass, with the threshold at 0.1, and
    the next pass starts from the caller's threshold with Included and
    the tracks empty. *)
Lemma pass_reset ti s log s' log' :
  head_inv ti s ->
  pass' s log = (Ok (Continue s'), log') ->
  onetime s' = onetime s
  \/ (onetime s = true /\ onetime s' = false
      /\ dropped s = false /\ dropped s' = true
      /\ threshold_in s = 0.1 /\ threshold_in s' = ti
      /\ included s' = [] /\ included_pvals s' = []
      /\ included_rvals s' = []
      /\ exists model s2,
           steps E threshold_out s log = (Ok (model, s2, true), log')
           /\ reset_test s2 = true /\ s' = reset_state s2).
Proof.
  intros Hinv Hp.
  destruct (pass_continue_inv _ _ _ _ Hp)
    as (model & s2 & changed & Hsteps & Hd & Hsc).
  assert (Hreset := reset_test_first_drop _ _ _ Hinv Hsc).
  destruct Hinv as (Hti & Hrc & Hfresh & Hused).
  destruct Hsc as (Hti2 & Ht2 & Hl2 & Hrc2 & Ho2 & Hd2).
  destruct (dispatch_continue_inv _ _ _ _ _ _ _ _ _ _ Hd)
    as (_ & [(Hyes & ->) | [(Hno & Hdr & _ & _ & _ & ->)
                           | [(Hno & ->) | (Hno & _ & Hn & ->)]]]);
    unfold reset_state, lowered_state, raised_state; cbn; auto.
  right. destruct (proj1 Hreset Hyes) as [Hds Hdr].
  destruct (Hfresh Hds) as (Ht & Ho & _).
  repeat split; auto; try congruence.
  exists model, s2. split; [|split; [exact Hyes | reflexivity]].
  assert (Hch : changed = true).
  { destruct (steps_inv _ _ _ _ _ _ _ _ Hsteps)
      as (s1 & ch1 & log1 & Hf & Hb).
    destruct (backward_inv _ _ _ _ _ _ _ _ _ Hb)
      as (_ & _ & _ & [[-> _] | (k & incl & ps & rs & _ & _ & _ & _ & Hc)]);
      [|exact Hc].
    destruct (forward_inv _ _ _ _ _ _ Hf)
      as [[-> _] | (f & p & r & -> & _)]; cbn in Hdr; congruence. }
  rewrite <- Hch. exact Hsteps.
Qed.

End Heads.

Lemma reaches_snoc_inv E threshold_out max_vars min_vars fuel s log n s' log' :
  reaches E threshold_out max_vars min_vars fuel s log (S n) s' log' ->
  exists s1 log1,
    reaches E threshold_out max_vars min_vars fuel s log n s1 log1
    /\ pass E threshold_out max_vars min_vars fuel s1 log1
       = (Ok (Continue s'), log').
Proof. intros H. inversion H; subst. eauto. Qed.

(** Once [onetime] is cleared it stays cleared. *)
Lemma onetime_stays_cleared E threshold_out max_vars min_vars fuel ti
    s log n s1 log1 :
  head_inv ti s ->
  reaches E threshold_out max_vars min_vars fuel s log n s1 log1 ->
  onetime s1 = false ->
  forall m s2 log2,
    reaches E threshold_out max_vars min_vars fuel s log (n + m) s2 log2 ->
    onetime s2 = false.
Proof.
  intros Hinv Hr1 Ho m. induction m as [|m IH]; intros s2 log2 Hr2.
  - rewrite Nat.add_0_r in Hr2.
    destruct (reaches_functional _ _ _ _ _ _ _ _ _ _ Hr1 _ _ Hr2) as [<- _].
    exact Ho.
  - rewrite Nat.add_succ_r in Hr2. apply reaches_snoc_inv in Hr2.
    destruct Hr2 as (sm & logm & Hrm & Hp).
    specialize (IH _ _ Hrm).
    destruct (pass_reset _ _ _ _ _ _ _ _ _ _
                (head_inv_reaches _ _ _ _ _ _ _ _ _ _ _ Hinv Hrm) Hp)
      as [Hsame | (Hone & _)]; congruence.
Qed.

(** ** C1: the start value and the one-time reset *)

(** The second pass of the invocation on [env_abc] with [min_vars = 1]
    and [max_vars = 12]. *)
Example head_abc_pass :
  reaches env_abc 0.1 12 1 20 (init [] 0.05) [] 1 head_abc log_abc
  /\ steps env_abc 0.1 head_abc log_abc
     = (Ok (fitted env_abc ["a"; "b"], dropped_abc, true),
        (log_abc ++ [["a"; "b"]; ["a"; "c"]; ["a"; "b"]])%list)
  /\ pass env_abc 0.1 12 1 20 head_abc log_abc
     = (Ok (Continue (reset_state dropped_abc)),
        (log_abc ++ [["a"; "b"]; ["a"; "c"]; ["a"; "b"]])%list).
Proof.
  split; [apply iterate_reaches; vm_compute; reflexivity|].
  split; vm_compute; reflexivity.
Qed.




(** ** C4: the range of [threshold_in] *)

(** C4, as stated, fails.  Called on [env_abc] with [threshold_in = 0.5],
    the selector performs the reset in its second pass: the third pass
    starts with the working threshold at 0.5, above 0.10, and 0.5 is the
    threshold returned. *)
Lemma threshold_in_leaves_range :
  (exists log,
     reaches env_abc 0.1 12 1 20 (init [] 0.5) [] 2 head_abc_half log)
  /\ threshold_in head_abc_half = 0.5
  /\ (threshold_in head_abc_half <=? 0.1) = false
  /\ (exists m log,
        stepwise_selection env_abc 20 [] 0.5 0.1 12 1 []
        = (Ok (["b"; "c"], m, 0.5), log)).
Proof.
  split.
  - eexists. apply iterate_reaches. vm_compute. reflexivity.
  - repeat split. eexists. eexists. vm_compute. reflexivity.
Qed.

Lemma last_Forall {A : Type} (P : A -> Prop) (l : list A) (d : A) :
  Forall P l -> P d -> P (last l d).
Proof.
  induction 1 as [|x l Hx Hl IH]; intros Hd; [exact Hd|].
  destruct l as [|y l]; [exact Hx|]. apply IH, Hd.
Qed.

(** The tightening loop keeps the threshold on the grid. *)
Lemma tighten_on_grid max_vars min_vars fuel pvals rvals w w' :
  on_grid (w_threshold_in w) ->
  tighten max_vars min_vars fuel pvals rvals w = Ok w' ->
  on_grid (w_threshold_in w').
Proof.
  intros Hg Hw. destruct (tighten_test max_vars w) eqn:Htest.
  - destruct (runs_end _ _ _ _ _ _ (tighten_runs _ _ _ _ _ _ _ Hw) Htest)
      as (n & _ & Hend).
    assert (Hlast : on_grid (last (lowerings n (w_threshold_in w))
                               (w_threshold_in w)))
      by (apply last_Forall; [apply lowerings_on_grid, Hg | exact Hg]).
    destruct Hend as [(_ & _ & -> & _)
                     | (_ & _ & _ & _ & [(_ & -> & _) | (_ & -> & _)])];
      auto using raised_on_grid.
  - rewrite tighten_unfold, Htest in Hw. inversion Hw; subst. exact Hg.
Qed.

Lemma over_capacity_threshold E max_vars min_vars fuel s model log s' m' log' :
  over_capacity E max_vars min_vars fuel s model log = (Ok (s', m'), log') ->
  exists w,
    tighten max_vars min_vars fuel (included_pvals s) (included_rvals s)
      (tighten_entry s) = Ok w
    /\ threshold_in s' = w_threshold_in w
    /\ included_pvals s' = included_pvals s
    /\ included_rvals s' = included_rvals s
    /\ exists k, included s' = firstn k (included s).
Proof.
  unfold over_capacity. intros H.
  apply bind_Ok in H. destruct H as (w & log1 & Hw & H).
  inversion Hw as [[Hw' Hl]]. subst log1.
  apply bind_Ok in H. destruct H as (mask & log1 & _ & H).
  exists w. split; [exact Hw'|].
  destruct (if rcond _ then _ else _) as [|k rest].
  - apply ret_Ok in H. destruct H as [H _]. inversion H; subst.
    cbn. repeat split. exists (List.length (included s)).
    symmetry. apply firstn_all.
  - apply bind_Ok in H. destruct H as (m & log2 & _ & H).
    apply ret_Ok in H. destruct H as [H _]. inversion H; subst.
    cbn. repeat split. exists k. reflexivity.
Qed.

(** The threshold a pass returns. *)
Lemma pass_return_threshold E threshold_out max_vars min_vars fuel
    s log r log' :
  pass E threshold_out max_vars min_vars fuel s log = (Ok (Return r), log') ->
  exists model s2 changed log2,
    steps E threshold_out s log = (Ok (model, s2, changed), log2)
    /\ (snd r = threshold_in s2
        \/ exists w,
             tighten max_vars min_vars fuel (included_pvals s2)
               (included_rvals s2) (tighten_entry s2) = Ok w
             /\ snd r = w_threshold_in w).
Proof.
  unfold pass. intros H. apply bind_Ok in H.
  destruct H as ([[model s2] changed] & log2 & Hsteps & Hd).
  exists model, s2, changed, log2. split; [exact Hsteps|].
  unfold dispatch in Hd.
  destruct ((size s2 >=? min_vars)%Z && (size s2 <=? max_vars)%Z
            && negb changed).
  - apply ret_Ok in Hd. destruct Hd as [Hd _]. inversion Hd. left.
    reflexivity.
  - destruct ((size s2 >? max_vars)%Z && negb (dropped s2)).
    + apply bind_Ok in Hd. destruct Hd as ([s' m'] & log3 & Hoc & Hd).
      apply ret_Ok in Hd. destruct Hd as [Hd _]. inversion Hd.
      destruct (over_capacity_threshold _ _ _ _ _ _ _ _ _ _ Hoc)
        as (w & Hw & Ht & _).
      right. exists w. split; [exact Hw | exact Ht].
    + assert (Hstall : forall sx chx,
                stall min_vars sx chx model = Return r ->
                snd r = threshold_in sx).
      { intros sx chx. unfold stall. destruct (negb chx); [|discriminate].
        destruct (_ && _); [discriminate|]. intros [= <-]. reflexivity. }
      destruct (dropped s2).
      * destruct (on_dropped E max_vars min_vars s2 changed model)
          as [s3 ch3] eqn:Hon.
        apply ret_Ok in Hd. destruct Hd as [Hd _]. left.
        destruct (on_dropped_inv _ _ _ _ _ _ _ _ Hon)
          as [(_ & -> & ->) | [(_ & _ & _ & _ & -> & ->) | (_ & ->)]].
        -- discriminate Hd.
        -- discriminate Hd.
        -- eapply Hstall; eauto.
      * apply ret_Ok in Hd. destruct Hd as [Hd _].
        left. eapply Hstall; eauto.
Qed.

Lemma on_grid_start : on_grid 0.1.
Proof. apply on_grid_cent. exists 10%nat. split; [lia | reflexivity]. Qed.

Lemma grid_pass E threshold_out max_vars min_vars fuel ti s log s' log' :
  head_inv ti s -> on_grid ti -> on_grid (threshold_in s) ->
  pass E threshold_out max_vars min_vars fuel s log
  = (Ok (Continue s'), log') ->
  on_grid (threshold_in s').
Proof.
  intros Hinv Hti Hg Hp.
  destruct (pass_continue_inv _ _ _ _ _ _ _ _ _ Hp)
    as (model & s2 & changed & _ & Hd & Hsc).
  destruct Hinv as (Hti' & _).
  destruct Hsc as (Hti2 & Ht2 & _).
  rewrite <- Ht2 in Hg.
  destruct (dispatch_continue_inv _ _ _ _ _ _ _ _ _ _ Hd)
    as (_ & [(_ & ->) | [(_ & _ & _ & _ & _ & ->)
                        | [(_ & ->) | (_ & _ & _ & ->)]]]);
    cbn.
  - rewrite Hti2, Hti'. exact Hti.
  - apply lowered_on_grid, Hg.
  - exact Hg.
  - apply raised_on_grid, Hg.
Qed.

Lemma grid_reaches E threshold_out max_vars min_vars fuel initial_list ti
    n s log :
  on_grid ti ->
  reaches E threshold_out max_vars min_vars fuel (init initial_list ti) []
    n s log ->
  on_grid (threshold_in s).
Proof.
  intros Hti Hr.
  remember (init initial_list ti) as s0 eqn:Hs0.
  remember (@nil (list string)) as log0 eqn:Hlog0.
  induction Hr as [s log | s log n sa loga sb logb Hr IH Hq].
  - subst s. apply on_grid_start.
  - eapply grid_pass; [| exact Hti | apply IH; assumption | exact Hq].
    subst s. eapply head_inv_reaches; [apply head_inv_init | exact Hr].
Qed.

(** C4, amended.  At the head of every pass the working threshold is 0.1
    as long as no drop has occurred.  When the caller's [threshold_in] is
    one of 0.01, 0.02, ..., 0.10, the working threshold at the head of
    every pass is one of these ten values: it lies between 0.01 and 0.10,
    it is a multiple of 0.01 and rounding to two decimals leaves it as it
    is; the threshold a pass returns is one of these values as well. *)
Theorem threshold_in_stays_on_grid
    (E : Env) (threshold_out : float) (max_vars min_vars : Z) (fuel : nat)
    (initial_list : list string) (ti : float)
    (n : nat) (s : State) (log : FitLog) :
  reaches E threshold_out max_vars min_vars fuel (init initial_list ti) []
    n s log ->
  (dropped s = false -> threshold_in s = 0.1)
  /\ (on_grid ti ->
      (0.01 <=? threshold_in s) = true
      /\ (threshold_in s <=? 0.1) = true
      /\ np_round2 (threshold_in s) = threshold_in s
      /\ (exists k, (1 <= k <= 10)%Z /\ threshold_in s = cent k)
      /\ (forall r log',
            pass E threshold_out max_vars min_vars fuel s log
            = (Ok (Return r), log') ->
            on_grid (snd r))).
Proof.
  intros Hr.
  assert (Hinv := head_inv_reaches _ _ _ _ _ _ _ _ _ _ _
                    (head_inv_init initial_list ti) Hr).
  split.
  - intros Hd. destruct Hinv as (_ & _ & Hfresh & _).
    apply (Hfresh Hd).
  - intros Hti.
    assert (Hg := grid_reaches _ _ _ _ _ _ _ _ _ _ Hti Hr).
    destruct (proj1 (on_grid_cent _) Hg) as (k & Hk & Ht).
    destruct (cent_bounds k Hk) as (Hlo & Hhi & Hround).
    rewrite <- Ht in Hlo, Hhi, Hround.
    split; [exact Hlo|]. split; [exact Hhi|]. split; [exact Hround|].
    split; [exists (Z.of_nat k); split; [lia | exact Ht]|].
    intros r log' Hp.
    destruct (pass_return_threshold _ _ _ _ _ _ _ _ _ Hp)
      as (model & s2 & changed & log2 & Hsteps & Hres).
    destruct (steps_scalars _ _ _ _ _ _ _ _ Hsteps) as (_ & Ht2 & _).
    destruct Hres as [-> | (w & Hw & ->)].
    + rewrite Ht2. exact Hg.
    + eapply tighten_on_grid; [|exact Hw]. cbn. rewrite Ht2. exact Hg.
Qed.

Lemma threshold_in_stays_on_grid_witness :
  exists s log,
    reaches env_abc 0.1 12 1 20 (init [] 0.05) [] 2 s log
    /\ threshold_in s = 0.05
    /\ (0.01 <=? threshold_in s) = true
    /\ (threshold_in s <=? 0.1) = true.
Proof.
  assert (Hr : exists s log,
             reaches env_abc 0.1 12 1 20 (init [] 0.05) [] 2 s log
             /\ threshold_in s = 0.05).
  { eexists. eexists. split.
    - apply iterate_reaches. vm_compute. reflexivity.
    - reflexivity. }
  destruct Hr as (s & log & Hr & Ht). exists s, log.
  split; [exact Hr|]. split; [exact Ht|].
  assert (Hti : on_grid 0.05).
  { apply on_grid_cent. exists 5%nat. split; [lia | reflexivity]. }
  destruct (threshold_in_stays_on_grid env_abc 0.1 12 1 20 [] 0.05 2 s log Hr)
    as (_ & Hgrid).
  destruct (Hgrid Hti) as (Hlo & Hhi & _).
  split; [exact Hlo | exact Hhi].
Defined.

(** ** The tracks and Included *)

Section Aligned.

Variable E : Env.
Variable threshold_out : float.
Variables max_vars min_vars : Z.
Variable fuel : nat.

Lemma aligned_forward s log s1 changed log1 :
  aligned s ->
  forward E s log = (Ok (s1, changed), log1) ->
  aligned s1.
Proof.
  intros [Hp Hr] H.
  destruct (forward_inv _ _ _ _ _ _ H) as [[-> _] | (f & p & r & -> & _)].
  - split; assumption.
  - unfold aligned. cbn. rewrite !length_app. cbn. lia.
Qed.

Lemma aligned_backward s changed log model s2 changed2 log2 :
  aligned s ->
  backward E threshold_out s changed log = (Ok (model, s2, changed2), log2) ->
  aligned s2
  /\ (s2 = s
      \/ exists k,
           pop k (included s) = Some (included s2)
           /\ pop k (included_pvals s) = Some (included_pvals s2)
           /\ pop k (included_rvals s) = Some (included_rvals s2)).
Proof.
  intros [Hp Hr] H.
  destruct (backward_inv _ _ _ _ _ _ _ _ _ H)
    as (_ & _ & _ & [[-> _] | (k & incl & ps & rs & Hi & Hps & Hrs & -> & _)]).
  - split; [split; assumption | left; reflexivity].
  - split.
    + apply pop_length in Hi, Hps, Hrs. unfold aligned. cbn. lia.
    + right. exists k. cbn. auto.
Qed.

Lemma aligned_steps s log model s2 changed log2 :
  aligned s ->
  steps E threshold_out s log = (Ok (model, s2, changed), log2) ->
  aligned s2
  /\ (dropped s2 = false ->
      known E (included s2) = true /\ model = fitted E (included s2)).
Proof.
  intros Ha H. destruct (steps_inv _ _ _ _ _ _ _ _ H)
    as (s1 & ch1 & log1 & Hf & Hb).
  assert (Ha1 := aligned_forward _ _ _ _ _ Ha Hf).
  split; [apply (aligned_backward _ _ _ _ _ _ _ Ha1 Hb)|].
  intros Hd.
  destruct (backward_inv _ _ _ _ _ _ _ _ _ Hb)
    as (Hk & Hm & _ & [[-> _] | (k & incl & ps & rs & _ & _ & _ & -> & _)]).
  - split; assumption.
  - discriminate Hd.
Qed.

Lemma aligned_pass s log s' log' :
  aligned s ->
  pass E threshold_out max_vars min_vars fuel s log
  = (Ok (Continue s'), log') ->
  aligned s'.
Proof.
  intros Ha Hp.
  destruct (pass_continue_inv _ _ _ _ _ _ _ _ _ Hp)
    as (model & s2 & changed & Hsteps & Hd & _).
  destruct (aligned_steps _ _ _ _ _ _ Ha Hsteps) as [Ha2 _].
  destruct (dispatch_continue_inv _ _ _ _ _ _ _ _ _ _ Hd)
    as (_ & [(_ & ->) | [(_ & _ & _ & _ & _ & ->)
                        | [(_ & ->) | (_ & _ & _ & ->)]]]);
    try exact Ha2; split; reflexivity.
Qed.

Lemma aligned_reaches ti n s log :
  reaches E threshold_out max_vars min_vars fuel (init [] ti) [] n s log ->
  aligned s.
Proof.
  intros Hr.
  remember (init [] ti) as s0 eqn:Hs0.
  remember (@nil (list string)) as log0 eqn:Hlog0.
  induction Hr as [s log | s log n sa loga sb logb Hr IH Hq].
  - subst s. split; reflexivity.
  - eapply aligned_pass; [apply IH; assumption | exact Hq].
Qed.

End Aligned.

Lemma known_firstn E (l : list string) (k : nat) :
  known E l = true -> known E (firstn k l) = true.
Proof.
  unfold known. rewrite !forallb_forall. intros H x Hx.
  apply H. rewrite <- (firstn_skipn k l). apply in_or_app. left. exact Hx.
Qed.

(** ** C3: the lengths of the tracks *)

(** C3, as stated, fails.  With [initial_list = ["a"]] the invocation
    starts with one feature in Included and empty tracks; on [env_one]
    the backward step of the first pass then pops position 0 of an empty
    track and the invocation ends in an IndexError.  And with an empty
    [initial_list], the truncation of over-capacity handling shortens
    Included and leaves the tracks: on [env_five] it leaves four features
    and tracks of five entries. *)
Lemma tracks_not_aligned :
  List.length (included (init ["a"] 0.05)) = 1%nat
  /\ List.length (included_pvals (init ["a"] 0.05)) = 0%nat
  /\ List.length (included_rvals (init ["a"] 0.05)) = 0%nat
  /\ stepwise_selection env_one 20 ["a"] 0.05 0.1 12 1 []
     = (Raise IndexError, [["a"]])
  /\ (exists s' m log,
        over_capacity env_five 4 4 20 state_five
          (fitted env_five (included state_five)) [] = (Ok (s', m), log)
        /\ List.length (included s') = 4%nat
        /\ List.length (included_pvals s') = 5%nat
        /\ List.length (included_rvals s') = 5%nat).
Proof.
  repeat split; try (vm_compute; reflexivity).
  eexists. eexists. eexists. split; [vm_compute; reflexivity|].
  repeat split.
Qed.

(** C3, amended.  In an invocation with an empty [initial_list], the
    p-value track, the r-value track and Included have the same length at
    the head of every pass, after the forward step and after the backward
    step of every pass; a backward step that removes a feature removes
    one position from Included and the same position from both tracks.
    The truncation of over-capacity handling, after which the invocation
    returns, keeps a prefix of Included and leaves both tracks as they
    are. *)
Theorem tracks_aligned_from_empty_list
    (E : Env) (threshold_out : float) (max_vars min_vars : Z) (fuel : nat)
    (ti : float) (n : nat) (s : State) (log : FitLog) :
  reaches E threshold_out max_vars min_vars fuel (init [] ti) [] n s log ->
  aligned s
  /\ (forall s1 changed1 log1,
        forward E s log = (Ok (s1, changed1), log1) ->
        aligned s1
        /\ (forall model s2 changed2 log2,
              backward E threshold_out s1 changed1 log1
              = (Ok (model, s2, changed2), log2) ->
              aligned s2
              /\ (s2 = s1
                  \/ exists k,
                       pop k (included s1) = Some (included s2)
                       /\ pop k (included_pvals s1) = Some (included_pvals s2)
                       /\ pop k (included_rvals s1)
                          = Some (included_rvals s2))
              /\ (forall s3 model3 log3,
                    over_capacity E max_vars min_vars fuel s2 model log2
                    = (Ok (s3, model3), log3) ->
                    included_pvals s3 = included_pvals s2
                    /\ included_rvals s3 = included_rvals s2
                    /\ exists k, included s3 = firstn k (included s2)))).
Proof.
  intros Hr. assert (Ha := aligned_reaches _ _ _ _ _ _ _ _ _ Hr).
  split; [exact Ha|].
  intros s1 changed1 log1 Hf.
  assert (Ha1 := aligned_forward _ _ _ _ _ _ Ha Hf).
  split; [exact Ha1|].
  intros model s2 changed2 log2 Hb.
  destruct (aligned_backward _ _ _ _ _ _ _ _ _ Ha1 Hb) as [Ha2 Hpop].
  split; [exact Ha2|]. split; [exact Hpop|].
  intros s3 model3 log3 Hoc.
  destruct (over_capacity_threshold _ _ _ _ _ _ _ _ _ _ Hoc)
    as (w & _ & _ & Hp & Hrv & Hk).
  auto.
Qed.

Lemma tracks_aligned_from_empty_list_witness :
  reaches env_abc 0.1 12 1 20 (init [] 0.05) [] 1 head_abc log_abc
  /\ aligned head_abc.
Proof.
  assert (Hr : reaches env_abc 0.1 12 1 20 (init [] 0.05) [] 1 head_abc
                 log_abc).
  { apply iterate_reaches. vm_compute. reflexivity. }
  split; [exact Hr|].
  exact (proj1 (tracks_aligned_from_empty_list env_abc 0.1 12 1 20 0.05 1
                  head_abc log_abc Hr)).
Defined.

(** Over-capacity handling is always entered with the threshold at 0.1
    and [rcond] unset: it needs that no drop has occurred. *)
Lemma over_capacity_entry E threshold_out max_vars min_vars fuel
    initial_list ti n s0 log0 model s changed log :
  reaches E threshold_out max_vars min_vars fuel (init initial_list ti) []
    n s0 log0 ->
  steps E threshold_out s0 log0 = (Ok (model, s, changed), log) ->
  dropped s = false ->
  threshold_in s = 0.1 /\ rcond s = false /\ on_grid (threshold_in s).
Proof.
  intros Hr Hsteps Hd.
  destruct (head_inv_reaches _ _ _ _ _ _ _ _ _ _ _
              (head_inv_init initial_list ti) Hr)
    as (_ & Hrc0 & Hfresh & _).
  destruct (steps_scalars _ _ _ _ _ _ _ _ Hsteps)
    as (_ & Ht & _ & Hrc & _ & Hds).
  assert (Hd0 : dropped s0 = false)
    by (destruct Hds as [<- | Hds]; congruence).
  destruct (Hfresh Hd0) as (Ht0 & _).
  assert (Hthr : threshold_in s = 0.1) by congruence.
  split; [exact Hthr|]. split; [congruence|].
  rewrite Hthr. apply on_grid_start.
Qed.

(** ** C7: the cut of over-capacity handling *)

(** C7, as stated, fails on the break that sets [rcond].  In the
    invocation on [env_five_poor] with bounds of four features, the
    tightened threshold 0.09 lets one feature pass (the prefix count is
    1, the entries at the positions 1 to 4 fail) and the loop leaves
    through that break.  Included is then cut by the mask of the r-value
    track, which has no failing entry: all five features are returned
    with the model of the backward step and no further fit, where the
    p-value track would have cut to one feature, or to four with the
    positions up to 3 discarded. *)
Lemma cut_is_not_the_pvalue_prefix :
  reaches env_five_poor 0.1 4 4 20 (init [] 0.05) [] 4 head_five log_five
  /\ steps env_five_poor 0.1 head_five log_five
     = (Ok (fitted env_five_poor (included state_five_poor),
            state_five_poor, true),
        (log_five ++ [["f1"; "f2"; "f3"; "f4"; "f5"];
                      ["f1"; "f2"; "f3"; "f4"; "f5"]])%list)
  /\ pass env_five_poor 0.1 4 4 20 head_five log_five
     = (Ok (Return (["f1"; "f2"; "f3"; "f4"; "f5"],
                    Fitted (fitted env_five_poor
                              ["f1"; "f2"; "f3"; "f4"; "f5"]), 0.1)),
        (log_five ++ [["f1"; "f2"; "f3"; "f4"; "f5"];
                      ["f1"; "f2"; "f3"; "f4"; "f5"]])%list)
  /\ pmask (included_pvals state_five_poor) 0.09
     = [true; false; false; false; false]
  /\ psize_at (included_pvals state_five_poor) 0.09 = 1%Z
  /\ rmask (included_rvals state_five_poor)
     = [true; true; true; true; true].
Proof.
  split; [apply iterate_reaches; vm_compute; reflexivity|].
  repeat split; vm_compute; reflexivity.
Qed.

(** C7, amended.  Let over-capacity handling run in an invocation with an
    empty [initial_list], [max_vars] below 999 and fuel for ten
    iterations.  The tightening loop ends, and the pass returns.
    - When the loop ends with the prefix count within the bounds, the
      count is the number of entries of the p-value track that pass the
      tightened threshold before the first one that does not; Included is
      cut to that many features, a model is fitted on them and returned.
    - When the loop ends by the break that sets [rcond], the mask is the
      one of the r-value track (r-value below 0.9).  If an entry at a
      position above 3 fails, Included is cut at the first such position,
      so at least four features are left, and a model is fitted on them
      and returned.  Otherwise Included and the model of the backward
      step are returned, and no fit is performed. *)
Theorem over_capacity_cut
    (E : Env) (threshold_out : float) (max_vars min_vars : Z) (fuel : nat)
    (ti : float) (n : nat) (s0 : State) (log0 : FitLog)
    (model : OLSResults) (s : State) (changed : bool) (log : FitLog) :
  reaches E threshold_out max_vars min_vars fuel (init [] ti) [] n s0 log0 ->
  steps E threshold_out s0 log0 = (Ok (model, s, changed), log) ->
  (size s > max_vars)%Z ->
  dropped s = false ->
  (max_vars < 999)%Z ->
  (10 <= fuel)%nat ->
  exists w m,
    tighten max_vars min_vars fuel (included_pvals s) (included_rvals s)
      (tighten_entry s) = Ok w
    /\ ends_after max_vars min_vars (included_pvals s) (included_rvals s)
         (tighten_entry s) w m
    /\ (w_rcond w = false ->
        let k := passing_prefix
                   (pmask (included_pvals s) (w_threshold_in w)) in
        (min_vars <= Z.of_nat k <= max_vars)%Z
        /\ pass E threshold_out max_vars min_vars fuel s0 log0
           = (Ok (Return (firstn k (included s),
                          Fitted (fitted E (firstn k (included s))),
                          w_threshold_in w)),
              (log ++ [firstn k (included s)])%list))
    /\ (w_rcond w = true ->
        match filter (fun i => (3 <? i)%nat)
                (where_false (rmask (included_rvals s))) with
        | [] =>
            pass E threshold_out max_vars min_vars fuel s0 log0
            = (Ok (Return (included s, Fitted model, w_threshold_in w)), log)
        | k :: _ =>
            (4 <= k < List.length (included s))%nat
            /\ nth_error (rmask (included_rvals s)) k = Some false
            /\ (forall j, (4 <= j < k)%nat ->
                  nth_error (rmask (included_rvals s)) j = Some true)
            /\ pass E threshold_out max_vars min_vars fuel s0 log0
               = (Ok (Return (firstn k (included s),
                              Fitted (fitted E (firstn k (included s))),
                              w_threshold_in w)),
                  (log ++ [firstn k (included s)])%list)
        end).
Proof.
  intros Hr Hsteps Hsize Hd Hmax Hfuel.
  assert (Hinv := head_inv_reaches _ _ _ _ _ _ _ _ _ _ _
                    (head_inv_init [] ti) Hr).
  assert (Ha0 := aligned_reaches _ _ _ _ _ _ _ _ _ Hr).
  destruct (aligned_steps _ _ _ _ _ _ _ _ Ha0 Hsteps) as [[Hap Har] Hk].
  destruct (Hk Hd) as [Hknown Hmodel].
  destruct (steps_scalars _ _ _ _ _ _ _ _ Hsteps)
    as (_ & Ht & _ & Hrc & _ & Hds).
  destruct Hinv as (_ & Hrc0 & Hfresh & _).
  assert (Hd0 : dropped s0 = false)
    by (destruct Hds as [<- | Hds]; congruence).
  destruct (Hfresh Hd0) as (Ht0 & _).
  assert (Hthr : threshold_in s = 0.1) by congruence.
  assert (Hrcs : rcond s = false) by congruence.
  assert (Hg : on_grid (threshold_in s)) by (rewrite Hthr; apply on_grid_start).
  destruct (proj1 (on_grid_cent _) Hg) as (kk & Hkk & Hcent).
  destruct (tighten_terminates max_vars min_vars (included_pvals s)
              (included_rvals s) fuel kk (tighten_entry s) Hkk
              ltac:(lia) Hcent) as [w Hw].
  assert (Htest : tighten_test max_vars (tighten_entry s) = true).
  { unfold tighten_test. cbn. rewrite orb_false_r. apply Z.gtb_lt. lia. }
  destruct (runs_end _ _ _ _ _ _ (tighten_runs _ _ _ _ _ _ _ Hw) Htest)
    as (m & Hend).
  exists w, m. split; [exact Hw|]. split; [exact Hend|].
  assert (Hpass : forall mask,
            w_mask w = Some mask ->
            pass E threshold_out max_vars min_vars fuel s0 log0
            = match cut_positions w mask with
              | [] => (Ok (Return (included s, Fitted model,
                                   w_threshold_in w)), log)
              | k :: _ =>
                  (Ok (Return (firstn k (included s),
                               Fitted (fitted E (firstn k (included s))),
                               w_threshold_in w)),
                   (log ++ [firstn k (included s)])%list)
              end).
  { intros mask Hm. unfold pass. rewrite (bind_run _ _ _ _ _ Hsteps).
    rewrite (dispatch_over_capacity _ _ _ _ _ _ _ _ Hsize Hd).
    unfold bind at 1.
    rewrite (over_capacity_unfold _ _ _ _ _ _ _ _ _ Hw Hm).
    destruct (cut_positions w mask) as [|k rest]; [reflexivity|].
    rewrite (bind_run _ _ _ _ _
               (OLS_run E _ log (known_firstn E _ k Hknown))).
    reflexivity. }
  destruct Hend as (Hm1 & Hend).
  cbn [tighten_entry w_threshold_in w_rcond w_history] in Hend.
  split.
  - intros Hrcw.
    destruct Hend as [(Hin & _ & Htw & Hmask & _) | (_ & _ & Hrc' & _)];
      [|congruence].
    rewrite <- Htw in Hin, Hmask. cbv zeta.
    unfold psize_at in Hin. rewrite prefix_size_spec in Hin.
    split; [exact Hin|].
    rewrite (Hpass _ Hmask). unfold cut_positions. rewrite Hrcw.
    unfold where_false.
    destruct (where_false_from 0 (pmask (included_pvals s) (w_threshold_in w)))
      as [|k rest] eqn:Hwf.
    + exfalso. destruct (where_false_from_nil _ _ Hwf) as (Hpp & _).
      rewrite Hpp in Hin. unfold pmask in Hin. rewrite length_map in Hin.
      unfold size in Hsize. lia.
    + destruct (where_false_from_head _ _ _ _ Hwf) as (-> & _).
      reflexivity.
  - intros Hrcw.
    destruct Hend as [(_ & Hrc' & _) | (_ & _ & _ & Hmask & _)];
      [congruence|].
    rewrite (Hpass _ Hmask). unfold cut_positions. rewrite Hrcw.
    unfold where_false.
    destruct (filter _ (where_false_from 0 (rmask (included_rvals s))))
      as [|k rest] eqn:Hwf; [reflexivity|].
    destruct (where_false_first _ _ _ _ _ Hwf) as (_ & Hk3 & Hfail & Hbefore).
    rewrite Nat.sub_0_r in Hfail. apply Nat.ltb_lt in Hk3.
    assert (Hlen : (k < List.length (included s))%nat).
    { rewrite <- Har.
      assert (Hlt : (k < List.length (rmask (included_rvals s)))%nat)
        by (apply nth_error_Some; congruence).
      unfold rmask in Hlt. rewrite length_map in Hlt. exact Hlt. }
    split; [lia|]. split; [exact Hfail|]. split; [|reflexivity].
    intros j Hj. specialize (Hbefore j ltac:(lia)).
    rewrite Nat.sub_0_r in Hbefore. apply Hbefore. apply Nat.ltb_lt. lia.
Qed.

Lemma over_capacity_cut_witness :
  exists w m,
    tighten 4 4 20 (included_pvals state_five) (included_rvals state_five)
      (tighten_entry state_five) = Ok w
    /\ ends_after 4 4 (included_pvals state_five)
         (included_rvals state_five) (tighten_entry state_five) w m.
Proof.
  assert (Hr : reaches env_five 0.1 4 4 20 (init [] 0.05) [] 4 head_five
                 log_five).
  { apply iterate_reaches. vm_compute. reflexivity. }
  assert (Hs : steps env_five 0.1 head_five log_five
               = (Ok (fitted env_five (included state_five), state_five,
                      true),
                  (log_five ++ [["f1"; "f2"; "f3"; "f4"; "f5"];
                                ["f1"; "f2"; "f3"; "f4"; "f5"]])%list)).
  { vm_compute. reflexivity. }
  destruct (over_capacity_cut env_five 0.1 4 4 20 0.05 4 head_five log_five
              _ state_five true _ Hr Hs ltac:(cbn; lia) eq_refl
              ltac:(lia) ltac:(lia))
    as (w & m & Hw & Hend & _).
  exists w, m. split; [exact Hw | exact Hend].
Defined.

(** ** How a pass returns *)

(** A pass returns from over-capacity handling, or returns Included, the
    backward model and the threshold as its two steps left them. *)
Lemma pass_return_inv E threshold_out max_vars min_vars fuel s log r log' :
  pass E threshold_out max_vars min_vars fuel s log = (Ok (Return r), log') ->
  exists model s2 changed log2,
    steps E threshold_out s log = (Ok (model, s2, changed), log2)
    /\ (((size s2 >? max_vars)%Z && negb (dropped s2) = false
         /\ r = (included s2, Fitted model, threshold_in s2)
         /\ log' = log2
         /\ ((min_vars <= size s2)%Z \/ (threshold_in s2 =? 0.1) = true))
        \/ ((size s2 > max_vars)%Z /\ dropped s2 = false
            /\ exists s3 m3,
                 over_capacity E max_vars min_vars fuel s2 model log2
                 = (Ok (s3, m3), log')
                 /\ r = (included s3, Fitted m3, threshold_in s3))).
Proof.
  unfold pass. intros H. apply bind_Ok in H.
  destruct H as ([[model s2] changed] & log2 & Hsteps & Hd).
  exists model, s2, changed, log2. split; [exact Hsteps|].
  unfold dispatch in Hd.
  destruct ((size s2 >=? min_vars)%Z && (size s2 <=? max_vars)%Z
            && negb changed) eqn:Hin.
  - apply ret_Ok in Hd. destruct Hd as [Hd ->]. inversion Hd. left.
    apply andb_prop in Hin. destruct Hin as [Hin _].
    apply andb_prop in Hin. destruct Hin as [Hge Hle].
    rewrite Z.geb_leb in Hge. apply Z.leb_le in Hge, Hle.
    split.
    + replace (size s2 >? max_vars)%Z with false; [reflexivity|].
      symmetry. rewrite Z.gtb_ltb. apply Z.ltb_ge. exact Hle.
    + repeat split. left. exact Hge.
  - destruct ((size s2 >? max_vars)%Z && negb (dropped s2)) eqn:Hoc.
    + apply bind_Ok in Hd. destruct Hd as ([s3 m3] & log3 & Hov & Hd).
      apply ret_Ok in Hd. destruct Hd as [Hd ->]. inversion Hd.
      right. apply andb_prop in Hoc. destruct Hoc as [Hs Hdr].
      apply Z.gtb_lt in Hs. apply negb_true_iff in Hdr.
      split; [lia|]. split; [exact Hdr|]. exists s3, m3.
      split; [exact Hov | reflexivity].
    + left. split; [reflexivity|].
      assert (Hstall : forall chx,
                stall min_vars s2 chx model = Return r ->
                r = (included s2, Fitted model, threshold_in s2)
                /\ ((min_vars <= size s2)%Z
                    \/ (threshold_in s2 =? 0.1) = true)).
      { intros chx. unfold stall. destruct (negb chx); [|discriminate].
        destruct ((size s2 <? min_vars)%Z && neqb (threshold_in s2) 0.1)
          eqn:Hc; [discriminate|].
        intros [= <-]. split; [reflexivity|].
        apply andb_false_iff in Hc. destruct Hc as [Hc | Hc].
        - left. apply Z.ltb_ge in Hc. exact Hc.
        - right. unfold neqb in Hc. apply negb_false_iff in Hc. exact Hc. }
      destruct (dropped s2).
      * destruct (on_dropped E max_vars min_vars s2 changed model)
          as [s3 ch3] eqn:Hon.
        apply ret_Ok in Hd. destruct Hd as [Hd ->].
        destruct (on_dropped_inv _ _ _ _ _ _ _ _ Hon)
          as [(_ & -> & ->) | [(_ & _ & _ & _ & -> & ->) | (_ & ->)]].
        -- discriminate Hd.
        -- discriminate Hd.
        -- destruct (Hstall _ Hd) as [-> Hb]. auto.
      * apply ret_Ok in Hd. destruct Hd as [Hd ->].
        destruct (Hstall _ Hd) as [-> Hb]. auto.
Qed.

(** ** C5: running the selector again on its result *)


(** The fits of the forward step do not depend on the log they extend. *)
Lemma forward_fits_log E incl excluded : forall log r log1,
  forward_fits E incl excluded log = (Ok r, log1) ->
  exists L,
    log1 = (log ++ L)%list
    /\ forall log0, forward_fits E incl excluded log0
                    = (Ok r, (log0 ++ L)%list).
Proof.
  induction excluded as [|c rest IH]; intros log r log1 H; cbn in H.
  - apply ret_Ok in H. destruct H as [<- ->]. exists [].
    split; [symmetry; apply app_nil_r|].
    intros log0. cbn. unfold ret. rewrite app_nil_r. reflexivity.
  - apply bind_Ok in H. destruct H as (m & l1 & Hols & H).
    apply OLS_Ok in Hols. destruct Hols as (Hk & -> & ->).
    apply bind_Ok in H. destruct H as (p & l2 & Hp & H).
    apply expect_Ok in Hp. destruct Hp as [Hp ->].
    apply bind_Ok in H. destruct H as ([ps rs] & l3 & Hrest & H).
    apply ret_Ok in H. destruct H as [<- ->].
    destruct (IH _ _ _ Hrest) as (L & -> & Hany).
    exists ((incl ++ [c]) :: L)%list.
    split; [rewrite <- app_assoc; reflexivity|].
    intros log0. cbn [forward_fits].
    rewrite (bind_run _ _ _ _ _ (OLS_run E _ log0 Hk)).
    unfold bind at 1. rewrite Hp. cbn [expect ret].
    rewrite (bind_run _ _ _ _ _ (Hany _)). cbn.
    unfold ret. rewrite <- app_assoc. reflexivity.
Qed.

(** Two steps that change nothing depend on Included and on the
    threshold only. *)
Lemma steps_unchanged E threshold_out s log model s2 log' :
  steps E threshold_out s log = (Ok (model, s2, false), log') ->
  s2 = s
  /\ exists L,
       log' = (log ++ L)%list
       /\ forall s' log0,
            included s' = included s ->
            threshold_in s' = threshold_in s ->
            steps E threshold_out s' log0
            = (Ok (model, s', false), (log0 ++ L)%list).
Proof.
  intros H.
  destruct (steps_inv _ _ _ _ _ _ _ _ H) as (s1 & ch1 & log1 & Hf & Hb).
  assert (Hch : ch1 = false /\ s2 = s1).
  { destruct (backward_inv _ _ _ _ _ _ _ _ _ Hb)
      as (_ & _ & _ & [[-> ->] | (k & incl & ps & rs & _ & _ & _ & _ & Hc)]);
      [split; reflexivity | discriminate Hc]. }
  destruct Hch as [-> ->].
  assert (Hs1 : s1 = s).
  { destruct (forward_inv _ _ _ _ _ _ Hf)
      as [[-> _] | (f & p & r & _ & Hc & _)];
      [reflexivity | discriminate Hc]. }
  subst s1. split; [reflexivity|].
  unfold forward in Hf. apply bind_Ok in Hf.
  destruct Hf as ([ps rs] & l1 & Hfits & Hf).
  destruct (forward_fits_log _ _ _ _ _ _ Hfits) as (L & -> & Hany).
  destruct (Series.min ps <? threshold_in s) eqn:Hlt.
  { apply bind_Ok in Hf. destruct Hf as (ix & l2 & _ & Hf).
    apply bind_Ok in Hf. destruct Hf as (bf & l3 & _ & Hf).
    apply bind_Ok in Hf. destruct Hf as (r & l4 & _ & Hf).
    apply ret_Ok in Hf. destruct Hf as [Hf _]. inversion Hf. }
  apply ret_Ok in Hf. destruct Hf as [_ ->].
  unfold backward in Hb. apply bind_Ok in Hb.
  destruct Hb as (m & l2 & Hols & Hb).
  apply OLS_Ok in Hols. destruct Hols as (Hk & -> & ->).
  destruct (gtb (Series.max (map snd (tl (pvalues (fitted E (included s))))))
              threshold_out) eqn:Hgt.
  { apply bind_Ok in Hb. destruct Hb as (x1 & l3 & _ & Hb).
    apply bind_Ok in Hb. destruct Hb as (x2 & l4 & _ & Hb).
    apply bind_Ok in Hb. destruct Hb as (x3 & l5 & _ & Hb).
    apply bind_Ok in Hb. destruct Hb as (x4 & l6 & _ & Hb).
    apply bind_Ok in Hb. destruct Hb as (x5 & l7 & _ & Hb).
    apply bind_Ok in Hb. destruct Hb as (x6 & l8 & _ & Hb).
    apply ret_Ok in Hb. destruct Hb as [Hb _]. inversion Hb. }
  apply ret_Ok in Hb. destruct Hb as [Hb ->]. inversion Hb; subst model.
  exists (L ++ [included s])%list. split; [symmetry; apply app_assoc|].
  intros s' log0 Hincl Hthr.
  assert (Hfwd : forward E s' log0 = (Ok (s', false), (log0 ++ L)%list)).
  { unfold forward. rewrite Hincl, Hthr.
    rewrite (bind_run _ _ _ _ _ (Hany log0)). cbv beta iota.
    rewrite Hlt. reflexivity. }
  unfold steps. rewrite (bind_run _ _ _ _ _ Hfwd). cbv beta iota.
  unfold backward. rewrite Hincl.
  rewrite (bind_run _ _ _ _ _ (OLS_run E _ _ Hk)). cbv beta zeta.
  rewrite Hgt. unfold ret. rewrite app_assoc. reflexivity.
Qed.

(** The tightening loop on empty tracks, as a call with a non-empty
    [initial_list] leaves them: it ends with an empty mask. *)
Lemma tighten_empty_tracks max_vars min_vars fuel (s : State) :
  (max_vars < 999)%Z -> (10 <= fuel)%nat ->
  threshold_in s = 0.1 ->
  exists w,
    tighten max_vars min_vars fuel [] [] (tighten_entry s) = Ok w
    /\ w_mask w = Some [].
Proof.
  intros Hmax Hfuel Ht.
  destruct (tighten_terminates max_vars min_vars [] [] fuel 10
              (tighten_entry s)) as (w & Hw);
    [lia | exact Hfuel | cbn; rewrite Ht; reflexivity|].
  exists w. split; [exact Hw|].
  assert (Htest : tighten_test max_vars (tighten_entry s) = true).
  { unfold tighten_test, tighten_entry. cbn.
    replace (999 >? max_vars)%Z with true; [reflexivity|].
    symmetry. apply Z.gtb_lt. lia. }
  destruct (runs_end _ _ _ _ _ _ (tighten_runs _ _ _ _ _ _ _ Hw) Htest)
    as (n & _ & [(_ & _ & _ & Hm & _) | (_ & _ & _ & Hm & _)]);
    exact Hm.
Qed.



(** ** C9: the candidate the forward step chooses *)

(** C9, as stated, fails.  Two candidates of [env_tie] share the minimum
    p-value 0.03.  The data and the fitter being the same, the forward
    step adds [a] when the set of excluded columns is iterated as
    [a, b], and [b] when it is iterated as [b, a]; the lists returned
    differ as well. *)
Lemma tie_follows_set_order :
  env_tie (@rev string) = with_set_iter (env_tie (fun l => l)) (@rev string)
  /\ (exists s1 log1,
        forward (env_tie (fun l => l)) (init [] 0.05) []
        = (Ok (s1, true), log1)
        /\ included s1 = ["a"])
  /\ (exists s1 log1,
        forward (env_tie (@rev string)) (init [] 0.05) []
        = (Ok (s1, true), log1)
        /\ included s1 = ["b"])
  /\ (exists m log,
        stepwise_selection (env_tie (fun l => l)) 20 [] 0.05 0.1 12 1 []
        = (Ok (["a"; "b"], m, 0.1), log))
  /\ (exists m log,
        stepwise_selection (env_tie (@rev string)) 20 [] 0.05 0.1 12 1 []
        = (Ok (["b"; "a"], m, 0.1), log)).
Proof.
  split; [reflexivity|].
  repeat split; eexists; eexists; try split; vm_compute; reflexivity.
Qed.

Section ForwardChoice.

Variable E : Env.
Variable incl : list string.

Lemma get_cons (k : string) (v : float) (r : list (string * float))
    (c : string) :
  Series.get ((k, v) :: r) c
  = if String.eqb k c then Some v else Series.get r c.
Proof. reflexivity. Qed.

Lemma get_labelled (g : string -> float) (l : list string) (c : string) :
  In c l -> Series.get (map (fun c0 => (c0, g c0)) l) c = Some (g c).
Proof.
  induction l as [|h t IH]; intros Hc; [destruct Hc|].
  cbn [map]. rewrite get_cons.
  destruct (String.eqb_spec h c) as [-> | Hne]; [reflexivity|].
  destruct Hc as [Hc | Hc]; [congruence | apply IH, Hc].
Qed.

Lemma get_fitted (cols : list string) (c : string) :
  In c cols ->
  Series.get (pvalues (fitted E cols)) c = Some (coef_pvalue E cols c).
Proof.
  intros Hc. unfold fitted. cbn [pvalues]. rewrite get_cons.
  destruct (String.eqb_spec "const" c) as [<- | _]; [reflexivity|].
  apply get_labelled, Hc.
Qed.

(** The Series of the forward step hold, candidate by candidate, the
    recorded p-value and r-value. *)
Lemma forward_fits_Ok excluded : forall log ps rs log1,
  forward_fits E incl excluded log = (Ok (ps, rs), log1) ->
  ps = map (forward_pvalue E incl) excluded
  /\ rs = map (forward_rvalue E incl) excluded
  /\ forall c, In c excluded -> known E (incl ++ [c]) = true.
Proof.
  induction excluded as [|c rest IH]; intros log ps rs log1 H; cbn in H.
  - apply ret_Ok in H. destruct H as [H _]. inversion H.
    repeat split. intros c [].
  - apply bind_Ok in H. destruct H as (m & l1 & Hols & H).
    apply OLS_Ok in Hols. destruct Hols as (Hk & -> & ->).
    apply bind_Ok in H. destruct H as (p & l2 & Hp & H).
    apply expect_Ok in Hp. destruct Hp as [Hp ->].
    rewrite get_fitted in Hp by (apply in_or_app; right; left; reflexivity).
    inversion Hp; subst p.
    apply bind_Ok in H. destruct H as ([ps' rs'] & l3 & Hrest & H).
    apply ret_Ok in H. destruct H as [H _]. inversion H; subst.
    destruct (IH _ _ _ _ Hrest) as (-> & -> & Hall).
    repeat split. intros c' [<- | Hc']; [exact Hk | apply Hall, Hc'].
Qed.

Lemma forward_fits_run excluded : forall log,
  (forall c, In c excluded -> known E (incl ++ [c]) = true) ->
  exists log1,
    forward_fits E incl excluded log
    = (Ok (map (forward_pvalue E incl) excluded,
           map (forward_rvalue E incl) excluded), log1).
Proof.
  induction excluded as [|c rest IH]; intros log Hall; cbn.
  - eexists. reflexivity.
  - rewrite (bind_run _ _ _ _ _
               (OLS_run E _ log (Hall c (or_introl eq_refl)))).
    unfold bind at 1.
    rewrite get_fitted by (apply in_or_app; right; left; reflexivity).
    cbn [expect ret].
    destruct (IH (log ++ [incl ++ [c]])%list
                (fun c' Hc' => Hall c' (or_intror Hc'))) as [log1 Hrest].
    rewrite (bind_run _ _ _ _ _ Hrest). eexists. reflexivity.
Qed.

End ForwardChoice.

Lemma forward_fits_order E order incl excluded log :
  forward_fits (with_set_iter E order) incl excluded log
  = forward_fits E incl excluded log.
Proof. reflexivity. Qed.

(** C9, amended.  For a given iteration order of the set of excluded
    columns, a forward step that adds a feature adds the first candidate,
    in that order, whose p-value is the minimum: its p-value is a number
    below the threshold, no candidate has a smaller one, and every
    candidate before it has a NaN or a larger one.  When no other
    candidate shares that minimum, the step adds the same feature, with
    the same track entries, under every other iteration order of the same
    set. *)
Theorem forward_adds_first_minimum
    (E : Env) (order' : list string -> list string) (s : State)
    (log : FitLog) (s1 : State) (log1 : FitLog) :
  forward E s log = (Ok (s1, true), log1) ->
  Permutation (order' (set_difference (columns E) (included s)))
    (set_iter E (set_difference (columns E) (included s))) ->
  exists i best_feature,
    nth_error (set_iter E (set_difference (columns E) (included s))) i
    = Some best_feature
    /\ s1 = set_lists s (included s ++ [best_feature])%list
              (included_pvals s
                 ++ [forward_pvalue E (included s) best_feature])%list
              (included_rvals s
                 ++ [forward_rvalue E (included s) best_feature])%list
    /\ is_nan (forward_pvalue E (included s) best_feature) = false
    /\ (forward_pvalue E (included s) best_feature <? threshold_in s) = true
    /\ (forall c,
          In c (set_iter E (set_difference (columns E) (included s))) ->
          (forward_pvalue E (included s) c
           <? forward_pvalue E (included s) best_feature) = false)
    /\ (forall j c, (j < i)%nat ->
          nth_error (set_iter E (set_difference (columns E) (included s))) j
          = Some c ->
          is_nan (forward_pvalue E (included s) c) = true
          \/ (forward_pvalue E (included s) best_feature
              <? forward_pvalue E (included s) c) = true)
    /\ ((forall c,
           In c (set_iter E (set_difference (columns E) (included s))) ->
           c <> best_feature ->
           is_nan (forward_pvalue E (included s) c) = true
           \/ (forward_pvalue E (included s) best_feature
               <? forward_pvalue E (included s) c) = true) ->
        exists log1',
          forward (with_set_iter E order') s log = (Ok (s1, true), log1')).
Proof.
  intros H Hperm.
  set (excluded := set_iter E (set_difference (columns E) (included s)))
    in *.
  set (pv := forward_pvalue E (included s)).
  set (rv := forward_rvalue E (included s)).
  unfold forward in H. fold excluded in H.
  apply bind_Ok in H. destruct H as ([ps rs] & l1 & Hfits & H).
  destruct (forward_fits_Ok _ _ _ _ _ _ _ Hfits) as (Hps & Hrs & Hknown).
  fold pv in Hps. fold rv in Hrs. subst ps rs.
  destruct (Series.min (map pv excluded) <? threshold_in s) eqn:Hlt;
    [|apply ret_Ok in H; destruct H as [H _]; inversion H].
  apply bind_Ok in H. destruct H as (ix & l2 & Hix & H).
  apply expect_Ok in Hix. destruct Hix as [Hix ->].
  apply bind_Ok in H. destruct H as (bf & l3 & Hbf & H).
  apply expect_Ok in Hbf. destruct Hbf as [Hbf ->].
  apply bind_Ok in H. destruct H as (r & l4 & Hr & H).
  apply expect_Ok in Hr. destruct Hr as [Hr ->].
  apply ret_Ok in H. destruct H as [H ->]. inversion H as [Hs1]. clear H.
  destruct (series_min_below _ _ Hlt)
    as (i & Harg & Hnth & Hnan & Hlow & Hfirst).
  rewrite Hix in Harg. inversion Harg; subst i. clear Harg.
  assert (Hmin : Series.min (map pv excluded) = pv bf).
  { rewrite nth_error_map, Hbf in Hnth. cbn [option_map] in Hnth.
    injection Hnth as Heq. symmetry. exact Heq. }
  assert (Hrbf : r = rv bf).
  { rewrite nth_error_map, Hbf in Hr. cbn [option_map] in Hr.
    injection Hr as Heq. symmetry. exact Heq. }
  rewrite Hmin in *. subst r.
  exists ix, bf. split; [exact Hbf|]. split; [reflexivity|].
  split; [exact Hnan|]. split; [exact Hlt|].
  assert (Hbelow : forall c, In c excluded -> (pv c <? pv bf) = false).
  { intros c Hc. destruct (is_nan (pv c)) eqn:Hcn.
    - apply FloatFacts.ltb_is_nan_l, Hcn.
    - apply Hlow; [|exact Hcn]. apply in_map, Hc. }
  split; [exact Hbelow|]. split.
  - intros j c Hj Hc. destruct (is_nan (pv c)) eqn:Hcn; [left; reflexivity|].
    right. apply (Hfirst j (pv c) Hj); [|exact Hcn].
    rewrite nth_error_map, Hc. reflexivity.
  - intros Huniq.
    set (excluded' := order' (set_difference (columns E) (included s))).
    assert (Hin' : forall c, In c excluded' -> In c excluded)
      by (intros c; apply Permutation_in, Hperm).
    assert (Hbf' : In bf excluded').
    { apply (Permutation_in _ (Permutation_sym Hperm)).
      eapply nth_error_In; eauto. }
    destruct (forward_fits_run E (included s) excluded' log
                (fun c Hc => Hknown c (Hin' c Hc))) as [log1' Hfits'].
    fold pv in Hfits'. fold rv in Hfits'.
    assert (Hsel : exists i',
               Series.arg_from PrimFloat.ltb 0 None (map pv excluded')
               = Some (i', pv bf)
               /\ nth_error excluded' i' = Some bf).
    { destruct (Series.arg_from PrimFloat.ltb 0 None (map pv excluded'))
        as [[i' v']|] eqn:Harg'.
      - destruct (arg_from_found _ _ _ _ _ _ Harg')
          as [Hc | (_ & Hn' & Hv')]; [discriminate|].
        rewrite Nat.sub_0_r, nth_error_map in Hn'.
        destruct (nth_error excluded' i') as [c'|] eqn:Hc'; [|discriminate].
        cbn [option_map] in Hn'. injection Hn' as <-.
        destruct (arg_from_extremal _ FloatFacts.ltb_asym
                    FloatFacts.ltb_trans _ _ _ _ _ Harg') as [Hext _].
        assert (Hno : (pv bf <? pv c') = false)
          by (apply Hext; [apply in_map, Hbf' | exact Hnan]).
        destruct (string_dec c' bf) as [-> | Hne]; [eauto|].
        exfalso.
        destruct (Huniq c' (Hin' _ (nth_error_In _ _ Hc')) Hne); congruence.
      - exfalso.
        rewrite (arg_from_None _ _ _ Harg' (pv bf) (in_map pv _ _ Hbf'))
          in Hnan.
        discriminate. }
    destruct Hsel as (i' & Harg' & Hc').
    exists log1'. unfold forward.
    change (set_iter (with_set_iter E order')
              (set_difference (columns (with_set_iter E order'))
                 (included s))) with excluded'.
    rewrite (bind_run _ _ _ _ _ Hfits'). cbv beta iota.
    unfold Series.min, Series.argmin. rewrite Harg'.
    cbn [Series.value_of option_map fst]. rewrite Hlt.
    unfold bind, expect, ret. rewrite Hc', nth_error_map, Hc'.
    cbn [option_map]. rewrite Hs1. reflexivity.
Qed.

Lemma forward_adds_first_minimum_witness :
  exists s1 log1',
    forward env_abc (init [] 0.05) [] = (Ok (s1, true), [["a"]; ["b"]; ["c"]])
    /\ included s1 = ["a"]
    /\ forward (with_set_iter env_abc (@rev string)) (init [] 0.05) []
       = (Ok (s1, true), log1').
Proof.
  assert (Hf : forward env_abc (init [] 0.05) []
               = (Ok (set_lists (init [] 0.05) ["a"] [0.01] [0.5], true),
                  [["a"]; ["b"]; ["c"]])) by (vm_compute; reflexivity).
  assert (Hperm : Permutation
                    (rev (set_difference (columns env_abc)
                            (included (init [] 0.05))))
                    (set_iter env_abc
                       (set_difference (columns env_abc)
                          (included (init [] 0.05)))))
    by (apply Permutation_sym, Permutation_rev).
  destruct (forward_adds_first_minimum env_abc (@rev string) (init [] 0.05)
              [] _ _ Hf Hperm)
    as (i & bf & Hbf & _ & _ & _ & Hlow & _ & Huniq).
  exists (set_lists (init [] 0.05) ["a"] [0.01] [0.5]).
  assert (Ha : bf = "a").
  { assert (Hla := Hlow "a" (or_introl eq_refl)).
    apply nth_error_In in Hbf.
    destruct Hbf as [<- | [<- | [<- | []]]];
      [reflexivity | vm_compute in Hla; discriminate Hla
      | vm_compute in Hla; discriminate Hla]. }
  subst bf.
  destruct Huniq as [log1' Hrun].
  - intros c [<- | [<- | [<- | []]]] Hne;
      [congruence | right; vm_compute; reflexivity
      | right; vm_compute; reflexivity].
  - exists log1'. split; [exact Hf|]. split; [reflexivity | exact Hrun].
Defined.

(** * Further properties of the code *)

(** ** Extrema and bounds *)

(** The minimum is below a bound exactly when some entry is. *)
Lemma series_min_below_iff (l : list float) (t : float) :
  (Series.min l <? t) = true <-> exists v, In v l /\ (v <? t) = true.
Proof.
  split.
  - intros H. destruct (series_min_below _ _ H) as (i & _ & Hn & _).
    exists (Series.min l). split; [eapply nth_error_In; eauto | exact H].
  - intros (v & Hv & Hlt).
    assert (Hvn : is_nan v = false).
    { destruct (is_nan v) eqn:Hn; [|reflexivity].
      rewrite (FloatFacts.ltb_is_nan_l _ t Hn) in Hlt. discriminate. }
    unfold Series.min.
    destruct (Series.arg_from PrimFloat.ltb 0 None l) as [[i m]|] eqn:Harg.
    + cbn. destruct (arg_from_found _ _ _ _ _ _ Harg)
        as [Hc | (_ & _ & Hmn)]; [discriminate|].
      destruct (arg_from_extremal _ FloatFacts.ltb_asym FloatFacts.ltb_trans
                  _ _ _ _ _ Harg) as [Hext _].
      destruct (FloatFacts.ltb_cotrans _ m _ Hlt Hmn) as [Hc | Hm];
        [|exact Hm].
      rewrite (Hext v Hv Hvn) in Hc. discriminate.
    + rewrite (arg_from_None _ _ _ Harg v Hv) in Hvn. discriminate.
Qed.

(** The maximum is above a bound exactly when some entry is. *)
Lemma series_max_above_iff (l : list float) (t : float) :
  gtb (Series.max l) t = true <-> exists v, In v l /\ gtb v t = true.
Proof.
  split.
  - intros H. destruct (series_max_above _ _ H) as (i & _ & Hn & _).
    exists (Series.max l). split; [eapply nth_error_In; eauto | exact H].
  - intros (v & Hv & Hgt).
    assert (Hvn : is_nan v = false).
    { destruct (is_nan v) eqn:Hn; [|reflexivity]. unfold gtb in Hgt.
      rewrite (FloatFacts.ltb_is_nan_r t _ Hn) in Hgt. discriminate. }
    unfold Series.max.
    destruct (Series.arg_from gtb 0 None l) as [[i m]|] eqn:Harg.
    + cbn. destruct (arg_from_found _ _ _ _ _ _ Harg)
        as [Hc | (_ & _ & Hmn)]; [discriminate|].
      destruct (arg_from_extremal _ gtb_asym gtb_trans _ _ _ _ _ Harg)
        as [Hext _].
      destruct (gtb_cotrans _ m _ Hgt Hmn) as [Hc | Hm]; [|exact Hm].
      rewrite (Hext v Hv Hvn) in Hc. discriminate.
    + rewrite (arg_from_None _ _ _ Harg v Hv) in Hvn. discriminate.
Qed.

(** ** X1: the prefix count of a mask *)

(** X1. The count of lines 93-96 (and 97-100) is the number of leading
    passing entries of the mask: it is at most the length of the mask,
    every entry before it passes, and the entry at it, if there is one,
    fails. *)
Theorem prefix_size_counts_leading_passes (mask : list bool) :
  exists k,
    prefix_size mask = Z.of_nat k
    /\ (k <= List.length mask)%nat
    /\ (forall j, (j < k)%nat -> nth_error mask j = Some true)
    /\ ((k < List.length mask)%nat -> nth_error mask k = Some false).
Proof.
  exists (passing_prefix mask). split; [apply prefix_size_spec|].
  split; [apply passing_prefix_le|]. apply passing_prefix_spec.
Qed.

(** ** X2: lowering and raising the threshold *)

(** X2. On the thresholds 0.01, ..., 0.10 the lowering of lines 85 and
    151 and the raising of lines 123-125 and 167 undo each other: raising
    a lowered threshold gives it back unless it was 0.01, lowering a
    raised one gives it back unless it was 0.10; 0.01 is not lowered and
    0.10 is not raised.  Rounding leaves no drift. *)
Theorem lowering_and_raising_undo (t : float) :
  on_grid t ->
  ((t =? 0.01) = false -> raised (lowered t) = t)
  /\ ((t =? 0.1) = false -> lowered (raised t) = t)
  /\ ((t =? 0.01) = true -> lowered t = t)
  /\ ((t =? 0.1) = true -> raised t = t).
Proof.
  rewrite on_grid_cent. intros (k & Hk & ->).
  do 11 (destruct k as [|k];
         [try lia; repeat split; intros H;
          try reflexivity; try (vm_compute in H; discriminate H)|]).
  lia.
Qed.

Lemma lowering_and_raising_undo_witness :
  on_grid 0.05 /\ raised (lowered 0.05) = 0.05 /\ lowered (raised 0.05) = 0.05.
Proof.
  assert (Hg : on_grid 0.05).
  { apply on_grid_cent. exists 5%nat. split; [lia | reflexivity]. }
  split; [exact Hg|].
  destruct (lowering_and_raising_undo 0.05 Hg) as (H1 & H2 & _).
  split; [apply H1 | apply H2]; reflexivity.
Defined.

(** ** X3, X4, X5: when the steps add and drop, and what they fit *)

(** The log of the forward fits: one design per excluded column. *)
Lemma forward_fits_designs E incl excluded : forall log r log1,
  forward_fits E incl excluded log = (Ok r, log1) ->
  log1 = (log ++ map (fun c => incl ++ [c]) excluded)%list.
Proof.
  induction excluded as [|c rest IH]; intros log r log1 H; cbn in H.
  - apply ret_Ok in H. destruct H as [_ ->]. cbn.
    symmetry. apply app_nil_r.
  - apply bind_Ok in H. destruct H as (m & l1 & Hols & H).
    apply OLS_Ok in Hols. destruct Hols as (_ & _ & ->).
    apply bind_Ok in H. destruct H as (p & l2 & Hp & H).
    apply expect_Ok in Hp. destruct Hp as [_ ->].
    apply bind_Ok in H. destruct H as ([ps rs] & l3 & Hrest & H).
    apply ret_Ok in H. destruct H as [_ ->].
    rewrite (IH _ _ _ Hrest). cbn [map]. rewrite <- app_assoc. reflexivity.
Qed.

(** X3. A forward step that completes adds a feature exactly when some
    excluded column has a forward p-value below [threshold_in]; when none
    has, the state is left as it is.  (A NaN p-value is below nothing.) *)
Theorem forward_adds_iff_below
    (E : Env) (s : State) (log : FitLog) (s1 : State) (changed : bool)
    (log1 : FitLog) :
  forward E s log = (Ok (s1, changed), log1) ->
  (changed = true <->
   exists c,
     In c (set_iter E (set_difference (columns E) (included s)))
     /\ (forward_pvalue E (included s) c <? threshold_in s) = true)
  /\ (changed = false -> s1 = s)
  /\ (changed = true ->
      List.length (included s1) = S (List.length (included s))).
Proof.
  intros H.
  assert (Hinv := forward_inv _ _ _ _ _ _ H).
  unfold forward in H.
  apply bind_Ok in H. destruct H as ([ps rs] & l1 & Hfits & H).
  destruct (forward_fits_Ok _ _ _ _ _ _ _ Hfits) as (-> & _ & _).
  set (excluded := set_iter E (set_difference (columns E) (included s)))
    in *.
  assert (Hiff : (Series.min (map (forward_pvalue E (included s)) excluded)
                  <? threshold_in s) = true
                 <-> exists c, In c excluded
                       /\ (forward_pvalue E (included s) c
                           <? threshold_in s) = true).
  { rewrite series_min_below_iff. split.
    - intros (v & Hv & Hlt). apply in_map_iff in Hv.
      destruct Hv as (c & <- & Hc). eauto.
    - intros (c & Hc & Hlt). exists (forward_pvalue E (included s) c).
      split; [apply in_map, Hc | exact Hlt]. }
  destruct (Series.min _ <? threshold_in s) eqn:Hlt.
  - apply bind_Ok in H. destruct H as (x1 & l2 & _ & H).
    apply bind_Ok in H. destruct H as (x2 & l3 & _ & H).
    apply bind_Ok in H. destruct H as (x3 & l4 & _ & H).
    apply ret_Ok in H. destruct H as [H _]. inversion H; subst.
    split; [|split].
    + split; intros _; [apply Hiff|]; reflexivity.
    + discriminate.
    + intros _. cbn. rewrite length_app. cbn. lia.
  - apply ret_Ok in H. destruct H as [H _]. inversion H; subst.
    split; [|split].
    + split; [discriminate|]. intros Hex. apply Hiff in Hex. discriminate.
    + reflexivity.
    + discriminate.
Qed.

Lemma forward_adds_iff_below_witness :
  exists s1,
    forward env_abc (init [] 0.05) [] = (Ok (s1, true), [["a"]; ["b"]; ["c"]])
    /\ exists c,
         In c (set_iter env_abc
                 (set_difference (columns env_abc)
                    (included (init [] 0.05))))
         /\ (forward_pvalue env_abc (included (init [] 0.05)) c
             <? threshold_in (init [] 0.05)) = true.
Proof.
  eexists. assert (Hf : forward env_abc (init [] 0.05) []
                        = (Ok (set_lists (init [] 0.05) ["a"] [0.01] [0.5],
                               true), [["a"]; ["b"]; ["c"]]))
    by (vm_compute; reflexivity).
  split; [exact Hf|].
  destruct (forward_adds_iff_below env_abc (init [] 0.05) [] _ true _ Hf)
    as (Hiff & _).
  apply Hiff. reflexivity.
Defined.

(** The backward step is its fit followed by the rest of the step on the
    model of that fit. *)
Lemma backward_after_fit E threshold_out s changed log :
  backward E threshold_out s changed log
  = bind (OLS E (included s))
      (fun model =>
         bind (backward_on threshold_out model s changed)
           (fun x => ret (model, fst x, snd x))) log.
Proof.
  unfold backward, backward_on, bind.
  destruct (OLS E (included s) log) as [[m|e|] l]; try reflexivity.
  destruct (gtb (Series.max (map snd (tl (pvalues m)))) threshold_out);
    [|reflexivity].
  destruct (Series.argmax (map snd (tl (pvalues m)))) as [i|];
    [|reflexivity].
  cbn [expect]. unfold ret.
  destruct (nth_error (map fst (tl (pvalues m))) i) as [f|]; [|reflexivity].
  cbn [expect]. unfold ret.
  destruct (index f (included s)) as [k|]; [|reflexivity].
  cbn [expect]. unfold ret.
  destruct (pop k (included_pvals s)) as [ps|]; [|reflexivity].
  cbn [expect]. unfold ret.
  destruct (pop k (included_rvals s)) as [rs|]; [|reflexivity].
  cbn [expect]. unfold ret.
  destruct (remove f (included s)) as [incl|]; reflexivity.
Qed.

(** X4. Whatever p-value Series the model of line 63 has, the rest of a
    backward step that completes performs no fit and removes a feature
    exactly when some entry of that Series after the first one is above
    [threshold_out] (NaN is above nothing): then one position leaves
    Included, and [changed] and [dropped] are set; otherwise the state
    and [changed] are left as they are.  The first entry is the
    intercept's when [sm.add_constant] has added one.  The backward step
    is its fit followed by this. *)
Theorem backward_drops_iff_above
    (threshold_out : float) (model : OLSResults) (s : State)
    (changed : bool) (log : FitLog) (s2 : State) (changed2 : bool)
    (log2 : FitLog) :
  backward_on threshold_out model s changed log = (Ok (s2, changed2), log2) ->
  log2 = log
  /\ ((exists v, In v (map snd (tl (pvalues model)))
                 /\ gtb v threshold_out = true) ->
      (exists k, pop k (included s) = Some (included s2))
      /\ changed2 = true /\ dropped s2 = true)
  /\ ((forall v, In v (map snd (tl (pvalues model))) ->
         gtb v threshold_out = false) ->
      s2 = s /\ changed2 = changed)
  /\ (forall E log0,
        backward E threshold_out s changed log0
        = bind (OLS E (included s))
            (fun m =>
               bind (backward_on threshold_out m s changed)
                 (fun x => ret (m, fst x, snd x))) log0).
Proof.
  intros H.
  cut (log2 = log
       /\ ((exists v, In v (map snd (tl (pvalues model)))
                      /\ gtb v threshold_out = true) ->
           (exists k, pop k (included s) = Some (included s2))
           /\ changed2 = true /\ dropped s2 = true)
       /\ ((forall v, In v (map snd (tl (pvalues model))) ->
              gtb v threshold_out = false) ->
           s2 = s /\ changed2 = changed)).
  { intros (H1 & H2 & H3). repeat split; auto.
    - apply H2; assumption.
    - apply H2; assumption.
    - apply H2; assumption.
    - apply H3; assumption.
    - apply H3; assumption.
    - intros E log0. apply backward_after_fit. }
  unfold backward_on in H.
  pose proof (series_max_above_iff (map snd (tl (pvalues model)))
                threshold_out) as Hiff.
  destruct (gtb (Series.max (map snd (tl (pvalues model)))) threshold_out)
    eqn:Hgt.
  - apply bind_Ok in H. destruct H as (x1 & l2 & H1 & H).
    apply expect_Ok in H1. destruct H1 as [_ ->].
    apply bind_Ok in H. destruct H as (x2 & l3 & H2 & H).
    apply expect_Ok in H2. destruct H2 as [_ ->].
    apply bind_Ok in H. destruct H as (x3 & l4 & Hidx & H).
    apply expect_Ok in Hidx. destruct Hidx as [Hidx ->].
    apply bind_Ok in H. destruct H as (x4 & l5 & H4 & H).
    apply expect_Ok in H4. destruct H4 as [_ ->].
    apply bind_Ok in H. destruct H as (x5 & l6 & H5 & H).
    apply expect_Ok in H5. destruct H5 as [_ ->].
    apply bind_Ok in H. destruct H as (x6 & l7 & Hrem & H).
    apply expect_Ok in Hrem. destruct Hrem as [Hrem ->].
    rewrite (remove_is_pop _ _ _ Hidx) in Hrem.
    apply ret_Ok in H. destruct H as [H ->]. inversion H; subst.
    split; [reflexivity|]. split.
    + intros _. split; [exists x3; exact Hrem | split; reflexivity].
    + intros Hall. exfalso. destruct (proj1 Hiff eq_refl) as (v & Hv & Hg).
      rewrite (Hall v Hv) in Hg. discriminate.
  - apply ret_Ok in H. destruct H as [H ->]. inversion H; subst.
    split; [reflexivity|]. split.
    + intros Hex. apply Hiff in Hex. discriminate.
    + intros _. split; reflexivity.
Qed.

Lemma backward_drops_iff_above_witness :
  exists s2 k,
    backward_on 0.1 (fitted env_abc ["a"; "b"]) state_ab true []
    = (Ok (s2, true), [])
    /\ pop k (included state_ab) = Some (included s2)
    /\ dropped s2 = true.
Proof.
  assert (Hb : backward_on 0.1 (fitted env_abc ["a"; "b"]) state_ab true []
               = (Ok (set_lists (set_dropped state_ab true) ["b"] [0.02]
                        [0.5], true), []))
    by (vm_compute; reflexivity).
  destruct (backward_drops_iff_above 0.1 _ state_ab true [] _ _ _ Hb)
    as (_ & Hdrop & _ & _).
  destruct Hdrop as ((k & Hk) & _ & Hd).
  - exists 0.3%float. split; [vm_compute; auto | vm_compute; reflexivity].
  - eexists. exists k. split; [exact Hb|]. split; [exact Hk | exact Hd].
Defined.

(** X5. The two steps of a pass that complete perform one fit for every
    excluded column, on Included and that column, in the iteration order
    of the set, and then one fit on Included as the forward step left
    it: the number of fits of a pass is the number of excluded columns
    plus one. *)
Theorem steps_fit_each_candidate_once
    (E : Env) (threshold_out : float) (s : State) (log : FitLog)
    (model : OLSResults) (s2 : State) (changed : bool) (log2 : FitLog) :
  steps E threshold_out s log = (Ok (model, s2, changed), log2) ->
  exists s1 changed1,
    forward E s log
    = (Ok (s1, changed1),
       (log ++ map (fun c => included s ++ [c])
                 (set_iter E (set_difference (columns E) (included s))))%list)
    /\ log2
       = (log ++ map (fun c => included s ++ [c])
                   (set_iter E (set_difference (columns E) (included s)))
              ++ [included s1])%list
    /\ model = fitted E (included s1)
    /\ List.length log2
       = (List.length log
          + List.length
              (set_iter E (set_difference (columns E) (included s)))
          + 1)%nat.
Proof.
  intros H.
  destruct (steps_inv _ _ _ _ _ _ _ _ H) as (s1 & ch1 & log1 & Hf & Hb).
  assert (Hlog1 : log1 = (log ++ map (fun c => included s ++ [c])
                            (set_iter E (set_difference (columns E)
                                           (included s))))%list).
  { unfold forward in Hf. apply bind_Ok in Hf.
    destruct Hf as ([ps rs] & l1 & Hfits & Hf).
    apply forward_fits_designs in Hfits. subst l1.
    destruct (Series.min ps <? threshold_in s).
    - apply bind_Ok in Hf. destruct Hf as (x1 & l2 & Hx1 & Hf).
      apply expect_Ok in Hx1. destruct Hx1 as [_ ->].
      apply bind_Ok in Hf. destruct Hf as (x2 & l3 & Hx2 & Hf).
      apply expect_Ok in Hx2. destruct Hx2 as [_ ->].
      apply bind_Ok in Hf. destruct Hf as (x3 & l4 & Hx3 & Hf).
      apply expect_Ok in Hx3. destruct Hx3 as [_ ->].
      apply ret_Ok in Hf. destruct Hf as [_ ->]. reflexivity.
    - apply ret_Ok in Hf. destruct Hf as [_ ->]. reflexivity. }
  destruct (backward_inv _ _ _ _ _ _ _ _ _ Hb) as (_ & Hm & Hlog2 & _).
  exists s1, ch1. subst log1 log2.
  split; [exact Hf|]. split; [rewrite <- app_assoc; reflexivity|].
  split; [exact Hm|].
  rewrite !length_app, length_map. cbn. lia.
Qed.

Lemma steps_fit_each_candidate_once_witness :
  exists s1 changed1,
    forward env_abc head_abc log_abc
    = (Ok (s1, changed1),
       (log_abc ++ map (fun c => included head_abc ++ [c])
                     (set_iter env_abc
                        (set_difference (columns env_abc)
                           (included head_abc))))%list).
Proof.
  destruct (steps_fit_each_candidate_once env_abc 0.1 head_abc log_abc
              (fitted env_abc ["a"; "b"]) dropped_abc true
              (log_abc ++ [["a"; "b"]; ["a"; "c"]; ["a"; "b"]])%list)
    as (s1 & ch1 & Hf & _).
  - vm_compute. reflexivity.
  - exists s1, ch1. exact Hf.
Defined.

(** ** X6, X7, X8: exceptions *)

Lemma known_app E (a b : list string) :
  known E (a ++ b) = known E a && known E b.
Proof. unfold known. apply forallb_app. Qed.

Lemma bind_raise {A B : Type} (c : M A) (k : A -> M B) log e log' :
  c log = (Raise e, log') -> bind c k log = (Raise e, log').
Proof. unfold bind. intros ->. reflexivity. Qed.

(** With an unknown name in Included, the forward step raises at its
    first fit, or has nothing to fit. *)
Lemma forward_unknown E s log :
  known E (included s) = false ->
  forward E s log = (Raise KeyError, log)
  \/ forward E s log = (Ok (s, false), log).
Proof.
  intros Hk. unfold forward.
  destruct (set_iter E (set_difference (columns E) (included s)))
    as [|c rest].
  - right. cbn [forward_fits]. unfold bind, ret.
    change (Series.min []) with nan.
    rewrite FloatFacts.ltb_nan_l. reflexivity.
  - left. apply bind_raise. cbn [forward_fits]. apply bind_raise.
    unfold OLS. fold (known E (included s ++ [c])).
    rewrite known_app, Hk. reflexivity.
Qed.

Lemma backward_unknown E threshold_out s changed log :
  known E (included s) = false ->
  backward E threshold_out s changed log = (Raise KeyError, log).
Proof.
  intros Hk. unfold backward. apply bind_raise.
  unfold OLS. fold (known E (included s)). rewrite Hk. reflexivity.
Qed.

(** X6. When [initial_list] names something that is not a column of the
    table (and the target has no missing value), the invocation ends in
    the KeyError of its first fit, before any fit is performed. *)
Theorem unknown_initial_column_raises_KeyError
    (E : Env) (fuel : nat) (initial_list : list string)
    (threshold_in threshold_out : float) (max_vars min_vars : Z)
    (log : FitLog) :
  known E initial_list = false ->
  existsb is_nan (y E) = false ->
  stepwise_selection E (S fuel) initial_list threshold_in threshold_out
    max_vars min_vars log
  = (Raise KeyError, log).
Proof.
  intros Hk Hnan. unfold stepwise_selection. rewrite Hnan.
  cbn [loop]. apply bind_raise. unfold pass. apply bind_raise.
  unfold steps.
  destruct (forward_unknown E (init initial_list threshold_in) log Hk)
    as [Hf | Hf].
  - apply bind_raise. exact Hf.
  - rewrite (bind_run _ _ _ _ _ Hf). apply backward_unknown. exact Hk.
Qed.

Lemma unknown_initial_column_raises_KeyError_witness :
  stepwise_selection env_abc 5 ["z"] 0.05 0.1 12 1 [] = (Raise KeyError, []).
Proof.
  apply (unknown_initial_column_raises_KeyError env_abc 4 ["z"] 0.05 0.1
           12 1 []); reflexivity.
Defined.

(** X7. With an empty p-value track, as a non-empty [initial_list] leaves
    it, a backward step that finds a coefficient with a p-value above
    [threshold_out] does not remove anything: after its fit it ends in
    the IndexError of [included_pvals.pop]. *)
Theorem drop_with_empty_track_raises_IndexError
    (E : Env) (threshold_out : float) (s : State) (changed : bool)
    (log : FitLog) :
  known E (included s) = true ->
  included_pvals s = [] ->
  (exists c, In c (included s)
             /\ gtb (coef_pvalue E (included s) c) threshold_out = true) ->
  backward E threshold_out s changed log
  = (Raise IndexError, (log ++ [included s])%list).
Proof.
  intros Hk Hp Hex. unfold backward.
  rewrite (bind_run _ _ _ _ _ (OLS_run E _ log Hk)).
  rewrite fitted_values, fitted_labels.
  assert (Hgt : gtb (Series.max (coef_pvalues E (included s))) threshold_out
                = true).
  { apply series_max_above_iff. destruct Hex as (c & Hc & Hg).
    exists (coef_pvalue E (included s) c). split; [|exact Hg].
    unfold coef_pvalues. apply in_map, Hc. }
  rewrite Hgt.
  destruct (series_max_above _ _ Hgt) as (i & Harg & Hnth & _).
  assert (Hi : (i < List.length (included s))%nat).
  { apply nth_error_Some. unfold coef_pvalues in Hnth.
    intros Hnone. rewrite nth_error_map, Hnone in Hnth. discriminate. }
  destruct (nth_error (included s) i) as [f|] eqn:Hf;
    [|apply nth_error_None in Hf; lia].
  destruct (index_In f (included s) (nth_error_In _ _ Hf)) as [k Hidx].
  rewrite Harg. cbn. unfold bind at 1. cbn. rewrite Hf. cbn.
  unfold bind at 1. cbn. rewrite Hidx. cbn. unfold bind at 1. cbn.
  rewrite Hp. destruct k; reflexivity.
Qed.

Lemma drop_with_empty_track_raises_IndexError_witness :
  backward env_one 0.1 (init ["a"] 0.05) false []
  = (Raise IndexError, [["a"]]).
Proof.
  apply (drop_with_empty_track_raises_IndexError env_one 0.1
           (init ["a"] 0.05) false []).
  - reflexivity.
  - reflexivity.
  - exists "a". split; [left; reflexivity | vm_compute; reflexivity].
Defined.

(** X8. The tightening loop is entered with [psize = 999]: when
    [max_vars] is 999 or more its body never runs, [mask] is never
    assigned, and over-capacity handling ends in the UnboundLocalError of
    line 132, without any fit. *)
Theorem large_max_vars_raises_UnboundLocalError
    (E : Env) (max_vars min_vars : Z) (fuel : nat) (s : State)
    (changed : bool) (model : OLSResults) (log : FitLog) :
  (999 <= max_vars)%Z ->
  (size s > max_vars)%Z ->
  dropped s = false ->
  dispatch E max_vars min_vars fuel s changed model log
  = (Raise UnboundLocalError, log).
Proof.
  intros Hmax Hsize Hd.
  rewrite (dispatch_over_capacity _ _ _ _ _ _ _ _ Hsize Hd).
  unfold bind at 1, over_capacity, bind at 1.
  change {| w_psize := 999; w_idem := false;
            w_threshold_in := threshold_in s; w_mask := None;
            w_rcond := rcond s; w_history := [] |} with (tighten_entry s).
  rewrite tighten_unfold.
  replace (tighten_test max_vars (tighten_entry s)) with false.
  - reflexivity.
  - unfold tighten_test. cbn. symmetry. rewrite orb_false_r.
    rewrite Z.gtb_ltb. apply Z.ltb_ge. lia.
Qed.

Lemma large_max_vars_raises_UnboundLocalError_witness :
  dispatch env_abc 999 1 20 (thousand state_ab) true
    (fitted env_abc ["a"; "b"]) []
  = (Raise UnboundLocalError, []).
Proof.
  apply (large_max_vars_raises_UnboundLocalError env_abc 999 1 20
           (thousand state_ab) true (fitted env_abc ["a"; "b"]) []).
  - lia.
  - vm_compute. reflexivity.
  - reflexivity.
Defined.

(** ** X9: Included names distinct columns *)

Lemma mem_false_iff (c : string) (l : list string) :
  mem c l = false <-> ~ In c l.
Proof.
  unfold mem. split.
  - intros H Hin. assert (Ht : existsb (String.eqb c) l = true).
    { apply existsb_exists. exists c. split; [exact Hin|].
      apply String.eqb_refl. }
    congruence.
  - intros H. destruct (existsb (String.eqb c) l) eqn:He; [|reflexivity].
    exfalso. apply H. apply existsb_exists in He.
    destruct He as (x & Hx & Heq). apply String.eqb_eq in Heq.
    subst x. exact Hx.
Qed.

Lemma set_difference_In (a b : list string) (c : string) :
  In c (set_difference a b) -> In c a /\ ~ In c b.
Proof.
  unfold set_difference. intros H. apply filter_In in H.
  destruct H as [Ha Hb]. apply nodup_In in Ha.
  apply negb_true_iff, mem_false_iff in Hb. split; assumption.
Qed.

Lemma pop_In {A : Type} (l : list A) : forall k l' x,
  pop k l = Some l' -> In x l' -> In x l.
Proof.
  induction l as [|h t IH]; intros k l' x H Hx; [destruct k; discriminate|].
  destruct k as [|k]; cbn in H.
  - inversion H; subst. right. exact Hx.
  - destruct (pop k t) as [t'|] eqn:Ht; [|discriminate].
    inversion H; subst. destruct Hx as [-> | Hx]; [left; reflexivity|].
    right. eapply IH; eauto.
Qed.

Lemma pop_NoDup {A : Type} (l : list A) : forall k l',
  pop k l = Some l' -> NoDup l -> NoDup l'.
Proof.
  induction l as [|h t IH]; intros k l' H Hnd; [destruct k; discriminate|].
  inversion Hnd as [|? ? Hh Ht]; subst.
  destruct k as [|k]; cbn in H.
  - inversion H; subst. exact Ht.
  - destruct (pop k t) as [t'|] eqn:Hp; [|discriminate].
    inversion H; subst. constructor.
    + intros Hin. apply Hh. eapply pop_In; eauto.
    + eapply IH; eauto.
Qed.

Lemma distinct_columns_firstn E (l : list string) (k : nat) :
  distinct_columns E l -> distinct_columns E (firstn k l).
Proof.
  intros [Hnd Hsub]. split.
  - rewrite <- (firstn_skipn k l) in Hnd.
    apply NoDup_app_remove_r in Hnd. exact Hnd.
  - intros c Hc. apply Hsub. rewrite <- (firstn_skipn k l).
    apply in_or_app. left. exact Hc.
Qed.

Lemma distinct_columns_steps E threshold_out s log model s2 changed log2 :
  iterates_elements E ->
  distinct_columns E (included s) ->
  steps E threshold_out s log = (Ok (model, s2, changed), log2) ->
  distinct_columns E (included s2).
Proof.
  intros Hit [Hnd Hsub] H.
  destruct (steps_inv _ _ _ _ _ _ _ _ H) as (s1 & ch1 & log1 & Hf & Hb).
  assert (H1 : distinct_columns E (included s1)).
  { destruct (forward_inv _ _ _ _ _ _ Hf)
      as [[-> _] | (f & p & r & -> & _ & _ & Hin)]; [split; assumption|].
    apply Hit, set_difference_In in Hin. destruct Hin as [Hc Hn].
    cbn. split.
    - apply NoDup_app; [exact Hnd | repeat constructor; intros [] |].
      intros x Hx [<- | []]. exact (Hn Hx).
    - intros c Hcin. apply in_app_or in Hcin.
      destruct Hcin as [Hcin | [<- | []]]; auto. }
  destruct H1 as [Hnd1 Hsub1].
  destruct (backward_inv _ _ _ _ _ _ _ _ _ Hb)
    as (_ & _ & _ & [[-> _] | (k & incl & ps & rs & Hi & _ & _ & -> & _)]).
  - split; assumption.
  - cbn. split; [eapply pop_NoDup; eauto|].
    intros c Hc. apply Hsub1. eapply pop_In; eauto.
Qed.

Lemma distinct_columns_nil E : distinct_columns E [].
Proof. split; [constructor | intros c []]. Qed.

Lemma distinct_columns_pass E threshold_out max_vars min_vars fuel
    s log s' log' :
  iterates_elements E ->
  distinct_columns E (included s) ->
  pass E threshold_out max_vars min_vars fuel s log
  = (Ok (Continue s'), log') ->
  distinct_columns E (included s').
Proof.
  intros Hit Hs Hp.
  destruct (pass_continue_inv _ _ _ _ _ _ _ _ _ Hp)
    as (model & s2 & changed & Hsteps & Hd & _).
  assert (H2 := distinct_columns_steps _ _ _ _ _ _ _ _ Hit Hs Hsteps).
  destruct (dispatch_continue_inv _ _ _ _ _ _ _ _ _ _ Hd)
    as (_ & [(_ & ->) | [(_ & _ & _ & _ & _ & ->)
                        | [(_ & ->) | (_ & _ & _ & ->)]]]);
    try exact H2; apply distinct_columns_nil.
Qed.

(** X9. Let the iteration over the set of excluded columns yield
    elements of that set, and let [initial_list] name columns of the
    table, each once.  Then at the head of every pass Included names
    columns of the table, each once, and so does the list a pass
    returns. *)
Theorem included_names_distinct_columns
    (E : Env) (threshold_out : float) (max_vars min_vars : Z) (fuel : nat)
    (initial_list : list string) (ti : float)
    (n : nat) (s : State) (log : FitLog) :
  iterates_elements E ->
  distinct_columns E initial_list ->
  reaches E threshold_out max_vars min_vars fuel (init initial_list ti) []
    n s log ->
  distinct_columns E (included s)
  /\ (forall r log',
        pass E threshold_out max_vars min_vars fuel s log
        = (Ok (Return r), log') ->
        distinct_columns E (fst (fst r))).
Proof.
  intros Hit Hinit Hr.
  assert (Hs : distinct_columns E (included s)).
  { remember (init initial_list ti) as s0 eqn:Hs0.
    remember (@nil (list string)) as log0 eqn:Hlog0.
    induction Hr as [s log | s log n sa loga sb logb Hr IH Hq].
    - subst s. exact Hinit.
    - eapply distinct_columns_pass; [exact Hit | apply IH; assumption
                                    | exact Hq]. }
  split; [exact Hs|].
  intros r log' Hp.
  destruct (pass_return_inv _ _ _ _ _ _ _ _ _ Hp)
    as (model & s2 & changed & log2 & Hsteps & Hcases).
  assert (H2 := distinct_columns_steps _ _ _ _ _ _ _ _ Hit Hs Hsteps).
  destruct Hcases as [(_ & -> & _) | (_ & _ & s3 & m3 & Hov & ->)].
  - exact H2.
  - destruct (over_capacity_threshold _ _ _ _ _ _ _ _ _ _ Hov)
      as (w & _ & _ & _ & _ & k & Hk).
    cbn. rewrite Hk. apply distinct_columns_firstn, H2.
Qed.

Lemma included_names_distinct_columns_witness :
  iterates_elements env_abc
  /\ distinct_columns env_abc (included head_abc).
Proof.
  assert (Hit : iterates_elements env_abc) by (intros l c H; exact H).
  split; [exact Hit|].
  assert (Hr : reaches env_abc 0.1 12 1 20 (init [] 0.05) [] 1 head_abc
                 log_abc).
  { apply iterate_reaches. vm_compute. reflexivity. }
  exact (proj1 (included_names_distinct_columns env_abc 0.1 12 1 20 [] 0.05
                  1 head_abc log_abc Hit (distinct_columns_nil env_abc) Hr)).
Defined.

(** ** X10, X11: what a pass returns outside over-capacity handling *)

(** X10. A pass whose two steps leave at most [max_vars] features, or
    that has dropped a feature, performs no further fit and returns
    Included, the model of the backward step and the threshold as the two
    steps left them.  Included then has at least [min_vars] features
    unless the threshold is 0.1, and at most [max_vars] features unless
    the threshold is 0.01 or [lower] is set. *)
Theorem return_outside_over_capacity
    (E : Env) (threshold_out : float) (max_vars min_vars : Z) (fuel : nat)
    (s : State) (log : FitLog) (model : OLSResults) (s2 : State)
    (changed : bool) (log2 : FitLog) (r : Result) (log' : FitLog) :
  steps E threshold_out s log = (Ok (model, s2, changed), log2) ->
  pass E threshold_out max_vars min_vars fuel s log = (Ok (Return r), log') ->
  (size s2 <= max_vars)%Z \/ dropped s2 = true ->
  r = (included s2, Fitted model, threshold_in s2)
  /\ log' = log2
  /\ ((min_vars <= size s2)%Z \/ (threshold_in s2 =? 0.1) = true)
  /\ ((size s2 <= max_vars)%Z \/ (threshold_in s2 =? 0.01) = true
      \/ lower s2 = true).
Proof.
  intros Hsteps Hp Hcase. unfold pass in Hp.
  rewrite (bind_run _ _ _ _ _ Hsteps) in Hp. cbn beta iota in Hp.
  unfold dispatch in Hp.
  destruct ((size s2 >=? min_vars)%Z && (size s2 <=? max_vars)%Z
            && negb changed) eqn:Hin.
  - apply ret_Ok in Hp. destruct Hp as [Hd ->]. inversion Hd.
    apply andb_prop in Hin. destruct Hin as [Hin _].
    apply andb_prop in Hin. destruct Hin as [Hge Hle].
    rewrite Z.geb_leb in Hge. apply Z.leb_le in Hge, Hle.
    repeat split; auto.
  - assert (Hoc : (size s2 >? max_vars)%Z && negb (dropped s2) = false).
    { destruct Hcase as [Hle | Hdr].
      - replace (size s2 >? max_vars)%Z with false; [reflexivity|].
        symmetry. rewrite Z.gtb_ltb. apply Z.ltb_ge. exact Hle.
      - rewrite Hdr. apply andb_false_r. }
    rewrite Hoc in Hp.
    assert (Hstall : forall chx,
              stall min_vars s2 chx model = Return r ->
              r = (included s2, Fitted model, threshold_in s2)
              /\ chx = false
              /\ ((min_vars <= size s2)%Z
                  \/ (threshold_in s2 =? 0.1) = true)).
    { intros chx. unfold stall. destruct chx; cbn [negb]; [discriminate|].
      destruct ((size s2 <? min_vars)%Z && neqb (threshold_in s2) 0.1)
        eqn:Hc; [discriminate|].
      intros [= <-]. split; [reflexivity|]. split; [reflexivity|].
      apply andb_false_iff in Hc. destruct Hc as [Hc | Hc].
      - left. apply Z.ltb_ge in Hc. exact Hc.
      - right. unfold neqb in Hc. apply negb_false_iff in Hc. exact Hc. }
    destruct (dropped s2) eqn:Hdr.
    + unfold on_dropped in Hp.
      destruct ((threshold_in s2 =? 0.1) && onetime s2).
      { apply ret_Ok in Hp. destruct Hp as [Hd _]. discriminate Hd. }
      destruct ((size s2 >? max_vars)%Z && neqb (threshold_in s2) 0.01
                && negb (lower s2)) eqn:Hb.
      { apply ret_Ok in Hp. destruct Hp as [Hd _]. discriminate Hd. }
      assert (Hup : (size s2 <= max_vars)%Z
                    \/ (threshold_in s2 =? 0.01) = true \/ lower s2 = true).
      { apply andb_false_iff in Hb. destruct Hb as [Hb | Hb].
        - apply andb_false_iff in Hb. destruct Hb as [Hb | Hb].
          + left. rewrite Z.gtb_ltb in Hb. apply Z.ltb_ge in Hb. exact Hb.
          + right. left. unfold neqb in Hb. apply negb_false_iff in Hb.
            exact Hb.
        - right. right. apply negb_false_iff in Hb. exact Hb. }
      assert (Hret : exists chx,
                 (Ok (stall min_vars s2 chx model), log2)
                 = (Ok (Return r), log')).
      { destruct ((size s2 >=? min_vars)%Z && lower s2);
          [destruct (gtb _ 0.9)|]; eexists; exact Hp. }
      destruct Hret as (chx & Hret). inversion Hret as [[Hst Hlog]].
      destruct (Hstall _ Hst) as (-> & _ & Hlow). auto.
    + destruct Hcase as [Hle | Hdr']; [|discriminate].
      apply ret_Ok in Hp. destruct Hp as [Hd ->].
      destruct (Hstall _ Hd) as (-> & _ & Hlow). auto.
Qed.

Lemma return_outside_over_capacity_witness :
  ([], Fitted (fitted env_one []), 0.1%float)
  = (included (init [] 0.05), Fitted (fitted env_one []),
     threshold_in (init [] 0.05))
  /\ [["a"%string]; []] = [["a"%string]; []]
  /\ ((0 <= size (init [] 0.05))%Z
      \/ (threshold_in (init [] 0.05) =? 0.1)%float = true)
  /\ ((size (init [] 0.05) <= 5)%Z
      \/ (threshold_in (init [] 0.05) =? 0.01)%float = true
      \/ lower (init [] 0.05) = true).
Proof.
  apply (return_outside_over_capacity env_one 0.1 5 0 20 (init [] 0.05) []
           (fitted env_one []) (init [] 0.05) false [["a"%string]; []]
           ([], Fitted (fitted env_one []), 0.1%float) [["a"%string]; []]).
  - vm_compute. reflexivity.
  - vm_compute. reflexivity.
  - left. unfold size. cbn. lia.
Defined.

(** ** X11: the caller's threshold is read by the reset only *)

Section CallerThreshold.

Variable E : Env.
Variable threshold_out : float.
Variables max_vars min_vars : Z.
Variable fuel : nat.
Variable t : float.

Lemma forward_called_with s log :
  forward E (called_with t s) log
  = outcome_map (fun x => (called_with t (fst x), snd x)) (forward E s log).
Proof.
  unfold forward, bind. cbn [included threshold_in called_with].
  destruct (forward_fits E (included s) _ log) as [[[ps rs]|e|] l];
    cbn; try reflexivity.
  destruct (Series.min ps <? threshold_in s)%float; [|reflexivity].
  destruct (Series.argmin ps) as [i|]; cbn; [|reflexivity].
  destruct (nth_error _ i) as [f|]; cbn; [|reflexivity].
  destruct (nth_error rs i) as [r|]; cbn; reflexivity.
Qed.

Lemma backward_called_with s changed log :
  backward E threshold_out (called_with t s) changed log
  = outcome_map (fun x => (fst (fst x), called_with t (snd (fst x)), snd x))
      (backward E threshold_out s changed log).
Proof.
  unfold backward, bind. cbn [included called_with].
  destruct (OLS E (included s) log) as [[m|e|] l]; cbn; try reflexivity.
  destruct (PrimFloat.ltb threshold_out
              (Series.max (map snd (tl (pvalues m))))); [|reflexivity].
  destruct (Series.argmax (map snd (tl (pvalues m)))) as [i|]; cbn;
    [|reflexivity].
  destruct (nth_error (map fst (tl (pvalues m))) i) as [f|]; cbn;
    [|reflexivity].
  destruct (index f (included s)) as [k|]; cbn; [|reflexivity].
  destruct (pop k (included_pvals s)) as [ps|]; cbn; [|reflexivity].
  destruct (pop k (included_rvals s)) as [rs|]; cbn; [|reflexivity].
  destruct (remove f (included s)) as [incl|]; cbn; reflexivity.
Qed.

Lemma steps_called_with s log :
  steps E threshold_out (called_with t s) log
  = outcome_map (fun x => (fst (fst x), called_with t (snd (fst x)), snd x))
      (steps E threshold_out s log).
Proof.
  unfold steps, bind. rewrite forward_called_with.
  destruct (forward E s log) as [[[s1 ch]|e|] l]; cbn; try reflexivity.
  apply backward_called_with.
Qed.

Lemma over_capacity_called_with s model log :
  over_capacity E max_vars min_vars fuel (called_with t s) model log
  = outcome_map (fun x => (called_with t (fst x), snd x))
      (over_capacity E max_vars min_vars fuel s model log).
Proof.
  unfold over_capacity, bind.
  cbn [included included_pvals included_rvals threshold_in rcond called_with].
  destruct (tighten max_vars min_vars fuel _ _ _) as [w|e|]; cbn;
    try reflexivity.
  destruct (w_mask w) as [mask|]; cbn; [|reflexivity].
  destruct (if w_rcond w then _ else _) as [|k rest]; cbn; [reflexivity|].
  destruct (OLS E _ log) as [[m|e|] l]; cbn; reflexivity.
Qed.

Lemma stall_called_with s changed model :
  stall min_vars (called_with t s) changed model
  = step_called_with t (stall min_vars s changed model).
Proof.
  unfold stall, size. cbn [included threshold_in called_with].
  destruct (negb changed); [|reflexivity].
  destruct (_ && _); reflexivity.
Qed.

Lemma dispatch_called_with s changed model log :
  reset_test s = false ->
  dispatch E max_vars min_vars fuel (called_with t s) changed model log
  = outcome_map (step_called_with t)
      (dispatch E max_vars min_vars fuel s changed model log).
Proof.
  intros Hreset. unfold dispatch, size.
  cbn [included dropped called_with].
  destruct (_ && _ && negb changed); [reflexivity|].
  destruct ((_ >? max_vars)%Z && negb (dropped s)).
  - unfold bind. rewrite over_capacity_called_with.
    destruct (over_capacity E max_vars min_vars fuel s model log)
      as [[[s3 m3]|e|] l]; cbn; reflexivity.
  - destruct (dropped s) eqn:Hd.
    + unfold reset_test in Hreset. rewrite Hd in Hreset.
      cbn [andb] in Hreset.
      unfold on_dropped, size.
      cbn [included threshold_in onetime lower called_with].
      rewrite Hreset.
      destruct (_ && _ && negb (lower s)).
      * cbn. reflexivity.
      * destruct (_ && lower s);
          [destruct (gtb _ 0.9)|]; unfold ret, outcome_map;
          rewrite stall_called_with; reflexivity.
    + unfold ret, outcome_map. rewrite stall_called_with. reflexivity.
Qed.

(** A pass in which the reset does not fire runs alike whatever the
    caller's threshold. *)
Lemma pass_called_with s log :
  (forall model s2 changed log2,
     steps E threshold_out s log = (Ok (model, s2, changed), log2) ->
     reset_test s2 = false) ->
  pass E threshold_out max_vars min_vars fuel (called_with t s) log
  = outcome_map (step_called_with t)
      (pass E threshold_out max_vars min_vars fuel s log).
Proof.
  intros Hreset. unfold pass, bind. rewrite steps_called_with.
  destruct (steps E threshold_out s log) as [[[[m s2] ch]|e|] l] eqn:Hs;
    cbn; try reflexivity.
  apply dispatch_called_with. eapply Hreset. reflexivity.
Qed.

End CallerThreshold.

(** A pass that leads to a head without a drop started from a head
    without a drop, and its two steps dropped nothing. *)
Lemma no_drop_before E threshold_out max_vars min_vars fuel s log s' log' :
  pass E threshold_out max_vars min_vars fuel s log
  = (Ok (Continue s'), log') ->
  dropped s' = false ->
  dropped s = false
  /\ forall model s2 changed log2,
       steps E threshold_out s log = (Ok (model, s2, changed), log2) ->
       dropped s2 = false.
Proof.
  intros Hp Hd.
  destruct (pass_continue_inv _ _ _ _ _ _ _ _ _ Hp)
    as (model & s2 & changed & Hsteps & Hdis & Hsc).
  assert (Hd2 : dropped s2 = false).
  { destruct (dispatch_continue_inv _ _ _ _ _ _ _ _ _ _ Hdis)
      as (_ & [(_ & ->) | [(_ & _ & _ & _ & _ & ->)
                          | [(_ & ->) | (_ & _ & _ & ->)]]]);
      exact Hd. }
  split.
  - destruct Hsc as (_ & _ & _ & _ & _ & [Hs | Hs]); congruence.
  - intros m2 s2' ch2 l2 H. rewrite Hsteps in H. inversion H; subst.
    exact Hd2.
Qed.

(** X11. Until the first drop of an invocation nothing depends on the
    threshold the caller passed: called with another threshold, the
    invocation reaches the same heads with the same fits, and a pass in
    which nothing is dropped ends alike, whether it returns, raises or
    leads to a next pass. *)
Theorem caller_threshold_unused_until_first_drop
    (E : Env) (threshold_out : float) (max_vars min_vars : Z) (fuel : nat)
    (initial_list : list string) (ti ti' : float)
    (n : nat) (s : State) (log : FitLog) :
  reaches E threshold_out max_vars min_vars fuel (init initial_list ti) []
    n s log ->
  dropped s = false ->
  reaches E threshold_out max_vars min_vars fuel (init initial_list ti') []
    n (called_with ti' s) log
  /\ (forall model s2 changed log2,
        steps E threshold_out s log = (Ok (model, s2, changed), log2) ->
        dropped s2 = false ->
        pass E threshold_out max_vars min_vars fuel (called_with ti' s) log
        = outcome_map (step_called_with ti')
            (pass E threshold_out max_vars min_vars fuel s log)).
Proof.
  intros Hr Hd. split.
  - remember (init initial_list ti) as s0 eqn:Hs0.
    remember (@nil (list string)) as log0 eqn:Hlog0.
    induction Hr as [s log | s log n sa loga sb logb Hr IH Hq].
    + subst s. apply reaches_head.
    + destruct (no_drop_before _ _ _ _ _ _ _ _ _ Hq Hd) as [Hda Hsteps].
      eapply reaches_pass; [apply IH; assumption|].
      rewrite pass_called_with.
      * rewrite Hq. reflexivity.
      * intros m2 s2 ch2 l2 H. unfold reset_test.
        rewrite (Hsteps _ _ _ _ H). reflexivity.
  - intros model s2 changed log2 Hsteps Hd2.
    apply pass_called_with.
    intros m2 s2' ch2 l2 H. rewrite Hsteps in H. inversion H; subst.
    unfold reset_test. rewrite Hd2. reflexivity.
Qed.

Lemma caller_threshold_unused_until_first_drop_witness :
  reaches env_abc 0.1 12 1 20 (init [] 0.03) [] 1
    (called_with 0.03 head_abc) log_abc.
Proof.
  assert (Hr : reaches env_abc 0.1 12 1 20 (init [] 0.05) [] 1 head_abc
                 log_abc).
  { apply iterate_reaches. vm_compute. reflexivity. }
  exact (proj1 (caller_threshold_unused_until_first_drop env_abc 0.1 12 1 20
                  [] 0.05 0.03 1 head_abc log_abc Hr eq_refl)).
Defined.

(** ** X12: after a raising restart *)

Lemma cent_le_table :
  forallb (fun j =>
             forallb (fun k => (cent (Z.of_nat j) <=? cent (Z.of_nat k))%float)
               (seq j (11 - j)))
    (seq 1 10) = true.
Proof. vm_compute. reflexivity. Qed.

Lemma cent_le (j k : nat) :
  (1 <= j)%nat -> (j <= k)%nat -> (k <= 10)%nat ->
  (cent (Z.of_nat j) <=? cent (Z.of_nat k))%float = true.
Proof.
  intros H1 H2 H3. pose proof cent_le_table as H.
  rewrite forallb_forall in H.
  assert (Hj : In j (seq 1 10)) by (apply in_seq; lia).
  specialize (H j Hj). cbv beta in H. rewrite forallb_forall in H.
  apply H. apply in_seq. lia.
Qed.

(** With [lower] set at a head, a pass that leads to a next pass keeps
    [lower] set and keeps the threshold or raises it. *)
Lemma pass_after_raise E threshold_out max_vars min_vars fuel ti
    s log s' log' :
  head_inv ti s -> lower s = true ->
  pass E threshold_out max_vars min_vars fuel s log
  = (Ok (Continue s'), log') ->
  lower s' = true
  /\ (threshold_in s' = threshold_in s
      \/ threshold_in s' = raised (threshold_in s)).
Proof.
  intros Hinv Hl Hp.
  destruct (pass_continue_inv _ _ _ _ _ _ _ _ _ Hp)
    as (model & s2 & changed & _ & Hd & Hsc).
  destruct Hinv as (_ & _ & Hfresh & Hused).
  assert (Hdr : dropped s = true).
  { destruct (dropped s); [reflexivity|].
    destruct (Hfresh eq_refl) as (_ & _ & Hl'). congruence. }
  destruct Hsc as (_ & Ht2 & Hl2 & _ & Ho2 & _).
  destruct (dispatch_continue_inv _ _ _ _ _ _ _ _ _ _ Hd)
    as (_ & [(Hyes & ->) | [(_ & _ & _ & _ & Hno & ->)
                           | [(_ & ->) | (_ & _ & _ & ->)]]]).
  - unfold reset_test in Hyes. rewrite Ho2, (Hused Hdr) in Hyes.
    rewrite !andb_false_r in Hyes. discriminate.
  - congruence.
  - split; [congruence | left; exact Ht2].
  - cbn. split; [reflexivity | right; rewrite Ht2; reflexivity].
Qed.

(** X12. Once [lower] is set at a head of an invocation, it stays set at
    every later head, and the threshold, if on the grid 0.01, ..., 0.10,
    stays there and is never below its value at that head. *)
Theorem threshold_not_lowered_after_a_raise
    (E : Env) (threshold_out : float) (max_vars min_vars : Z) (fuel : nat)
    (ti : float) (s : State) (log : FitLog)
    (n : nat) (s' : State) (log' : FitLog) :
  head_inv ti s ->
  lower s = true ->
  on_grid (threshold_in s) ->
  reaches E threshold_out max_vars min_vars fuel s log n s' log' ->
  lower s' = true
  /\ on_grid (threshold_in s')
  /\ (threshold_in s <=? threshold_in s')%float = true.
Proof.
  intros Hinv Hl Hg Hr.
  apply on_grid_cent in Hg. destruct Hg as (j & Hj & Htj).
  assert (H : head_inv ti s' /\ lower s' = true
              /\ exists k, (j <= k <= 10)%nat
                           /\ threshold_in s' = cent (Z.of_nat k)).
  { induction Hr as [s log | s log n sa loga sb logb Hr IH Hq].
    - split; [exact Hinv|]. split; [exact Hl|]. exists j. split; [lia|auto].
    - destruct (IH Hinv Hl Htj) as (Hia & Hla & k & Hk & Hta).
      split; [eapply head_inv_pass; eauto|].
      destruct (pass_after_raise _ _ _ _ _ _ _ _ _ _ Hia Hla Hq)
        as [Hlb [Htb | Htb]].
      + split; [exact Hlb|]. exists k. split; [lia | congruence].
      + split; [exact Hlb|]. exists (Nat.min 10 (k + 1)).
        split; [lia|]. rewrite Htb, Hta. apply raised_cent. lia. }
  destruct H as (_ & Hl' & k & Hk & Htk).
  split; [exact Hl'|]. split.
  - apply on_grid_cent. exists k. split; [lia | exact Htk].
  - rewrite Htj, Htk. apply cent_le; lia.
Qed.

Lemma threshold_not_lowered_after_a_raise_witness :
  lower (raised_state head_one_raised) = true
  /\ on_grid (threshold_in (raised_state head_one_raised))
  /\ (threshold_in head_one_raised
      <=? threshold_in (raised_state head_one_raised))%float = true.
Proof.
  apply (threshold_not_lowered_after_a_raise env_one 0.1 5 1 20 0.05
           head_one_raised [] 1 (raised_state head_one_raised)
           [["a"%string]; []]).
  - unfold head_inv. cbn. repeat split; auto; discriminate.
  - reflexivity.
  - apply on_grid_cent. exists 5%nat. split; [lia | reflexivity].
  - apply iterate_reaches. vm_compute. reflexivity.
Defined.

(** ** X13: an invocation that never returns *)

Section NeverReturns.

Variable E : Env.
Variable threshold_out : float.
Variables max_vars min_vars : Z.
Variable fuel : nat.

Hypothesis iterates : iterates_elements E.
Hypothesis drops : gtb (best_single_pvalue E) threshold_out = true.
Hypothesis room : (0 <= max_vars)%Z.

(** From an empty Included the two steps add the best candidate and drop
    it again. *)
Lemma add_then_drop s log :
  included s = [] -> included_pvals s = [] -> included_rvals s = [] ->
  (best_single_pvalue E <? threshold_in s)%float = true ->
  exists model log2,
    steps E threshold_out s log
    = (Ok (model, set_lists (set_dropped s true) [] [] [], true), log2).
Proof.
  intros Hi Hp Hr Hadd.
  assert (Hknown : forall c, In c (first_candidates E) ->
                     known E ([] ++ [c]) = true).
  { intros c Hc. apply iterates, set_difference_In in Hc.
    destruct Hc as [Hc _]. unfold known. cbn. rewrite andb_true_r.
    destruct (mem c (columns E)) eqn:Hm; [reflexivity|].
    apply mem_false_iff in Hm. contradiction. }
  destruct (forward_fits_run E [] (first_candidates E) log Hknown)
    as (log1 & Hfits).
  destruct (series_min_below _ _ Hadd) as (i & Harg & Hnth & Hnan & _).
  fold (best_single_pvalue E) in Hnth, Hnan.
  destruct (nth_error (first_candidates E) i) as [c|] eqn:Hc.
  2:{ rewrite nth_error_map, Hc in Hnth. discriminate. }
  assert (Hpc : forward_pvalue E [] c = best_single_pvalue E).
  { rewrite nth_error_map, Hc in Hnth. cbn in Hnth. congruence. }
  assert (Hfwd : forward E s log
                 = (Ok (set_lists s [c] [best_single_pvalue E]
                          [forward_rvalue E [] c], true), log1)).
  { unfold forward. rewrite Hi, Hp, Hr.
    fold (first_candidates E). rewrite (bind_run _ _ _ _ _ Hfits).
    cbn beta iota. fold (best_single_pvalue E). rewrite Hadd, Harg.
    cbn [expect]. unfold bind, ret. rewrite Hc. cbn [expect].
    unfold ret. rewrite nth_error_map, Hc. reflexivity. }
  assert (Hkc : known E [c] = true).
  { apply (Hknown c). eapply nth_error_In; eauto. }
  exists (fitted E [c]), (log1 ++ [[c]])%list.
  unfold steps. rewrite (bind_run _ _ _ _ _ Hfwd). cbn beta iota.
  unfold backward. cbn [included set_lists].
  rewrite (bind_run _ _ _ _ _ (OLS_run E [c] log1 Hkc)).
  unfold fitted. cbn [pvalues tl map snd fst].
  change (coef_pvalue E [c] c) with (forward_pvalue E [] c). rewrite Hpc.
  unfold Series.max, Series.argmax. cbn [Series.arg_from].
  rewrite Hnan. cbn [Series.value_of option_map fst]. rewrite drops.
  cbn [expect nth_error index remove pop included included_pvals
       included_rvals].
  unfold bind, ret. cbn [expect nth_error]. unfold ret.
  rewrite String.eqb_refl. cbn. reflexivity.
Qed.

Hypothesis adds_first : (best_single_pvalue E <? 0.1)%float = true.

Variable ti : float.
Hypothesis adds_again : (best_single_pvalue E <? ti)%float = true.

Lemma first_pass_resets log :
  exists log',
    pass E threshold_out max_vars min_vars fuel (init [] ti) log
    = (Ok (Continue (emptied ti)), log').
Proof.
  destruct (add_then_drop (init [] ti) log eq_refl eq_refl eq_refl adds_first)
    as (model & log2 & Hsteps).
  exists log2. unfold pass. rewrite (bind_run _ _ _ _ _ Hsteps).
  cbn beta iota. unfold dispatch, size. cbn.
  replace (0 >? max_vars)%Z with false
    by (symmetry; rewrite Z.gtb_ltb; apply Z.ltb_ge; exact room).
  rewrite andb_false_r. cbn. reflexivity.
Qed.

Lemma later_pass_repeats log :
  exists log',
    pass E threshold_out max_vars min_vars fuel (emptied ti) log
    = (Ok (Continue (emptied ti)), log').
Proof.
  destruct (add_then_drop (emptied ti) log eq_refl eq_refl eq_refl adds_again)
    as (model & log2 & Hsteps).
  exists log2. unfold pass. rewrite (bind_run _ _ _ _ _ Hsteps).
  cbn beta iota. unfold dispatch, on_dropped, size. cbn.
  replace (0 >? max_vars)%Z with false
    by (symmetry; rewrite Z.gtb_ltb; apply Z.ltb_ge; exact room).
  rewrite !andb_false_r. cbn. reflexivity.
Qed.

Lemma loop_repeats passes : forall log,
  exists log',
    loop E threshold_out max_vars min_vars fuel passes (emptied ti) log
    = (OutOfFuel, log').
Proof.
  induction passes as [|k IH]; intros log; cbn [loop].
  - exists log. reflexivity.
  - destruct (later_pass_repeats log) as (log1 & Hp).
    rewrite (bind_run _ _ _ _ _ Hp). apply IH.
Qed.

End NeverReturns.



(** ** X14: no candidate is significant *)



(** * The earlier selector *)

(** ** X15: the two steps of both selectors *)

Section BothSelectors.

Variable E : Env.
Variable threshold_out : float.

Lemma old_forward_fits incl excluded : forall log,
  Old.forward_fits E incl excluded log
  = outcome_map fst (forward_fits E incl excluded log).
Proof.
  induction excluded as [|c rest IH]; intros log; cbn; [reflexivity|].
  unfold bind. destruct (OLS E (incl ++ [c]) log) as [[m|e|] l]; cbn;
    try reflexivity.
  destruct (Series.get (pvalues m) c) as [p|]; cbn; [|reflexivity].
  rewrite IH.
  destruct (forward_fits E incl rest l) as [[[ps rs]|e|] l1]; reflexivity.
Qed.

Lemma old_forward s log :
  Old.forward E (forget s) log
  = outcome_map (fun x => (forget (fst x), snd x)) (forward E s log).
Proof.
  unfold Old.forward, forward, bind.
  cbn [forget Old.included Old.threshold_in Old.lower].
  rewrite old_forward_fits.
  destruct (forward_fits E (included s) _ log) as [[[ps rs]|e|] l] eqn:Hf;
    cbn; try reflexivity.
  destruct (Series.min ps <? threshold_in s)%float; [|reflexivity].
  destruct (Series.argmin ps) as [i|]; cbn; [|reflexivity].
  destruct (nth_error _ i) as [f|] eqn:Hn; cbn; [|reflexivity].
  destruct (forward_fits_Ok _ _ _ _ _ _ _ Hf) as (_ & -> & _).
  rewrite nth_error_map, Hn. reflexivity.
Qed.

Lemma old_backward s changed log :
  aligned s ->
  Old.backward E threshold_out (forget s) changed log
  = outcome_map (fun x => (fst (fst x), forget (snd (fst x)), snd x))
      (backward E threshold_out s changed log).
Proof.
  intros [Hp Hr]. unfold Old.backward, backward, bind.
  cbn [forget Old.included Old.threshold_in Old.lower].
  destruct (OLS E (included s) log) as [[m|e|] l]; cbn; try reflexivity.
  destruct (PrimFloat.ltb threshold_out
              (Series.max (map snd (tl (pvalues m))))); [|reflexivity].
  destruct (Series.argmax (map snd (tl (pvalues m)))) as [i|]; cbn;
    [|reflexivity].
  destruct (nth_error (map fst (tl (pvalues m))) i) as [f|]; cbn;
    [|reflexivity].
  destruct (index f (included s)) as [k|] eqn:Hk; cbn.
  - assert (Hlt : (k < List.length (included s))%nat).
    { apply nth_error_Some. rewrite (index_nth _ _ _ Hk). discriminate. }
    destruct (pop_in_range (included_pvals s) k) as (ps & -> & _);
      [rewrite Hp; exact Hlt|].
    destruct (pop_in_range (included_rvals s) k) as (rs & -> & _);
      [rewrite Hr; exact Hlt|].
    cbn. destruct (remove f (included s)) as [incl|]; reflexivity.
  - destruct (remove f (included s)) as [incl|] eqn:Hrem; cbn;
      [|reflexivity].
    exfalso. clear - Hk Hrem. revert incl Hk Hrem.
    induction (included s) as [|h t IH]; intros incl Hk Hrem;
      [discriminate|].
    cbn in Hk, Hrem. destruct (String.eqb h f); [discriminate|].
    destruct (index f t); [discriminate|].
    destruct (remove f t) as [t'|]; [|discriminate].
    eapply IH; reflexivity.
Qed.

End BothSelectors.

(** X15. On a state whose tracks are as long as Included, the two steps
    of a pass of the later selector and those of the earlier one end
    alike: the same fits in the same order, the same exception if any,
    the same model, the same [changed] and the same Included and
    threshold. *)
Theorem steps_agree_with_earlier_selector
    (E : Env) (threshold_out : float) (s : State) (log : FitLog) :
  aligned s ->
  Old.steps E threshold_out (forget s) log
  = outcome_map (fun x => (fst (fst x), forget (snd (fst x)), snd x))
      (steps E threshold_out s log).
Proof.
  intros Ha. unfold Old.steps, steps, bind. rewrite old_forward.
  destruct (forward E s log) as [[[s1 ch]|e|] l] eqn:Hf; cbn;
    try reflexivity.
  apply old_backward. eapply aligned_forward; eauto.
Qed.

Lemma steps_agree_with_earlier_selector_witness :
  Old.steps env_abc 0.1 (forget head_abc) []
  = outcome_map (fun x => (fst (fst x), forget (snd (fst x)), snd x))
      (steps env_abc 0.1 head_abc []).
Proof.
  apply (steps_agree_with_earlier_selector env_abc 0.1 head_abc []).
  split; reflexivity.
Defined.

(** ** X16, X17: how a pass of the earlier selector ends *)

Section EarlierSelector.

Variable E : Env.
Variable root : float -> float.
Variable threshold_out : float.
Variables max_vars min_vars : Z.

(** The two steps leave the threshold and [lower] alone. *)
Lemma old_steps_scalars s log model s2 changed log2 :
  Old.steps E threshold_out s log = (Ok (model, s2, changed), log2) ->
  Old.threshold_in s2 = Old.threshold_in s /\ Old.lower s2 = Old.lower s.
Proof.
  unfold Old.steps. intros H. apply bind_Ok in H.
  destruct H as ([s1 ch1] & log1 & Hf & Hb).
  assert (H1 : Old.threshold_in s1 = Old.threshold_in s
               /\ Old.lower s1 = Old.lower s).
  { unfold Old.forward in Hf. apply bind_Ok in Hf.
    destruct Hf as (ps & l & _ & Hf).
    destruct (Series.min ps <? Old.threshold_in s)%float.
    - run_inv Hf. match goal with H : (_, _) = (_, _) |- _ =>
                    inversion H; subst end. split; reflexivity.
    - run_inv Hf. match goal with H : (_, _) = (_, _) |- _ =>
                    inversion H; subst end. split; reflexivity. }
  destruct H1 as [Ht1 Hl1]. rewrite <- Ht1, <- Hl1.
  unfold Old.backward in Hb. apply bind_Ok in Hb.
  destruct Hb as (m & l & _ & Hb).
  destruct (gtb _ threshold_out).
  - run_inv Hb. match goal with H : (_, _) = (_, _) |- _ =>
                  inversion H; subst end. split; reflexivity.
  - run_inv Hb. match goal with H : (_, _) = (_, _) |- _ =>
                  inversion H; subst end. split; reflexivity.
Qed.

Lemma old_pass_inv s log step log' :
  Old.pass E root threshold_out max_vars min_vars s log = (Ok step, log') ->
  exists model s2 changed,
    Old.steps E threshold_out s log = (Ok (model, s2, changed), log')
    /\ step = Old.finish root max_vars min_vars s2 changed model.
Proof.
  unfold Old.pass. intros H. apply bind_Ok in H.
  destruct H as ([[model s2] changed] & log2 & Hsteps & H).
  apply ret_Ok in H. destruct H as [<- ->]. eauto.
Qed.

End EarlierSelector.

(** X16. A pass of the earlier selector that returns performs no fit
    after its two steps and returns Included and the model as they left
    them, with the threshold of the head.  Included then has at least
    [min_vars] features unless the threshold is 0.1, and at most
    [max_vars] features unless the threshold is 0.01 or [lower] is set;
    and the two steps changed nothing, unless [lower] is set, Included
    has at least [min_vars] features and the root of the coefficient of
    determination exceeds 0.9. *)
Theorem earlier_selector_return
    (E : Env) (root : float -> float) (threshold_out : float)
    (max_vars min_vars : Z) (s : Old.State) (log : FitLog)
    (r : Result) (log' : FitLog) :
  Old.pass E root threshold_out max_vars min_vars s log
  = (Ok (Old.Return r), log') ->
  exists model s2 changed,
    Old.steps E threshold_out s log = (Ok (model, s2, changed), log')
    /\ r = (Old.included s2, Fitted model, Old.threshold_in s)
    /\ ((min_vars <= Old.size s2)%Z \/ (Old.threshold_in s =? 0.1)%float = true)
    /\ ((Old.size s2 <= max_vars)%Z
        \/ (Old.threshold_in s =? 0.01)%float = true
        \/ Old.lower s = true)
    /\ (changed = false
        \/ (Old.lower s = true /\ (min_vars <= Old.size s2)%Z
            /\ gtb (root (rsquared model)) 0.9 = true)).
Proof.
  intros Hp.
  destruct (old_pass_inv _ _ _ _ _ _ _ _ _ Hp)
    as (model & s2 & changed & Hsteps & Hfin).
  exists model, s2, changed. split; [exact Hsteps|].
  destruct (old_steps_scalars _ _ _ _ _ _ _ _ Hsteps) as [Ht Hl].
  rewrite <- Ht, <- Hl. clear Hsteps Hp Ht Hl.
  unfold Old.finish, Old.lowering in Hfin.
  destruct ((Old.size s2 >? max_vars)%Z && neqb (Old.threshold_in s2) 0.01
            && negb (Old.lower s2)) eqn:Hlow.
  - exfalso. unfold Old.quality, Old.stall in Hfin.
    cbn [Old.lower Old.included Old.size] in Hfin.
    apply andb_prop in Hlow. destruct Hlow as [_ Hl].
    apply negb_true_iff in Hl. rewrite Hl, andb_false_r in Hfin.
    discriminate Hfin.
  - assert (Hup : (Old.size s2 <= max_vars)%Z
                  \/ (Old.threshold_in s2 =? 0.01)%float = true
                  \/ Old.lower s2 = true).
    { apply andb_false_iff in Hlow. destruct Hlow as [Hb | Hb].
      - apply andb_false_iff in Hb. destruct Hb as [Hb | Hb].
        + left. rewrite Z.gtb_ltb in Hb. apply Z.ltb_ge in Hb. exact Hb.
        + right. left. unfold neqb in Hb. apply negb_false_iff in Hb.
          exact Hb.
      - right. right. apply negb_false_iff in Hb. exact Hb. }
    unfold Old.stall in Hfin.
    destruct (Old.quality root min_vars s2 changed model) eqn:Hq;
      cbn [negb] in Hfin; [discriminate|].
    destruct ((Old.size s2 <? min_vars)%Z && neqb (Old.threshold_in s2) 0.1)
      eqn:Hc; [discriminate|].
    inversion Hfin; subst r. split; [reflexivity|]. split.
    { apply andb_false_iff in Hc. destruct Hc as [Hc | Hc].
      - left. apply Z.ltb_ge in Hc. exact Hc.
      - right. unfold neqb in Hc. apply negb_false_iff in Hc. exact Hc. }
    split; [exact Hup|].
    unfold Old.quality in Hq.
    destruct ((Old.size s2 >=? min_vars)%Z && Old.lower s2) eqn:Hml.
    + destruct (gtb (root (rsquared model)) 0.9) eqn:Hroot.
      * right. apply andb_prop in Hml. destruct Hml as [Hm Hl].
        rewrite Z.geb_leb in Hm. apply Z.leb_le in Hm. auto.
      * left. exact Hq.
    + left. exact Hq.
Qed.

Lemma earlier_selector_return_witness :
  exists model s2 changed,
    Old.steps env_one 0.1 (Old.init [] 0.05) []
    = (Ok (model, s2, changed), [["a"%string]; []])
    /\ ([], Fitted (fitted env_one []), 0.05%float)
       = (Old.included s2, Fitted model, Old.threshold_in (Old.init [] 0.05))
    /\ ((0 <= Old.size s2)%Z
        \/ (Old.threshold_in (Old.init [] 0.05) =? 0.1)%float = true)
    /\ ((Old.size s2 <= 5)%Z
        \/ (Old.threshold_in (Old.init [] 0.05) =? 0.01)%float = true
        \/ Old.lower (Old.init [] 0.05) = true)
    /\ (changed = false
        \/ (Old.lower (Old.init [] 0.05) = true /\ (0 <= Old.size s2)%Z
            /\ gtb (PrimFloat.sqrt (rsquared model)) 0.9 = true)).
Proof.
  apply (earlier_selector_return env_one PrimFloat.sqrt 0.1 5 0
           (Old.init [] 0.05) [] ([], Fitted (fitted env_one []), 0.05%float)
           [["a"%string]; []]).
  vm_compute. reflexivity.
Defined.

(** X17. A pass of the earlier selector that leads to a next pass keeps
    [lower] once it is set, and keeps the threshold, or lowers it one
    step with Included emptied (only while [lower] is not set), or raises
    it one step with Included emptied and [lower] set.  A threshold on
    the grid 0.01, ..., 0.10 stays on it. *)
Theorem earlier_selector_next_pass
    (E : Env) (root : float -> float) (threshold_out : float)
    (max_vars min_vars : Z) (s : Old.State) (log : FitLog)
    (s' : Old.State) (log' : FitLog) :
  Old.pass E root threshold_out max_vars min_vars s log
  = (Ok (Old.Continue s'), log') ->
  (Old.lower s = true -> Old.lower s' = true)
  /\ (Old.threshold_in s' = Old.threshold_in s
      \/ (Old.threshold_in s' = lowered (Old.threshold_in s)
          /\ Old.lower s = false /\ Old.lower s' = false
          /\ Old.included s' = [])
      \/ (Old.threshold_in s' = raised (Old.threshold_in s)
          /\ Old.lower s' = true /\ Old.included s' = []))
  /\ (on_grid (Old.threshold_in s) -> on_grid (Old.threshold_in s')).
Proof.
  intros Hp.
  destruct (old_pass_inv _ _ _ _ _ _ _ _ _ Hp)
    as (model & s2 & changed & Hsteps & Hfin).
  destruct (old_steps_scalars _ _ _ _ _ _ _ _ Hsteps) as [Ht Hl].
  rewrite <- Ht, <- Hl. clear Hsteps Hp Ht Hl.
  unfold Old.finish, Old.lowering in Hfin.
  destruct ((Old.size s2 >? max_vars)%Z && neqb (Old.threshold_in s2) 0.01
            && negb (Old.lower s2)) eqn:Hlow.
  - apply andb_prop in Hlow. destruct Hlow as [_ Hlo].
    apply negb_true_iff in Hlo.
    unfold Old.quality, Old.stall in Hfin.
    cbn [Old.lower Old.included Old.size] in Hfin.
    rewrite Hlo, andb_false_r in Hfin. cbn [negb] in Hfin.
    inversion Hfin; subst s'. cbn. rewrite Hlo.
    split; [discriminate|]. split.
    + right. left. repeat split.
    + apply lowered_on_grid.
  - unfold Old.stall in Hfin.
    destruct (Old.quality root min_vars s2 changed model);
      cbn [negb] in Hfin.
    + inversion Hfin; subst s'. split; [auto|]. split; [left|]; auto.
    + destruct ((Old.size s2 <? min_vars)%Z
                && neqb (Old.threshold_in s2) 0.1); [|discriminate].
      inversion Hfin; subst s'. cbn. split; [reflexivity|]. split.
      * right. right. repeat split.
      * apply raised_on_grid.
Qed.

Lemma earlier_selector_next_pass_witness :
  Old.lower {| Old.included := []; Old.threshold_in := 0.06;
               Old.lower := true |} = true
  /\ on_grid 0.06.
Proof.
  destruct (earlier_selector_next_pass env_one PrimFloat.sqrt 0.1 5 1
              (Old.init [] 0.05) []
              {| Old.included := []; Old.threshold_in := 0.06;
                 Old.lower := true |}
              [["a"%string]; []])
    as (_ & _ & Hg).
  - vm_compute. reflexivity.
  - split; [reflexivity|]. apply Hg.
    apply on_grid_cent. exists 5%nat. split; [lia | reflexivity].
Defined.

(** ** X18: the earlier selector may never return either *)

Section EarlierNeverReturns.

Variable E : Env.
Variable root : float -> float.
Variables ti threshold_out : float.
Variables max_vars min_vars : Z.

Hypothesis iterates : iterates_elements E.
Hypothesis drops : gtb (best_single_pvalue E) threshold_out = true.
Hypothesis adds : (best_single_pvalue E <? ti)%float = true.
Hypothesis room : (0 <= max_vars)%Z.

Lemma old_pass_repeats log :
  exists log',
    Old.pass E root threshold_out max_vars min_vars (Old.init [] ti) log
    = (Ok (Old.Continue (Old.init [] ti)), log').
Proof.
  destruct (add_then_drop E threshold_out iterates drops (emptied ti) log
              eq_refl eq_refl eq_refl adds) as (model & log2 & Hsteps).
  assert (Hold : Old.steps E threshold_out (Old.init [] ti) log
                 = (Ok (model, Old.init [] ti, true), log2)).
  { destruct (steps_inv _ _ _ _ _ _ _ _ Hsteps)
      as (s1 & ch1 & log1 & Hf & Hb).
    change (Old.init [] ti) with (forget (emptied ti)) at 1.
    unfold Old.steps, bind. rewrite old_forward, Hf. cbn.
    rewrite (old_backward E threshold_out s1 ch1 log1), Hb;
      [reflexivity|].
    eapply aligned_forward; [|exact Hf]. split; reflexivity. }
  exists log2. unfold Old.pass. rewrite (bind_run _ _ _ _ _ Hold).
  cbn beta iota. unfold Old.finish, Old.lowering, Old.size.
  cbn [Old.included Old.init Old.lower Old.threshold_in].
  change (Z.of_nat (@Datatypes.length string [])) with 0%Z.
  replace (0 >? max_vars)%Z with false
    by (symmetry; rewrite Z.gtb_ltb; apply Z.ltb_ge; exact room).
  cbn [andb]. unfold Old.quality. cbn [Old.lower Old.init].
  rewrite andb_false_r. reflexivity.
Qed.

Lemma old_loop_repeats passes : forall log,
  exists log',
    Old.loop E root threshold_out max_vars min_vars passes (Old.init [] ti) log
    = (OutOfFuel, log').
Proof.
  induction passes as [|k IH]; intros log; cbn [Old.loop].
  - exists log. reflexivity.
  - destruct (old_pass_repeats log) as (log1 & Hp).
    rewrite (bind_run _ _ _ _ _ Hp). apply IH.
Qed.

End EarlierNeverReturns.



(** * What an invocation of the later selector returns *)

(** ** X19: the returned model and the returned list *)

(** Over-capacity handling returns the model it was given with Included
    as it was, or the fit on the Included it has cut. *)
Lemma over_capacity_model E max_vars min_vars fuel s model log s' m' log' :
  over_capacity E max_vars min_vars fuel s model log = (Ok (s', m'), log') ->
  (m' = model /\ included s' = included s /\ log' = log)
  \/ (m' = fitted E (included s') /\ log' = (log ++ [included s'])%list).
Proof.
  unfold over_capacity. intros H. apply bind_Ok in H.
  destruct H as (w & log1 & Hw & H).
  assert (Hl : log1 = log) by (inversion Hw; reflexivity). subst log1.
  apply bind_Ok in H. destruct H as (mask & log1 & Hm & H).
  apply expect_Ok in Hm. destruct Hm as [_ ->].
  destruct (if rcond _ then _ else _) as [|k rest].
  - apply ret_Ok in H. destruct H as [H ->]. inversion H; subst.
    left. repeat split.
  - apply bind_Ok in H. destruct H as (m & log1 & Hols & H).
    apply OLS_Ok in Hols. destruct Hols as (_ & -> & ->).
    apply ret_Ok in H. destruct H as [H ->]. inversion H; subst.
    right. split; reflexivity.
Qed.

(** X19. The model a pass returns is the fit on the list it returns,
    with one exception: when the backward step of that pass dropped a
    feature and the pass returns all the same (because [lower] is set,
    Included has at least [min_vars] features and the r-value of the
    model exceeds 0.9), the model is the fit on the list before the
    drop. *)
Theorem returned_model_and_list
    (E : Env) (threshold_out : float) (max_vars min_vars : Z) (fuel : nat)
    (s : State) (log : FitLog)
    (incl : list string) (pm : PyModel) (t : float) (log' : FitLog) :
  pass E threshold_out max_vars min_vars fuel s log
  = (Ok (Return (incl, pm, t)), log') ->
  exists m,
    pm = Fitted m
    /\ (m = fitted E incl
        \/ exists before k,
             pop k before = Some incl
             /\ m = fitted E before
             /\ lower s = true
             /\ (min_vars <= Z.of_nat (List.length incl))%Z
             /\ gtb (rvalue E (rsquared m)) 0.9 = true).
Proof.
  intros Hp. unfold pass in Hp. apply bind_Ok in Hp.
  destruct Hp as ([[model s2] changed] & log2 & Hsteps & Hd).
  assert (Hsc := steps_scalars _ _ _ _ _ _ _ _ Hsteps).
  destruct Hsc as (_ & _ & Hlow & _).
  destruct (steps_inv _ _ _ _ _ _ _ _ Hsteps)
    as (s1 & ch1 & log1 & _ & Hb).
  destruct (backward_inv _ _ _ _ _ _ _ _ _ Hb)
    as (_ & Hmodel & _ & [[-> ->] | (k & incl2 & ps & rs & Hpop & _ & _
                                     & -> & ->)]).
  - (* nothing dropped in this pass *)
    unfold dispatch in Hd.
    assert (Hstall : forall chx log3,
              (Ok (stall min_vars s1 chx model), log3)
              = (Ok (Return (incl, pm, t)), log') ->
              pm = Fitted model /\ incl = included s1).
    { intros chx log3 H. inversion H as [[Hst Hlog]]. unfold stall in Hst.
      destruct (negb chx); [|discriminate].
      destruct ((size s1 <? min_vars)%Z && neqb (threshold_in s1) 0.1);
        [discriminate|].
      inversion Hst. auto. }
    assert (Hgoal : pm = Fitted model /\ incl = included s1
                    \/ exists m, pm = Fitted m /\ m = fitted E incl).
    { destruct (_ && _ && negb ch1).
      - apply ret_Ok in Hd. destruct Hd as [Hd _]. inversion Hd. auto.
      - destruct ((size s1 >? max_vars)%Z && negb (dropped s1)).
        + apply bind_Ok in Hd. destruct Hd as ([s3 m3] & log3 & Hov & Hd).
          apply ret_Ok in Hd. destruct Hd as [Hd _]. inversion Hd; subst.
          destruct (over_capacity_model _ _ _ _ _ _ _ _ _ _ Hov)
            as [(-> & -> & _) | (-> & _)]; [left; auto|].
          right. eauto.
        + destruct (dropped s1).
          * unfold on_dropped in Hd.
            destruct ((threshold_in s1 =? 0.1)%float && onetime s1).
            { apply ret_Ok in Hd. destruct Hd as [Hd _]. discriminate Hd. }
            destruct (_ && _ && negb (lower s1)).
            { apply ret_Ok in Hd. destruct Hd as [Hd _]. discriminate Hd. }
            left.
            destruct ((size s1 >=? min_vars)%Z && lower s1);
              [destruct (gtb _ 0.9)|]; eapply Hstall; exact Hd.
          * left. eapply Hstall; exact Hd. }
    destruct Hgoal as [[-> ->] | (m & -> & ->)].
    + exists model. split; [reflexivity|]. left. exact Hmodel.
    + eexists. split; [reflexivity|]. left. reflexivity.
  - (* the backward step has dropped a feature *)
    unfold dispatch in Hd.
    cbn [negb andb dropped set_lists set_dropped] in Hd.
    rewrite !andb_false_r in Hd. cbn [andb] in Hd.
    unfold on_dropped in Hd.
    cbn [threshold_in onetime lower set_lists set_dropped] in Hd.
    cbn [lower set_lists set_dropped] in Hlow.
    destruct ((threshold_in s1 =? 0.1)%float && onetime s1).
    { apply ret_Ok in Hd. destruct Hd as [Hd _]. discriminate Hd. }
    destruct (_ && _ && negb (lower s1)).
    { apply ret_Ok in Hd. destruct Hd as [Hd _]. discriminate Hd. }
    destruct ((size _ >=? min_vars)%Z && lower s1) eqn:Hq.
    2:{ apply ret_Ok in Hd. destruct Hd as [Hd _]. discriminate Hd. }
    destruct (gtb (rvalue E (rsquared model)) 0.9) eqn:Hr.
    2:{ apply ret_Ok in Hd. destruct Hd as [Hd _]. discriminate Hd. }
    apply ret_Ok in Hd. destruct Hd as [Hd _]. unfold stall in Hd.
    cbn [negb] in Hd.
    destruct ((size (set_lists (set_dropped s1 true) incl2 ps rs)
               <? min_vars)%Z && _); [discriminate|].
    inversion Hd; subst. cbn [included set_lists].
    exists (fitted E (included s1)). split; [reflexivity|]. right.
    exists (included s1), k.
    apply andb_prop in Hq. destruct Hq as [Hsz Hl].
    rewrite Z.geb_leb in Hsz. apply Z.leb_le in Hsz.
    unfold size in Hsz. cbn [included set_lists] in Hsz.
    repeat split; auto. congruence.
Qed.

(** A pass that returns the list after a drop with the model fitted
    before it. *)
Example returns_the_model_before_the_drop :
  pass env_pair 0.03 5 1 20 head_pair []
  = (Ok (Return (["a"], Fitted (fitted env_pair ["a"; "b"]), 0.05%float)),
     [["a"; "b"]; ["a"; "b"]]).
Proof. vm_compute. reflexivity. Qed.

Lemma returned_model_and_list_witness :
  exists m,
    Fitted (fitted env_pair ["a"; "b"]) = Fitted m
    /\ (m = fitted env_pair ["a"]
        \/ exists before k,
             pop k before = Some ["a"]
             /\ m = fitted env_pair before
             /\ lower head_pair = true
             /\ (1 <= Z.of_nat (List.length ["a"]))%Z
             /\ gtb (rvalue env_pair (rsquared m)) 0.9 = true).
Proof.
  apply (returned_model_and_list env_pair 0.03 5 1 20 head_pair []
           ["a"] (Fitted (fitted env_pair ["a"; "b"])) 0.05%float
           [["a"; "b"]; ["a"; "b"]]).
  vm_compute. reflexivity.
Defined.

(** ** The loop and its heads *)

Section LoopHeads.

Variable E : Env.
Variable threshold_out : float.
Variables max_vars min_vars : Z.
Variable fuel : nat.

Local Abbreviation reaches' :=
  (reaches E threshold_out max_vars min_vars fuel).
Local Abbreviation pass' := (pass E threshold_out max_vars min_vars fuel).
Local Abbreviation loop' := (loop E threshold_out max_vars min_vars fuel).

Lemma reaches_front_inv n : forall s log s2 log2,
  reaches' s log (S n) s2 log2 ->
  exists s1 log1,
    pass' s log = (Ok (Continue s1), log1) /\ reaches' s1 log1 n s2 log2.
Proof.
  induction n as [|n IH]; intros s log s2 log2 H;
    apply reaches_snoc_inv in H; destruct H as (sa & loga & Hr & Hp).
  - inversion Hr; subst. exists s2, log2. split; [exact Hp|].
    apply reaches_head.
  - destruct (IH _ _ _ _ Hr) as (s1 & log1 & Hp1 & Hr1).
    exists s1, log1. split; [exact Hp1|].
    eapply reaches_pass; eauto.
Qed.

(** The loop raises an exception exactly when the pass from a head it
    reaches raises it. *)
Lemma loop_raises passes : forall s log e log',
  loop' passes s log = (Raise e, log') <->
  exists n sn logn,
    (n < passes)%nat /\ reaches' s log n sn logn
    /\ pass' sn logn = (Raise e, log').
Proof.
  induction passes as [|k IH]; intros s log e log'; cbn [loop].
  - split; [discriminate|]. intros (n & _ & _ & Hn & _). lia.
  - split.
    + intros H. unfold bind in H.
      destruct (pass' s log) as [[[s1|r1]|e1|] log1] eqn:Hp;
        try discriminate.
      * apply IH in H. destruct H as (n & sn & logn & Hn & Hr & Hq).
        exists (S n), sn, logn. split; [lia|]. split; [|exact Hq].
        eapply reaches_front; eauto.
      * inversion H; subst.
        exists 0%nat, s, log. split; [lia|]. split; [|exact Hp].
        apply reaches_head.
    + intros (n & sn & logn & Hn & Hr & Hq). destruct n as [|n].
      * inversion Hr; subst. apply bind_raise. exact Hq.
      * apply reaches_front_inv in Hr. destruct Hr as (s1 & log1 & Hp & Hr).
        rewrite (bind_run _ _ _ _ _ Hp). apply IH.
        exists n, sn, logn. split; [lia|]. split; assumption.
Qed.

End LoopHeads.

(** ** X21: the exceptions of an invocation from the empty list *)

Lemma mem_true_iff (c : string) (l : list string) :
  mem c l = true <-> In c l.
Proof.
  destruct (mem c l) eqn:Hm.
  - split; [|reflexivity]. intros _. unfold mem in Hm.
    apply existsb_exists in Hm. destruct Hm as (x & Hx & Heq).
    apply String.eqb_eq in Heq. subst x. exact Hx.
  - apply mem_false_iff in Hm. split; [discriminate | contradiction].
Qed.

Lemma known_In E (l : list string) :
  known E l = true <-> forall c, In c l -> In c (columns E).
Proof.
  unfold known. rewrite forallb_forall. split; intros H c Hc.
  - apply mem_true_iff, H, Hc.
  - apply mem_true_iff, H, Hc.
Qed.

Section Progress.

Variable E : Env.
Variable threshold_out : float.
Variables max_vars min_vars : Z.
Variable fuel : nat.

Hypothesis iterates : iterates_elements E.

(** With Included among the columns, the forward step completes. *)
Lemma forward_completes s log :
  known E (included s) = true ->
  exists s1 changed log1,
    forward E s log = (Ok (s1, changed), log1)
    /\ known E (included s1) = true.
Proof.
  intros Hk.
  set (excluded := set_iter E (set_difference (columns E) (included s))).
  assert (Hex : forall c, In c excluded -> In c (columns E)).
  { intros c Hc. apply iterates, set_difference_In in Hc. tauto. }
  assert (Hknown : forall c, In c excluded ->
                     known E (included s ++ [c]) = true).
  { intros c Hc. rewrite known_app, Hk. cbn [andb]. apply known_In.
    intros x [<- | []]. apply Hex, Hc. }
  destruct (forward_fits_run E (included s) excluded log Hknown)
    as (log1 & Hfits).
  unfold forward. fold excluded. rewrite (bind_run _ _ _ _ _ Hfits).
  cbn beta iota.
  destruct (Series.min (map (forward_pvalue E (included s)) excluded)
            <? threshold_in s)%float eqn:Hlt.
  - destruct (series_min_below _ _ Hlt) as (i & Harg & Hnth & _).
    rewrite Harg. cbn [expect]. unfold bind, ret.
    rewrite nth_error_map in Hnth.
    destruct (nth_error excluded i) as [c|] eqn:Hc; [|discriminate].
    cbn [expect]. unfold ret. rewrite nth_error_map, Hc. cbn.
    eexists _, _, _. split; [reflexivity|]. cbn [included set_lists].
    apply Hknown. eapply nth_error_In; eauto.
  - eexists _, _, _. split; [reflexivity | exact Hk].
Qed.

(** With Included among the columns and the tracks as long as Included,
    the backward step completes. *)
Lemma backward_completes s changed log :
  known E (included s) = true -> aligned s ->
  exists model s2 changed2 log2,
    backward E threshold_out s changed log
    = (Ok (model, s2, changed2), log2).
Proof.
  intros Hk [Hp Hr]. unfold backward.
  rewrite (bind_run _ _ _ _ _ (OLS_run E (included s) log Hk)).
  destruct (gtb (Series.max (map snd (tl (pvalues (fitted E (included s))))))
              threshold_out) eqn:Hgt.
  - destruct (series_max_above _ _ Hgt) as (i & Harg & Hnth & _).
    rewrite Harg. cbn [expect]. unfold bind, ret.
    rewrite nth_error_map in Hnth.
    destruct (nth_error (tl (pvalues (fitted E (included s)))) i)
      as [[f v]|] eqn:Hf; [|discriminate].
    rewrite nth_error_map, Hf. cbn [option_map fst expect]. unfold ret.
    assert (Hin : In f (included s)).
    { rewrite <- (fitted_labels E (included s)).
      apply in_map_iff. exists (f, v). split; [reflexivity|].
      eapply nth_error_In; eauto. }
    destruct (index_In _ _ Hin) as (k & Hk').
    rewrite Hk'. cbn [expect]. unfold ret.
    assert (Hlt : (k < List.length (included s))%nat).
    { apply nth_error_Some. rewrite (index_nth _ _ _ Hk'). discriminate. }
    destruct (pop_in_range (included_pvals s) k) as (ps & -> & _);
      [rewrite Hp; exact Hlt|].
    destruct (pop_in_range (included_rvals s) k) as (rs & -> & _);
      [rewrite Hr; exact Hlt|].
    cbn [expect]. unfold ret. rewrite (remove_is_pop _ _ _ Hk').
    destruct (pop_in_range (included s) k Hlt) as (incl & -> & _).
    cbn. eexists _, _, _, _. reflexivity.
  - eexists _, _, _, _. reflexivity.
Qed.

Lemma tighten_never_raises pvals rvals n : forall w e,
  tighten max_vars min_vars n pvals rvals w <> Raise e.
Proof.
  induction n as [|n IH]; intros w e; rewrite tighten_unfold;
    destruct (tighten_test max_vars w); try discriminate.
  destruct (tighten_body max_vars min_vars pvals rvals w) as [w1|w1];
    [apply IH | discriminate].
Qed.

(** The tightening loop leaves [mask] unbound only when its test fails
    at once. *)
Lemma tighten_mask_unbound pvals rvals n : forall w w',
  tighten max_vars min_vars n pvals rvals w = Ok w' ->
  w_mask w' = None ->
  tighten_test max_vars w = false.
Proof.
  induction n as [|n IH]; intros w w' H Hm; rewrite tighten_unfold in H;
    destruct (tighten_test max_vars w) eqn:Ht; try reflexivity;
    try discriminate.
  destruct (tighten_body max_vars min_vars pvals rvals w) as [w1|w1] eqn:Hb.
  - specialize (IH _ _ H Hm).
    destruct (body_continue _ _ _ _ _ _ Hb) as (_ & _ & _ & _ & _ & Ht1).
    congruence.
  - inversion H; subst w1.
    destruct (body_break _ _ _ _ _ _ Hb)
      as [(_ & _ & _ & Hmask & _) | (_ & _ & _ & Hmask & _)];
      congruence.
Qed.

Lemma over_capacity_raises s model log e log' :
  known E (included s) = true ->
  over_capacity E max_vars min_vars fuel s model log = (Raise e, log') ->
  e = UnboundLocalError /\ (999 <= max_vars)%Z.
Proof.
  intros Hk. unfold over_capacity, bind.
  change {| w_psize := 999; w_idem := false;
            w_threshold_in := threshold_in s; w_mask := None;
            w_rcond := rcond s; w_history := [] |} with (tighten_entry s).
  destruct (tighten max_vars min_vars fuel (included_pvals s)
              (included_rvals s) (tighten_entry s)) as [w|e1|] eqn:Ht.
  - destruct (w_mask w) as [mask|] eqn:Hm; cbn [expect raise ret].
    + unfold ret. destruct (if rcond _ then _ else _) as [|k rest];
        [discriminate|].
      cbn [included set_rcond set_threshold_in].
      rewrite (OLS_run E (firstn k (included s)) log
                 (known_firstn E _ k Hk)).
      discriminate.
    + unfold raise. intros H. inversion H; subst.
      split; [reflexivity|].
      apply (tighten_mask_unbound _ _ _ _ _ Ht) in Hm.
      unfold tighten_test, tighten_entry in Hm. cbn in Hm.
      rewrite orb_false_r in Hm. rewrite Z.gtb_ltb in Hm.
      apply Z.ltb_ge in Hm. exact Hm.
  - exfalso. exact (tighten_never_raises _ _ _ _ _ Ht).
  - discriminate.
Qed.

(** A pass from a head with Included among the columns and the tracks as
    long as Included raises nothing but the unbound [mask]. *)
Lemma pass_raises s log e log' :
  known E (included s) = true -> aligned s ->
  pass E threshold_out max_vars min_vars fuel s log = (Raise e, log') ->
  e = UnboundLocalError /\ (999 <= max_vars)%Z.
Proof.
  intros Hk Ha H.
  destruct (forward_completes s log Hk) as (s1 & ch1 & log1 & Hf & Hk1).
  assert (Ha1 : aligned s1) by (eapply aligned_forward; eauto).
  destruct (backward_completes s1 ch1 log1 Hk1 Ha1)
    as (model & s2 & ch2 & log2 & Hb).
  assert (Hk2 : known E (included s2) = true).
  { destruct (backward_inv _ _ _ _ _ _ _ _ _ Hb)
      as (_ & _ & _ & [[-> _] | (k & incl & ps & rs & Hpop & _ & _ & -> & _)]);
      [exact Hk1|].
    cbn [included set_lists]. apply known_In. intros c Hc.
    apply (proj1 (known_In E _) Hk1). eapply pop_In; eauto. }
  unfold pass, steps in H.
  rewrite (bind_run _ _ _ _ _ (eq_trans (bind_run _ _ _ _ _ Hf) Hb)) in H.
  cbn beta iota in H. unfold dispatch in H.
  destruct (_ && _ && negb ch2); [discriminate|].
  destruct ((size s2 >? max_vars)%Z && negb (dropped s2)).
  - unfold bind in H.
    destruct (over_capacity E max_vars min_vars fuel s2 model log2)
      as [[[s3 m3]|e1|] log3] eqn:Hov; try discriminate.
    inversion H; subst. eapply over_capacity_raises; eauto.
  - destruct (dropped s2); [|discriminate].
    destruct (on_dropped E max_vars min_vars s2 ch2 model); discriminate.
Qed.

End Progress.

Lemma distinct_columns_reaches E threshold_out max_vars min_vars fuel
    initial_list ti n s log :
  iterates_elements E ->
  distinct_columns E initial_list ->
  reaches E threshold_out max_vars min_vars fuel (init initial_list ti) []
    n s log ->
  distinct_columns E (included s).
Proof.
  intros Hit Hinit Hr.
  remember (init initial_list ti) as s0 eqn:Hs0.
  remember (@nil (list string)) as log0 eqn:Hlog0.
  induction Hr as [s log | s log n sa loga sb logb Hr IH Hq].
  - subst s. exact Hinit.
  - eapply distinct_columns_pass; [exact Hit | apply IH; assumption
                                  | exact Hq].
Qed.



(** ** X22: the earlier selector raises nothing on known columns *)

Section EarlierProgress.

Variable E : Env.
Variable root : float -> float.
Variable threshold_out : float.
Variables max_vars min_vars : Z.

Hypothesis iterates : iterates_elements E.

Lemma forget_padded (s : Old.State) : forget (padded s) = s.
Proof. destruct s. reflexivity. Qed.

Lemma old_steps_complete s log :
  known E (Old.included s) = true ->
  exists model s2 changed log2,
    Old.steps E threshold_out s log = (Ok (model, s2, changed), log2)
    /\ known E (Old.included s2) = true.
Proof.
  intros Hk.
  assert (Ha : aligned (padded s)).
  { split; cbn; apply length_map. }
  destruct (forward_completes E iterates (padded s) log Hk)
    as (s1 & ch1 & log1 & Hf & Hk1).
  assert (Ha1 : aligned s1) by (eapply aligned_forward; eauto).
  destruct (backward_completes E threshold_out s1 ch1 log1 Hk1 Ha1)
    as (model & s2 & ch2 & log2 & Hb).
  exists model, (forget s2), ch2, log2. split.
  - rewrite <- (forget_padded s) at 1.
    unfold Old.steps, bind. rewrite old_forward, Hf. cbn.
    rewrite (old_backward E threshold_out s1 ch1 log1 Ha1), Hb.
    reflexivity.
  - cbn [forget Old.included].
    destruct (backward_inv _ _ _ _ _ _ _ _ _ Hb)
      as (_ & _ & _ & [[-> _] | (k & incl & ps & rs & Hpop & _ & _ & -> & _)]);
      [exact Hk1|].
    cbn [included set_lists]. apply known_In. intros c Hc.
    apply (proj1 (known_In E _) Hk1). eapply pop_In; eauto.
Qed.

Lemma old_finish_known s changed model s' :
  known E (Old.included s) = true ->
  Old.finish root max_vars min_vars s changed model = Old.Continue s' ->
  known E (Old.included s') = true.
Proof.
  intros Hk. unfold Old.finish, Old.lowering, Old.stall.
  destruct (_ && _ && negb (Old.lower s)).
  - destruct (negb _).
    + destruct (_ && _); [|discriminate]. intros [= <-]. reflexivity.
    + intros [= <-]. reflexivity.
  - destruct (negb _).
    + destruct (_ && _); [|discriminate]. intros [= <-]. reflexivity.
    + intros [= <-]. exact Hk.
Qed.

Lemma old_loop_never_raises passes : forall s log e log',
  known E (Old.included s) = true ->
  Old.loop E root threshold_out max_vars min_vars passes s log
  <> (Raise e, log').
Proof.
  induction passes as [|k IH]; intros s log e log' Hk; cbn [Old.loop];
    [discriminate|].
  destruct (old_steps_complete s log Hk)
    as (model & s2 & ch & log2 & Hsteps & Hk2).
  assert (Hp : Old.pass E root threshold_out max_vars min_vars s log
               = (Ok (Old.finish root max_vars min_vars s2 ch model), log2)).
  { unfold Old.pass. rewrite (bind_run _ _ _ _ _ Hsteps). reflexivity. }
  rewrite (bind_run _ _ _ _ _ Hp).
  destruct (Old.finish root max_vars min_vars s2 ch model) as [s'|r] eqn:Hfin.
  - apply IH. eapply old_finish_known; eauto.
  - discriminate.
Qed.

End EarlierProgress.


